(** * fio.box: the simulation cell of the fio package

    A shallow embedding of [src/fio/box.py]: the guarded parameter
    dictionary [BoxInputDict], the derived geometry [Box.output], the five
    input conversions, the type guesser and the spatial queries
    ([bbcheck], [extend], [wrap], [ghost]).

    Modelling conventions.
    - A numpy [float64] is a real number of [R]: arithmetic is exact, the
      only rounding is the explicit [np.round(_, 9)] of [Box.output].
      [x ** 2.0] is [x ^ 2], [x ** 0.5] is [sqrt x], [np.cos] and
      [np.arccos] are [cos] and [acos].  Infinities and NaN do not exist
      in [R]; states on which numpy would produce them (a division by a
      zero length, the square root of a negative number) are outside the
      domain on which the model is meant to be read.
    - A Python dict with string keys is a [gmap string _].
    - An exception is a value of [error] returned on the left of a sum. *)

From Stdlib Require Import Reals Lra Lia ZArith List.
From stdpp Require Import base option gmap strings.
Import ListNotations.

(** ** Numbers: comparisons, [np.rint] and [np.round] *)

Module Num.
Local Open Scope R_scope.

Definition deg2rad : R := PI / 180.
Definition rad2deg : R := 180 / PI.

Definition Rltb (x y : R) : bool := if Rlt_dec x y then true else false.
Definition Rleb (x y : R) : bool := if Rle_dec x y then true else false.
Definition Reqb (x y : R) : bool := if Req_dec_T x y then true else false.

(** [np.rint]: the nearest integer, a tie going to the even neighbour. *)
Definition rint (x : R) : Z :=
  let f := Zfloor x in
  if Rlt_dec (x - IZR f) (1 / 2) then f
  else if Rlt_dec (1 / 2) (x - IZR f) then (f + 1)%Z
  else if Z.even f then f else (f + 1)%Z.

(** [np.round(x, p)] is [rint (x * 10**p) / 10**p]. *)
Definition round_dec (p : nat) (x : R) : R :=
  IZR (rint (x * 10 ^ p)) / 10 ^ p.

(** [p = 9] in [Box.output]. *)
Definition round9 : R -> R := round_dec 9.

End Num.

(** ** Python values, exceptions and log records *)

Module Py.

(** The Python values of the model: a float, a bool, a str, and a dict
    with string keys (the one kind of value the attribute [__dict__]
    takes). *)
#[warnings="-register-all"]
Inductive value : Type :=
| VNum (r : R)
| VBool (b : bool)
| VStr (s : string)
| VDict (d : gmap string value).

(** Modelled from the spec: the [ERROR] helper and the [logger] are imported
    from the package's [__init__], which is not part of the sources; the
    spec names the fatal error kinds and says that warnings are logged and
    execution continues.  The other constructors are Python's and numpy's
    own exceptions. *)
Inductive error : Type :=
| KeyError (key : string)
| TypeError
| RecursionError
| ValueError
| IndexError
| AttributeError
| LinAlgError
| MissingParameters
| InvalidParameters
| UnsupportedFormat.

Inductive event : Type :=
| IgnoredInvalid (keys : gset string)
| KeepingTilt (key : string)
| PointsOutside (n : nat) (ix_outbound : list nat).

End Py.

(** ** [BoxInputDict]: the guarded parameter dictionary *)

Module Store.
Import Num.
Export Py.

Record state : Type := State { dict : gmap string value; log : list event }.

(** Python's [value != 90]: a bool is the integer 0 or 1, a str or a dict
    is never equal to a number. *)
Definition ne90 (v : value) : bool :=
  match v with
  | VNum r => negb (Reqb r 90)
  | VBool _ => true
  | VStr _ => true
  | VDict _ => true
  end.

(** Python's truth value. *)
Definition truthy (v : value) : bool :=
  match v with
  | VNum r => negb (Reqb r 0)
  | VBool b => b
  | VStr s => negb (String.eqb s "")
  | VDict d => negb (bool_decide (dom d = ∅))
  end.

Definition abg : list string := ["alpha"; "beta"; "gamma"].

Definition in_abg (key : string) : bool :=
  bool_decide (key ∈ abg).

(** A computation on the dictionary: it may raise, and it may change the
    dictionary and the log. *)
Definition M (A : Type) : Type := state → (error + A) * state.

#[export] Instance M_ret : MRet M := λ A x σ, (inr x, σ).
#[export] Instance M_bind : MBind M := λ A B f m σ,
  match m σ with
  | (inl e, σ') => (inl e, σ')
  | (inr x, σ') => f x σ'
  end.

Definition raise {A} (e : error) : M A := λ σ, (inl e, σ).
Definition get_dict : M (gmap string value) := λ σ, (inr (dict σ), σ).
Definition put_dict (d : gmap string value) : M unit :=
  λ σ, (inr tt, State d (log σ)).
(** [logger.warning], [logger.debug] *)
Definition logger (ev : event) : M unit :=
  λ σ, (inr tt, State (dict σ) (log σ ++ [ev])).

(** [dict.__getitem__] *)
Definition getitem (key : string) : M value :=
  d ← get_dict;
  match d !! key with
  | Some v => mret v
  | None => raise (KeyError key)
  end.

(** [_check_allow_tilt], with the write [self.__dict__['allow_tilt'] = True]
    passed in: [self.__dict__] is [self], so that write is [__setitem__]. *)
Definition _check_allow_tilt (setitem : string → value → M unit)
    (key : string) (v : value) : M unit :=
  if in_abg key && ne90 v then setitem "allow_tilt" (VBool true)
  else if String.eqb key "allow_tilt" then
    flag ← getitem "allow_tilt";
    if negb (truthy flag) then
      al ← getitem "alpha";
      be ← getitem "beta";
      ga ← getitem "gamma";
      if ne90 al || ne90 be || ne90 ga then
        logger (KeepingTilt key);; setitem "allow_tilt" (VBool true)
      else mret tt
    else mret tt
  else mret tt.

(** [__setitem__]; the fuel bounds the recursion through
    [_check_allow_tilt]. *)
Fixpoint setitem_rec (fuel : nat) (key : string) (v : value) : M unit :=
  match fuel with
  | O => raise RecursionError
  | S fuel' =>
      d ← get_dict;
      match d !! key with
      | None => raise (KeyError key)
      | Some _ =>
          put_dict (<[key := v]> d);;
          _check_allow_tilt (setitem_rec fuel') key v
      end
  end.

(** Two levels are all the recursion there is (see [setitem_rec_fuel]). *)
Definition setitem : string → value → M unit := setitem_rec 2.

(** The object after an attribute assignment.  A [state] is an object as
    [__init__] leaves it: its attribute dictionary [__dict__] is the mapping
    itself.  An accepted assignment to [__dict__] replaces the attribute
    dictionary by the dict given and leaves the mapping alone; the methods
    modelled here are not defined on such an object. *)
Inductive object : Type :=
| Normal (σ : state)
| Detached (σ : state) (own : gmap string value).

(** The mapping and the log of an object. *)
Definition state_of (o : object) : state :=
  match o with
  | Normal σ => σ
  | Detached σ _ => σ
  end.

(** [__setattr__] on an object as [__init__] leaves it.  The guard lets
    the fields and the name [__dict__] through.  [object.__setattr__] then
    stores a field into the instance dictionary, which is the mapping
    itself, and [_check_allow_tilt] runs; under [__dict__] it takes a dict
    only ([TypeError] otherwise), which becomes the attribute dictionary,
    and [_check_allow_tilt] has nothing to do for that key. *)
Definition setattr (key : string) (v : value) (σ : state)
    : (error + unit) * object :=
  if bool_decide (is_Some (dict σ !! key)) || String.eqb key "__dict__" then
    if String.eqb key "__dict__" then
      match v with
      | VDict own => (inr tt, Detached σ own)
      | _ => (inl TypeError, Normal σ)
      end
    else
      let r := (put_dict (<[key := v]> (dict σ));;
                _check_allow_tilt setitem key v) σ in
      (r.1, Normal r.2)
  else (inl (KeyError key), Normal σ).

(** [dict.update] with a mapping or an iterable of pairs: the pairs are
    stored in order, without going through [__setitem__]. *)
Definition dict_update (kvs : list (string * value))
    (d : gmap string value) : gmap string value :=
  foldl (λ m kv, <[kv.1 := kv.2]> m) d kvs.

(** [for k in invalidkeys: self.pop(k)] *)
Definition pop_all (ks : gset string) (d : gmap string value)
    : gmap string value :=
  foldr delete d (elements ks).

(** [BoxInputDict.update] *)
Definition update (kvs : list (string * value)) : M unit :=
  d ← get_dict;
  let frozen := dom d in
  let d' := dict_update kvs d in
  put_dict d';;
  let invalidkeys := dom d' ∖ frozen in
  if bool_decide (invalidkeys = ∅) then mret tt
  else logger (IgnoredInvalid invalidkeys);; put_dict (pop_all invalidkeys d').

(** The dictionary built by [Box.__init__]. *)
Definition defaults : gmap string value :=
  list_to_map
    [("x0", VNum 0); ("y0", VNum 0); ("z0", VNum 0);
     ("lx", VNum 1); ("ly", VNum 1); ("lz", VNum 1);
     ("alpha", VNum 90); ("beta", VNum 90); ("gamma", VNum 90);
     ("allow_tilt", VBool false);
     ("bx", VStr "pp"); ("by", VStr "pp"); ("bz", VStr "pp")].

(** The closed field set. *)
Definition fields : gset string := dom defaults.

(** [Box(inputdict)] *)
Definition init (inputdict : list (string * value)) : (error + unit) * state :=
  update inputdict (State defaults []).

(** Invariant I1: a stored angle other than 90 comes with a true
    [allow_tilt]. *)
Definition nonorthogonal (d : gmap string value) : Prop :=
  ∃ k v, k ∈ abg ∧ d !! k = Some v ∧ ne90 v = true.

Definition tilt_allowed (d : gmap string value) : Prop :=
  ∃ v, d !! "allow_tilt" = Some v ∧ truthy v = true.

Definition I1 (d : gmap string value) : Prop :=
  nonorthogonal d → tilt_allowed d.

(** *** Vocabulary for the properties of [update] *)

(** The last value a list of pairs binds to a key. *)
Fixpoint last_value (kvs : list (string * value)) (k : string) : option value :=
  match kvs with
  | [] => None
  | kv :: rest =>
      match last_value rest k with
      | Some w => Some w
      | None => if decide (kv.1 = k) then Some kv.2 else None
      end
  end.

(** The keys [update] finds added by [dict.update]: [invalidkeys]. *)
Definition unknown_keys (kvs : list (string * value)) (d : gmap string value)
    : gset string :=
  dom (dict_update kvs d) ∖ dom d.

(** The keys a list of pairs binds that are not in a given key set. *)
Definition unrecognized (kvs : list (string * value)) (known : gset string)
    : gset string :=
  list_to_set kvs.*1 ∖ known.

End Store.

(** ** Vectors and 3x3 matrices, as numpy computes with them *)

Module Vec.
Import Num.
Local Open Scope R_scope.

Record vec3 : Type := V3 { vx : R; vy : R; vz : R }.

(** A 3x3 array, row by row. *)
Record mat3 : Type := M3 { row0 : vec3; row1 : vec3; row2 : vec3 }.

Definition vzero : vec3 := V3 0 0 0.
Definition vadd (p q : vec3) : vec3 := V3 (vx p + vx q) (vy p + vy q) (vz p + vz q).
Definition vsub (p q : vec3) : vec3 := V3 (vx p - vx q) (vy p - vy q) (vz p - vz q).
Definition vneg (p : vec3) : vec3 := V3 (- vx p) (- vy p) (- vz p).
Definition vscale (k : R) (p : vec3) : vec3 := V3 (k * vx p) (k * vy p) (k * vz p).
Definition vmul (p q : vec3) : vec3 := V3 (vx p * vx q) (vy p * vy q) (vz p * vz q).
Definition vdiv (p : vec3) (k : R) : vec3 := V3 (vx p / k) (vy p / k) (vz p / k).
Definition vmap (f : R -> R) (p : vec3) : vec3 := V3 (f (vx p)) (f (vy p)) (f (vz p)).
Definition vmin (p q : vec3) : vec3 :=
  V3 (Rmin (vx p) (vx q)) (Rmin (vy p) (vy q)) (Rmin (vz p) (vz q)).
Definition vmax (p q : vec3) : vec3 :=
  V3 (Rmax (vx p) (vx q)) (Rmax (vy p) (vy q)) (Rmax (vz p) (vz q)).

(** [np.dot] of two vectors *)
Definition dot (p q : vec3) : R := vx p * vx q + vy p * vy q + vz p * vz q.

(** [np.cross] *)
Definition np_cross (p q : vec3) : vec3 :=
  V3 (vy p * vz q - vz p * vy q)
     (vz p * vx q - vx p * vz q)
     (vx p * vy q - vy p * vx q).

(** [np.sum(a ** 2.0)] of one row *)
Definition sumsq (p : vec3) : R := vx p ^ 2 + vy p ^ 2 + vz p ^ 2.

(** [np.linalg.norm(a, 2)] of one row, also [np.sum(a ** 2.0) ** 0.5] *)
Definition norm (p : vec3) : R := sqrt (sumsq p).

(** [normalize] on one row: a zero norm is replaced by 1 *)
Definition normalize (p : vec3) : vec3 :=
  let l2 := norm p in
  vdiv p (if Reqb l2 0 then 1 else l2).

(** [cross] of the source: the normalized cross product *)
Definition cross (p q : vec3) : vec3 := normalize (np_cross p q).

Definition mmap (f : vec3 -> vec3) (m : mat3) : mat3 :=
  M3 (f (row0 m)) (f (row1 m)) (f (row2 m)).

(** [normalize] on a matrix works row by row *)
Definition mnormalize : mat3 -> mat3 := mmap normalize.

(** [np.dot(m, p)]: the three row products *)
Definition mdot (m : mat3) (p : vec3) : vec3 :=
  V3 (dot (row0 m) p) (dot (row1 m) p) (dot (row2 m) p).

(** [np.sum(m, axis=0)] *)
Definition msum_rows (m : mat3) : vec3 := vadd (vadd (row0 m) (row1 m)) (row2 m).

(** [np.sum(m ** 2.0, axis=1) ** 0.5] *)
Definition mnorms (m : mat3) : vec3 := V3 (norm (row0 m)) (norm (row1 m)) (norm (row2 m)).

Definition det (m : mat3) : R := dot (row0 m) (np_cross (row1 m) (row2 m)).

(** The inverse that [np.linalg.inv] returns on a regular matrix: the
    transposed cofactors over the determinant. *)
Definition minv (m : mat3) : mat3 :=
  let c0 := np_cross (row1 m) (row2 m) in
  let c1 := np_cross (row2 m) (row0 m) in
  let c2 := np_cross (row0 m) (row1 m) in
  let d := det m in
  M3 (V3 (vx c0 / d) (vx c1 / d) (vx c2 / d))
     (V3 (vy c0 / d) (vy c1 / d) (vy c2 / d))
     (V3 (vz c0 / d) (vz c1 / d) (vz c2 / d)).

Definition diag (a b c : R) : mat3 := M3 (V3 a 0 0) (V3 0 b 0) (V3 0 0 c).

Definition identity : mat3 := diag 1 1 1.

(** [np.array(l).reshape(3, 3)] *)
Definition reshape33 (l : list R) : option mat3 :=
  match l with
  | [a; b; c; d; e; f; g; h; i] => Some (M3 (V3 a b c) (V3 d e f) (V3 g h i))
  | _ => None
  end.

Definition flatten33 (m : mat3) : list R :=
  [vx (row0 m); vy (row0 m); vz (row0 m);
   vx (row1 m); vy (row1 m); vz (row1 m);
   vx (row2 m); vy (row2 m); vz (row2 m)].

End Vec.

(** ** [Box.output]: the derived geometry *)

Module Geometry.
Import Num Vec.
Export Store.
Local Open Scope R_scope.

(** The parameters as [Box.output] reads them out of the dictionary. *)
Record canon : Type := Canon {
  x0 : R; y0 : R; z0 : R;
  lx : R; ly : R; lz : R;
  alpha : R; beta : R; gamma : R;
  allow_tilt : bool;
  bx : value; by_ : value; bz : value }.

(** The mapping [Box.output] returns; [i_] fields are the copies of the
    input parameters. *)
Record derived : Type := Derived {
  i_x0 : R; i_y0 : R; i_z0 : R;
  i_lx : R; i_ly : R; i_lz : R;
  i_alpha : R; i_beta : R; i_gamma : R;
  o_allow_tilt : bool;
  i_bx : value; i_by : value; i_bz : value;
  o_xlo : R; o_xhi : R; o_ylo : R; o_yhi : R; o_zlo : R; o_zhi : R;
  o_cos_alpha : R; o_cos_beta : R; o_cos_gamma : R;
  o_a : R; o_b : R; o_c : R;
  o_xy : R; o_xz : R; o_yz : R;
  o_v : mat3; o_u : mat3; o_u_inv : mat3; o_bn : mat3 }.

(** A float, or a bool read as 0 or 1, in arithmetic; a str or a dict
    there is a [TypeError]. *)
Definition as_num (v : value) : option R :=
  match v with
  | VNum r => Some r
  | VBool b => Some (if b then 1 else 0)
  | VStr _ => None
  | VDict _ => None
  end.

(** The left operand of [|=]: a float, a str or a dict there is a
    [TypeError]. *)
Definition as_flag (v : value) : option bool :=
  match v with
  | VBool b => Some b
  | _ => None
  end.

Definition typed (d : gmap string value) : option canon :=
  x0 ← d !! "x0" ≫= as_num; y0 ← d !! "y0" ≫= as_num; z0 ← d !! "z0" ≫= as_num;
  lx ← d !! "lx" ≫= as_num; ly ← d !! "ly" ≫= as_num; lz ← d !! "lz" ≫= as_num;
  al ← d !! "alpha" ≫= as_num; be ← d !! "beta" ≫= as_num;
  ga ← d !! "gamma" ≫= as_num;
  t ← d !! "allow_tilt" ≫= as_flag;
  bx ← d !! "bx"; by_ ← d !! "by"; bz ← d !! "bz";
  Some (Canon x0 y0 z0 lx ly lz al be ga t bx by_ bz).

Definition to_dict (c : canon) : gmap string value :=
  list_to_map
    [("x0", VNum (x0 c)); ("y0", VNum (y0 c)); ("z0", VNum (z0 c));
     ("lx", VNum (lx c)); ("ly", VNum (ly c)); ("lz", VNum (lz c));
     ("alpha", VNum (alpha c)); ("beta", VNum (beta c));
     ("gamma", VNum (gamma c));
     ("allow_tilt", VBool (allow_tilt c));
     ("bx", bx c); ("by", by_ c); ("bz", bz c)].

(** What a write of a float under a numeric key does to the parameters
    read. *)
Definition set_num (key : string) (r : R) (c : canon) : canon :=
  let 'Canon x0 y0 z0 lx ly lz al be ga t bx by_ bz := c in
  if String.eqb key "x0" then Canon r y0 z0 lx ly lz al be ga t bx by_ bz
  else if String.eqb key "y0" then Canon x0 r z0 lx ly lz al be ga t bx by_ bz
  else if String.eqb key "z0" then Canon x0 y0 r lx ly lz al be ga t bx by_ bz
  else if String.eqb key "lx" then Canon x0 y0 z0 r ly lz al be ga t bx by_ bz
  else if String.eqb key "ly" then Canon x0 y0 z0 lx r lz al be ga t bx by_ bz
  else if String.eqb key "lz" then Canon x0 y0 z0 lx ly r al be ga t bx by_ bz
  else if String.eqb key "alpha" then Canon x0 y0 z0 lx ly lz r be ga t bx by_ bz
  else if String.eqb key "beta" then Canon x0 y0 z0 lx ly lz al r ga t bx by_ bz
  else if String.eqb key "gamma" then Canon x0 y0 z0 lx ly lz al be r t bx by_ bz
  else c.

Definition set_flag (b : bool) (c : canon) : canon :=
  let 'Canon x0 y0 z0 lx ly lz al be ga _ bx by_ bz := c in
  Canon x0 y0 z0 lx ly lz al be ga b bx by_ bz.

Definition numeric_keys : list string :=
  ["x0"; "y0"; "z0"; "lx"; "ly"; "lz"; "alpha"; "beta"; "gamma"].

(** [any([_[s] != 90 for s in abg])] *)
Definition any_ne90 (c : canon) : bool :=
  negb (Reqb (alpha c) 90) || negb (Reqb (beta c) 90) || negb (Reqb (gamma c) 90).

(** The mapping before the final rounding loop. *)
Definition derive (s : canon) : derived :=
  let ca := cos (alpha s * deg2rad) in
  let cb := cos (beta s * deg2rad) in
  let cg := cos (gamma s * deg2rad) in
  let b := ly s / sqrt (1 - cg ^ 2) in
  let c := lz s / sqrt (1 - cb ^ 2 - (ca - cg * cb) ^ 2 / (1 - cg ^ 2)) in
  let xy := b * cg in
  let xz := c * cb in
  let yz := (b * c * ca - xy * xz) / ly s in
  let v := M3 (V3 (lx s) 0 0) (V3 xy (ly s) 0) (V3 xz yz (lz s)) in
  let u := mnormalize v in
  {| i_x0 := x0 s; i_y0 := y0 s; i_z0 := z0 s;
     i_lx := lx s; i_ly := ly s; i_lz := lz s;
     i_alpha := alpha s; i_beta := beta s; i_gamma := gamma s;
     o_allow_tilt := allow_tilt s || any_ne90 s;
     i_bx := bx s; i_by := by_ s; i_bz := bz s;
     o_xlo := x0 s; o_xhi := x0 s + lx s;
     o_ylo := y0 s; o_yhi := y0 s + ly s;
     o_zlo := z0 s; o_zhi := z0 s + lz s;
     o_cos_alpha := ca; o_cos_beta := cb; o_cos_gamma := cg;
     o_a := lx s; o_b := b; o_c := c;
     o_xy := xy; o_xz := xz; o_yz := yz;
     o_v := v; o_u := u; o_u_inv := minv u;
     o_bn := M3 (cross (row1 u) (row2 u)) (cross (row2 u) (row0 u))
                (cross (row0 u) (row1 u)) |}.

(** *** Closed forms for a cell whose only tilt is between a and b

    [cg] and [sg] stand for the cosine and the sine of [gamma]. *)

Definition mono_v (s : canon) (cg sg : R) : mat3 :=
  M3 (V3 (lx s) 0 0) (V3 (ly s / sg * cg) (ly s) 0) (V3 0 0 (lz s)).

Definition mono_u (cg sg : R) : mat3 := M3 (V3 1 0 0) (V3 cg sg 0) (V3 0 0 1).

Definition mono_bn (cg sg : R) : mat3 :=
  M3 (V3 sg (- cg) 0) (V3 0 1 0) (V3 0 0 1).

(** *** Some cells *)

(** The parameters of [Box()]. *)
Definition unit_box : canon :=
  Canon 0 0 0 1 1 1 90 90 90 false (VStr "pp") (VStr "pp") (VStr "pp").

(** An orthogonal cell with its low corner at [(x, y, z)]. *)
Definition ortho_box (x y z a b c : R) : canon :=
  Canon x y z a b c 90 90 90 false (VStr "pp") (VStr "pp") (VStr "pp").

(** The unit hexagonal cell as [Box({'gamma': 60.0})] stores it: the flag
    is still false. *)
Definition hex_box : canon :=
  Canon 0 0 0 1 1 1 90 90 60 false (VStr "pp") (VStr "pp") (VStr "pp").

(** The cell [Box().set_input('1 0 0  0.6 0.8 0  0 0 1', 'basis')]: edges
    1, 1, 1 with cos(gamma) = 3/5. *)
Definition tilt_box : canon :=
  Canon 0 0 0 1 (4 / 5) 1 90 90 (acos (3 / 5) * rad2deg) true
    (VStr "pp") (VStr "pp") (VStr "pp").

(** The unit cube with its low corner at (5, 0, 0). *)
Definition box5 : canon := ortho_box 5 0 0 1 1 1.

(** The periodic cube of edge 10 with its low corner at the origin. *)
Definition box10 : canon := ortho_box 0 0 0 10 10 10.

(** [np.round(_[s], p)] on one entry: a float is rounded, on a bool, a
    str or a dict numpy raises and the loop goes on to the next key. *)
Definition round_value (v : value) : value :=
  match v with
  | VNum r => VNum (round9 r)
  | _ => v
  end.

Definition round_mat : mat3 -> mat3 := mmap (vmap round9).

(** The loop "get rid of small zero". *)
Definition round_all (d : derived) : derived :=
  {| i_x0 := round9 (i_x0 d); i_y0 := round9 (i_y0 d); i_z0 := round9 (i_z0 d);
     i_lx := round9 (i_lx d); i_ly := round9 (i_ly d); i_lz := round9 (i_lz d);
     i_alpha := round9 (i_alpha d); i_beta := round9 (i_beta d);
     i_gamma := round9 (i_gamma d);
     o_allow_tilt := o_allow_tilt d;
     i_bx := round_value (i_bx d); i_by := round_value (i_by d);
     i_bz := round_value (i_bz d);
     o_xlo := round9 (o_xlo d); o_xhi := round9 (o_xhi d);
     o_ylo := round9 (o_ylo d); o_yhi := round9 (o_yhi d);
     o_zlo := round9 (o_zlo d); o_zhi := round9 (o_zhi d);
     o_cos_alpha := round9 (o_cos_alpha d); o_cos_beta := round9 (o_cos_beta d);
     o_cos_gamma := round9 (o_cos_gamma d);
     o_a := round9 (o_a d); o_b := round9 (o_b d); o_c := round9 (o_c d);
     o_xy := round9 (o_xy d); o_xz := round9 (o_xz d); o_yz := round9 (o_yz d);
     o_v := round_mat (o_v d); o_u := round_mat (o_u d);
     o_u_inv := round_mat (o_u_inv d); o_bn := round_mat (o_bn d) |}.

(** The body of [Box.output] on the parameters read: [np.linalg.inv]
    raises [LinAlgError] on a singular [u]. *)
Definition output_of (s : canon) : error + derived :=
  let d := derive s in
  if Reqb (det (o_u d)) 0 then inl LinAlgError else inr (round_all d).

(** [Box.output] *)
Definition output : M derived :=
  d ← get_dict;
  match typed d with
  | None => raise TypeError
  | Some s =>
      match output_of s with
      | inl e => raise e
      | inr o => mret o
      end
  end.

End Geometry.

(** ** The input conversions, the type guesser and [set_input] *)

Module Convert.
Import Num Vec.
Export Geometry.
Local Open Scope R_scope.

Definition liftE {A} (r : error + A) : M A :=
  match r with
  | inl e => raise e
  | inr x => mret x
  end.

(** [np.arccos(np.dot(p, q)) * rad2deg] *)
Definition basis_angle (p q : vec3) : R := acos (dot p q) * rad2deg.

(** [_input_basis] on a 3x3 array *)
Definition input_basis_mat (v : mat3) : list (string * value) :=
  let u := mnormalize v in
  [("lx", VNum (vx (row0 v)));
   ("ly", VNum (vy (row1 v)));
   ("lz", VNum (vz (row2 v)));
   ("alpha", VNum (basis_angle (row1 u) (row2 u)));
   ("beta", VNum (basis_angle (row0 u) (row2 u)));
   ("gamma", VNum (basis_angle (row0 u) (row1 u)))].

(** The parameters read after [update(_input_basis(v))]. *)
Definition basis_params (v : mat3) (c : canon) : canon :=
  let u := mnormalize v in
  Canon (x0 c) (y0 c) (z0 c)
    (vx (row0 v)) (vy (row1 v)) (vz (row2 v))
    (basis_angle (row1 u) (row2 u)) (basis_angle (row0 u) (row2 u))
    (basis_angle (row0 u) (row1 u))
    (allow_tilt c) (bx c) (by_ c) (bz c).

(** The six bindings the conversions return, and the parameters read
    after a bulk update with them. *)
Definition geom_update (l1 l2 l3 a1 a2 a3 : R) : list (string * value) :=
  [("lx", VNum l1); ("ly", VNum l2); ("lz", VNum l3);
   ("alpha", VNum a1); ("beta", VNum a2); ("gamma", VNum a3)].

Definition geom_params (l1 l2 l3 a1 a2 a3 : R) (c : canon) : canon :=
  Canon (x0 c) (y0 c) (z0 c) l1 l2 l3 a1 a2 a3
    (allow_tilt c) (bx c) (by_ c) (bz c).

(** The parameters read after the last lines of [set_input]: "always allow
    tilt if not orthogonal". *)
Definition force_tilt (c : canon) : canon :=
  if any_ne90 c then set_flag true c else c.

(** [_input_basis]: [reshape(3, 3)] raises on anything but nine numbers. *)
Definition _input_basis (v : list R) : error + list (string * value) :=
  match reshape33 v with
  | None => inl ValueError
  | Some m => inr (input_basis_mat m)
  end.

(** [_input_lmpdata]: xlo, xhi, ylo, yhi, zlo, zhi, xy, xz, yz *)
Definition _input_lmpdata (v : list R) : error + list (string * value) :=
  match v with
  | [xlo; xhi; ylo; yhi; zlo; zhi; xy; xz; yz] =>
      inr ([("x0", VNum xlo); ("y0", VNum ylo); ("z0", VNum zlo)]
           ++ input_basis_mat
                (M3 (V3 (xhi - xlo) 0 0) (V3 xy (yhi - ylo) 0)
                    (V3 xz yz (zhi - zlo))))
  | _ => inl ValueError
  end.

(** [np.take(v, ix)] *)
Definition take (v : list R) (ix : list nat) : error + list R :=
  match mapM (λ i, v !! i) ix with
  | Some l => inr l
  | None => inl IndexError
  end.

(** [_input_lmpdump]: xlo, xhi, xy, ylo, yhi, xz, zlo, zhi, yz *)
Definition _input_lmpdump (v : list R) : error + list (string * value) :=
  match take v [0; 1; 3; 4; 6; 7; 2; 5; 8]%nat with
  | inl e => inl e
  | inr w => _input_lmpdata w
  end.

(** [_input_dcd]: a, cos_gamma, b, cos_beta, cos_alpha, c *)
Definition _input_dcd (v : list R) : error + list (string * value) :=
  match v with
  | [a; cg; b; cb; ca; c] =>
      let ly := b * sqrt (1 - cg ^ 2) in
      let lz := c * sqrt (1 - cb ^ 2 - (ca - cg * cb) ^ 2 / (1 - cg ^ 2)) in
      inr [("lx", VNum a); ("ly", VNum ly); ("lz", VNum lz);
           ("alpha", VNum (acos ca * rad2deg));
           ("beta", VNum (acos cb * rad2deg));
           ("gamma", VNum (acos cg * rad2deg))]
  | _ => inl ValueError
  end.

(** [_input_lattice]: a, b, c, alpha, beta, gamma *)
Definition _input_lattice (v : list R) : error + list (string * value) :=
  match v with
  | [a; b; c; alpha; beta; gamma] =>
      let ca := cos (alpha * deg2rad) in
      let cb := cos (beta * deg2rad) in
      let cg := cos (gamma * deg2rad) in
      _input_dcd [a; cg; b; cb; ca; c]
  | _ => inl ValueError
  end.

(** [_format_input] on an array that is already numeric. *)
Definition _format_input (argv : list R) : error + list R :=
  if (length argv =? 1)%nat then inl UnsupportedFormat else inr argv.

(** [_guess_type] *)
Definition _guess_type (argv : option (list R)) : error + string :=
  match argv with
  | None => inl MissingParameters
  | Some l =>
      if (length l =? 9)%nat then
        match l with
        | a0 :: a1 :: a2 :: a3 :: a4 :: a5 :: a6 :: a7 :: _ =>
            if Rltb a0 a1 && Rltb a2 a3 && Rltb a4 a5 then inr "lmpdata"
            else if Rltb a0 a1 && Rltb a3 a4 && Rltb a6 a7 then inr "lmpdump"
            else inr "basis"
        | _ => inl IndexError
        end
      else if (length l =? 6)%nat then
        match l with
        | _ :: a1 :: _ :: a3 :: a4 :: _ =>
            if Rleb a1 1 && Rleb a3 1 && Rleb a4 1 then inr "dcd"
            else inr "lattice"
        | _ => inl IndexError
        end
      else inl InvalidParameters
  end.

(** *** Vocabulary for the properties of [_guess_type] *)

(** [argv[i]] *)
Definition at_ (l : list R) (i : nat) : R := nth i l 0.

Definition looks_lmpdata (l : list R) : Prop :=
  at_ l 0 < at_ l 1 ∧ at_ l 2 < at_ l 3 ∧ at_ l 4 < at_ l 5.

Definition looks_lmpdump (l : list R) : Prop :=
  at_ l 0 < at_ l 1 ∧ at_ l 3 < at_ l 4 ∧ at_ l 6 < at_ l 7.

Definition looks_dcd (l : list R) : Prop :=
  at_ l 1 <= 1 ∧ at_ l 3 <= 1 ∧ at_ l 4 <= 1.

(** [self.alias.get(typ, typ)] *)
Definition alias : gmap string string :=
  list_to_map [("vmd", "lattice"); ("poscar", "basis"); ("vasp", "basis")].

Definition alias_get (typ : option string) : option string :=
  match typ with
  | None => None
  | Some t => Some (default t (alias !! t))
  end.

(** [getattr(self, f'_input_{typ}')] *)
Definition input_func (typ : string)
    : option (list R → error + list (string * value)) :=
  if String.eqb typ "basis" then Some _input_basis
  else if String.eqb typ "lmpdata" then Some _input_lmpdata
  else if String.eqb typ "lmpdump" then Some _input_lmpdump
  else if String.eqb typ "dcd" then Some _input_dcd
  else if String.eqb typ "lattice" then Some _input_lattice
  else None.

(** [set_input] *)
Definition set_input (argv : list R) (typ : option string) : M string :=
  data ← liftE (_format_input argv);
  typ ← match alias_get typ with
        | None => liftE (_guess_type (Some data))
        | Some t => mret t
        end;
  match input_func typ with
  | None => raise AttributeError
  | Some func =>
      upd ← liftE (func data);
      update upd;;
      al ← getitem "alpha";
      be ← getitem "beta";
      ga ← getitem "gamma";
      (if ne90 al || ne90 be || ne90 ga
       then setitem "allow_tilt" (VBool true) else mret tt);;
      mret typ
  end.

(** *** The round trip of the spec's testable properties

    A fresh or used box ingests the lattice parameters, its basis matrix
    [output['v']] is read back and ingested as a basis, and the lattice
    parameters are read from [output]. *)
Definition lattice_round_trip (abc : list R) : M (list R) :=
  set_input abc (Some "lattice");;
  o ← output;
  set_input (flatten33 (o_v o)) (Some "basis");;
  o' ← output;
  mret [o_a o'; o_b o'; o_c o'; i_alpha o'; i_beta o'; i_gamma o'].

(** The squared height of the cell over its a-b face, for unit edges. *)
Definition lattice_K (ca cb cg : R) : R :=
  1 - cb ^ 2 - (ca - cg * cb) ^ 2 / (1 - cg ^ 2).

(** Lattice parameters of a cell with positive volume, angles in degrees. *)
Definition valid_lattice (a b c al be ga : R) : Prop :=
  0 < a ∧ 0 < b ∧ 0 < c
  ∧ 0 < al < 180 ∧ 0 < be < 180 ∧ 0 < ga < 180
  ∧ 0 < lattice_K (cos (al * deg2rad)) (cos (be * deg2rad)) (cos (ga * deg2rad)).

(** The basis matrix of such a cell. *)
Definition lattice_basis (a b c al be ga : R) : mat3 :=
  let ca := cos (al * deg2rad) in
  let cb := cos (be * deg2rad) in
  let cg := cos (ga * deg2rad) in
  let sg := sqrt (1 - cg ^ 2) in
  M3 (V3 a 0 0)
     (V3 (b * cg) (b * sg) 0)
     (V3 (c * cb) (c * (ca - cg * cb) / sg) (c * sqrt (lattice_K ca cb cg))).

(** The angle between two rows of a basis matrix, in radians and in
    degrees, as [_input_basis] computes it. *)
Definition angle_between (p q : vec3) : R :=
  acos (dot (normalize p) (normalize q)).

Definition row_angle (p q : vec3) : R := basis_angle (normalize p) (normalize q).

(** The lattice parameters of a lower-triangular basis matrix: the length
    [_input_basis] reads at [0,0], the norms of the second and third rows,
    and the angles alpha (rows b, c), beta (rows a, c), gamma (rows a, b). *)
Definition lattice_of_basis (V : mat3) : list R :=
  [vx (row0 V); norm (row1 V); norm (row2 V);
   row_angle (row1 V) (row2 V); row_angle (row0 V) (row2 V);
   row_angle (row0 V) (row1 V)].

(** How far, in degrees, the round trip can move the angle between two
    edges of lengths [p] and [q]: half a unit of the ninth decimal for the
    last rounding, and 1.2e-7 over each length for the rounding of the
    basis. *)
Definition angle_tolerance (p q : R) : R :=
  5 / 10 ^ 10 + 12 / 10 ^ 8 * (1 / p + 1 / q).

(** The tolerance of the round trip. *)
Definition close (x y : R) : Prop := Rabs (x - y) <= 1 / 10 ^ 9.

(** The round trip returns, with six values close to the ones given. *)
Definition round_trip_ok (abc : list R) (σ : state) : Prop :=
  ∃ r σ', lattice_round_trip abc σ = (inr r, σ') ∧ Forall2 close r abc.

End Convert.

(** ** The spatial queries: [bbcheck], [extend], [wrap], [ghost] *)

Module Spatial.
Import Num Vec.
Export Convert.
Local Open Scope R_scope.

(** The [pbc] argument: one flag or a list of flags. *)
Inductive pbc_arg : Type :=
| PFlag (b : bool)
| PList (l : list bool).

(** [flatten(pbc)], which is also [flatten([pbc])] on these arguments. *)
Definition flatten (p : pbc_arg) : list bool :=
  match p with
  | PFlag b => [b]
  | PList l => l
  end.

(** [(flatten(pbc) * 3)[:3]]; the callers index it up to 2 or broadcast
    it against three columns, which fails on a shorter list. *)
Definition pbc3 (p : pbc_arg) : error + (bool * bool * bool) :=
  let l := flatten p in
  match firstn 3 (l ++ l ++ l) with
  | [pa; pb; pc] => inr (pa, pb, pc)
  | _ => inl IndexError
  end.

(** [np.array(pbc).astype(int)] *)
Definition as_int (b : bool) : R := if b then 1 else 0.

Definition periodic_mask (m : bool * bool * bool) : vec3 :=
  let '(pa, pb, pc) := m in V3 (as_int pa) (as_int pb) (as_int pc).

(** [(~np.array(pbc)).astype(int)] *)
Definition free_mask (m : bool * bool * bool) : vec3 :=
  let '(pa, pb, pc) := m in V3 (as_int (negb pa)) (as_int (negb pb)) (as_int (negb pc)).

(** [np.min] of a row *)
Definition row_min (l : list R) : R :=
  match l with
  | [] => 0
  | x :: xs => fold_left Rmin xs x
  end.

(** The result of [bbcheck]. *)
Record bbresult : Type := BB {
  inbound : list bool;
  outbound : list bool;
  dist : list (list R) }.

Definition box_lo (o : derived) : vec3 := V3 (o_xlo o) (o_ylo o) (o_zlo o).

(** One row of [dist]: the distances to the faces xlo, ylo, zlo, xhi,
    yhi, zhi. *)
Definition face_dist (o : derived) (p : vec3) : list R :=
  let lo := vsub (box_lo o) p in
  let hi := vadd lo (msum_rows (o_v o)) in
  let bn := o_bn o in
  [dot (vneg (row0 bn)) lo; dot (vneg (row1 bn)) lo; dot (vneg (row2 bn)) lo;
   dot (row0 bn) hi; dot (row1 bn) hi; dot (row2 bn) hi].

Definition bbcheck_of (o : derived) (pts : list vec3) : bbresult :=
  let dist := map (face_dist o) pts in
  let inside := map (λ d, Rleb 0 (row_min d)) dist in
  BB inside (map negb inside) dist.

(** *** Vocabulary for the properties of [bbcheck] *)

(** The signed distance of [p] from the plane through [q] with the unit
    normal [n]: positive on the side [n] points to, 0 on the plane. *)
Definition plane_dist (n q p : vec3) : R := dot n (vsub p q).

(** The corner opposite to the low corner: the low corner moved by the
    three edge vectors. *)
Definition box_hi (o : derived) : vec3 := vadd (box_lo o) (msum_rows (o_v o)).

(** The six signed distances of [p] from the faces of the cell: the three
    faces through the low corner, with the face normals [bn] pointing into
    the cell, then the three faces through the opposite corner, with the
    normals reversed. *)
Definition six_face_distances (o : derived) (p : vec3) : list R :=
  let bn := o_bn o in
  [plane_dist (row0 bn) (box_lo o) p;
   plane_dist (row1 bn) (box_lo o) p;
   plane_dist (row2 bn) (box_lo o) p;
   plane_dist (vneg (row0 bn)) (box_hi o) p;
   plane_dist (vneg (row1 bn)) (box_hi o) p;
   plane_dist (vneg (row2 bn)) (box_hi o) p].

(** A point between the low corner [lo] and [lo + len], coordinate by
    coordinate, both ends included. *)
Definition in_brick (lo len p : vec3) : Prop :=
  vx lo <= vx p <= vx lo + vx len
  ∧ vy lo <= vy p <= vy lo + vy len
  ∧ vz lo <= vz p <= vz lo + vz len.

(** [np.sum(mask)] *)
Definition count_true (l : list bool) : nat := length (List.filter (λ b : bool, b) l).

(** [np.where(mask)[0]] *)
Definition where_true (l : list bool) : list nat :=
  map fst (List.filter snd (combine (seq 0 (length l)) l)).

(** [bbcheck] *)
Definition bbcheck (pts : list vec3) : M bbresult :=
  o ← output;
  let r := bbcheck_of o pts in
  let N := (length pts - count_true (inbound r))%nat in
  (if (0 <? N)%nat then logger (PointsOutside N (where_true (outbound r)))
   else mret tt);;
  mret r.

(** [pts[mask]] *)
Definition select (pts : list vec3) (mask : list bool) : list vec3 :=
  map fst (List.filter snd (combine pts mask)).

(** [np.max(rows, axis=0)], which raises on no row at all. *)
Definition col_max (rows : list vec3) : error + vec3 :=
  match rows with
  | [] => inl ValueError
  | r :: rs => inr (fold_left vmax rs r)
  end.

Definition eps : R := 1 / 10 ^ 7.

Definition use_bbcheck (pts : list vec3) (given : option bbresult) : M bbresult :=
  match given with
  | None => bbcheck pts
  | Some r => mret r
  end.

(** The variables [lo1], [shift], [d_abc] and [v] of [extend]. *)
Definition extend_lo1 (box : derived) (outs : list vec3)
    (m : bool * bool * bool) : vec3 :=
  vmul (fold_right vmin (box_lo box) (map (λ p, vmap (λ x, x - eps) p) outs))
       (free_mask m).

Definition extend_shift (box : derived) (lo1 : vec3) : vec3 :=
  mdot (o_u box) (vsub lo1 (box_lo box)).

Definition extend_d_abc (box : derived) (outs : list vec3) : list vec3 :=
  map (λ p, mdot (o_u box) (vsub p (box_lo box))) outs.

Definition extend_v (box : derived) (lo1 top : vec3)
    (m : bool * bool * bool) : mat3 :=
  let len :=
    vsub (vmax (vmul (vmap (λ x, x + eps) top) (free_mask m))
               (mnorms (o_v box)))
         (extend_shift box lo1) in
  M3 (vscale (vx len) (row0 (o_u box)))
     (vscale (vy len) (row1 (o_u box)))
     (vscale (vz len) (row2 (o_u box))).

(** The parameters read after [self['x0'], self['y0'], self['z0'] = lo1]. *)
Definition set_lo (lo1 : vec3) (c : canon) : canon :=
  Canon (vx lo1) (vy lo1) (vz lo1) (lx c) (ly c) (lz c)
    (alpha c) (beta c) (gamma c) (allow_tilt c) (bx c) (by_ c) (bz c).

(** [extend] *)
Definition extend (pts : list vec3) (given : option bbresult) (pbc : pbc_arg)
    : M unit :=
  box ← output;
  bb ← use_bbcheck pts given;
  if (count_true (inbound bb) =? length pts)%nat then mret tt
  else
    m ← liftE (pbc3 pbc);
    let outs := select pts (outbound bb) in
    (* edit the lo end *)
    let lo1 := extend_lo1 box outs m in
    setitem "x0" (VNum (vx lo1));;
    setitem "y0" (VNum (vy lo1));;
    setitem "z0" (VNum (vz lo1));;
    (* edit the hi end *)
    top ← liftE (col_max (extend_d_abc box outs));
    update (input_basis_mat (extend_v box lo1 top m)).

(** The parameters [extend] leaves behind when [tilt_box] is extended to
    the point (-1, 1/2, 1/2) with no axis periodic. *)
Definition tilt_box_extended : canon :=
  Canon (-1 - eps) 0 0
    (2 + eps) ((8 / 5 + 3 / 5 * eps) * (4 / 5)) 1
    90 90 (acos (3 / 5) * rad2deg) true (VStr "pp") (VStr "pp") (VStr "pp").

(** [np.floor_divide] *)
Definition floor_divide (x y : R) : R := IZR (Zfloor (x / y)).

(** One row of [rep] in [wrap]. *)
Definition wrap_rep (o : derived) (m : bool * bool * bool) (d : list R) : list R :=
  let n := mnorms (o_v o) in
  let pm := periodic_mask m in
  let tile_n := [vx n; vy n; vz n; vx n; vy n; vz n] in
  let tile_p := [vx pm; vy pm; vz pm; vx pm; vy pm; vz pm] in
  map (λ t : R * R * R,
         let '(x, l, q) := t in
         if Rleb 0 x then 0 else Rabs (floor_divide x l * q))
      (combine (combine d tile_n) tile_p).

(** The shift of one point: the rows of [np.r_[v, -v]] weighted by [rep]. *)
Definition wrap_shift (o : derived) (rep : list R) : vec3 :=
  let v := o_v o in
  fold_left vadd
    (map (λ t : R * vec3, vscale t.1 t.2)
       (combine rep [row0 v; row1 v; row2 v;
                     vneg (row0 v); vneg (row1 v); vneg (row2 v)]))
    vzero.

(** [wrap] *)
Definition wrap (pts : list vec3) (given : option bbresult) (pbc : pbc_arg)
    : M (list vec3) :=
  box ← output;
  bb ← use_bbcheck pts given;
  if (count_true (inbound bb) =? length pts)%nat then mret pts
  else
    m ← liftE (pbc3 pbc);
    mret (map (λ t : vec3 * list R, vadd t.1 (wrap_shift box (wrap_rep box m t.2)))
            (combine pts (dist bb))).

(** *** [ghost], a generator *)

(** What the generator body has computed when it first yields. *)
Record ghost_env : Type := GhostEnv {
  g_ref : list vec3;
  g_side : list R;
  g_L : vec3;
  g_u : mat3 }.

(** The generator object: not started, suspended after its first yield
    and [k] more, or exhausted. *)
Inductive ghost_gen : Type :=
| GStart (pts : list vec3) (pbc : pbc_arg)
| GYielded (env : ghost_env) (k : nat)
| GDone.

(** [argmin([d_minus, d_plus]) * 2 - 1] for one point *)
Definition side_of (shift p : vec3) : R :=
  let d_minus := sumsq (vsub p shift) in
  let d_plus := sumsq (vadd p shift) in
  if Rleb d_minus d_plus then -1 else 1.

(** [ref + np.outer(side, shift)] *)
Definition shifted (env : ghost_env) (shift : vec3) : list vec3 :=
  map (λ t : vec3 * R, vadd t.1 (vscale t.2 shift))
      (combine (g_ref env) (g_side env)).

(** [L[i] * box['u'][i]] *)
Definition axis_shift (env : ghost_env) (i : nat) : vec3 :=
  match i with
  | 0%nat => vscale (vx (g_L env)) (row0 (g_u env))
  | 1%nat => vscale (vy (g_L env)) (row1 (g_u env))
  | _ => vscale (vz (g_L env)) (row2 (g_u env))
  end.

(** Running the body up to its first [yield]. *)
Definition ghost_start (pts : list vec3) (pbc : pbc_arg)
    : M (list vec3 * ghost_env) :=
  box ← output;
  m ← liftE (pbc3 pbc);
  let L := vmul (V3 (o_a box) (o_b box) (o_c box)) (periodic_mask m) in
  let env0 := GhostEnv pts [] L (o_u box) in
  let shift :=
    vadd (vadd (axis_shift env0 0) (axis_shift env0 1)) (axis_shift env0 2) in
  let env := GhostEnv pts (map (side_of shift) pts) L (o_u box) in
  mret (shifted env shift, env).

(** [next(g)]: the value yielded, if any, and the generator afterwards.
    Yields 1 to 3 come from the loop over [(0, 1, 2)], yields 4 to 6 from the
    loop over [zip((0, 1, 2), (1, 2, 0))]. *)
Definition ghost_next (g : ghost_gen) : M (option (list vec3) * ghost_gen) :=
  match g with
  | GStart pts pbc =>
      r ← ghost_start pts pbc;
      mret (Some r.1, GYielded r.2 0)
  | GYielded env k =>
      if (k <? 3)%nat then
        mret (Some (shifted env (axis_shift env k)), GYielded env (S k))
      else if (k <? 6)%nat then
        let i := (k - 3)%nat in
        let j := ((i + 1) mod 3)%nat in
        mret (Some (shifted env (vadd (axis_shift env i) (axis_shift env j))),
              GYielded env (S k))
      else mret (None, GDone)
  | GDone => mret (None, GDone)
  end.

(** [list(g)], with a bound on the number of [next] calls; [None] when the
    bound is reached before the generator is exhausted. *)
Fixpoint ghost_collect (fuel : nat) (g : ghost_gen) : M (option (list (list vec3))) :=
  match fuel with
  | O => mret None
  | S fuel' =>
      r ← ghost_next g;
      match r.1 with
      | None => mret (Some [])
      | Some x =>
          rest ← ghost_collect fuel' r.2;
          mret (cons x <$> rest)
      end
  end.

(** *** Vocabulary for the properties of [ghost] *)

(** A copy of the points, each moved by its own sign times [shift]. *)
Definition translate (sign : vec3 → R) (shift : vec3) (pts : list vec3)
    : list vec3 :=
  map (λ p, vadd p (vscale (sign p) shift)) pts.

(** The three edge vectors [a * u[0]], [b * u[1]], [c * u[2]]. *)
Definition edge_a (o : derived) : vec3 := vscale (o_a o) (row0 (o_u o)).
Definition edge_b (o : derived) : vec3 := vscale (o_b o) (row1 (o_u o)).
Definition edge_c (o : derived) : vec3 := vscale (o_c o) (row2 (o_u o)).

(** [Box.ghost(pts, pbc)] only builds the generator. *)
Definition ghost (pts : list vec3) (pbc : pbc_arg) : ghost_gen := GStart pts pbc.

End Spatial.


(** * Properties *)

(** ** Facts about comparisons and rounding *)

Module NumFacts.
Import Num.
Local Open Scope R_scope.

Lemma Rltb_true x y : x < y -> Rltb x y = true.
Proof. intros H. unfold Rltb. destruct (Rlt_dec x y); [reflexivity | contradiction]. Qed.

Lemma Rltb_false x y : y <= x -> Rltb x y = false.
Proof. intros H. unfold Rltb. destruct (Rlt_dec x y); [lra | reflexivity]. Qed.

Lemma Rltb_spec x y : Rltb x y = true <-> x < y.
Proof.
  unfold Rltb. destruct (Rlt_dec x y); split; intros;
    try assumption; try reflexivity; try discriminate; contradiction.
Qed.

Lemma Rleb_true x y : x <= y -> Rleb x y = true.
Proof. intros H. unfold Rleb. destruct (Rle_dec x y); [reflexivity | contradiction]. Qed.

Lemma Rleb_false x y : y < x -> Rleb x y = false.
Proof. intros H. unfold Rleb. destruct (Rle_dec x y); [lra | reflexivity]. Qed.

Lemma Rleb_spec x y : Rleb x y = true <-> x <= y.
Proof.
  unfold Rleb. destruct (Rle_dec x y); split; intros;
    try assumption; try reflexivity; try discriminate; contradiction.
Qed.

Lemma Reqb_true x y : x = y -> Reqb x y = true.
Proof. intros H. unfold Reqb. destruct (Req_dec_T x y); [reflexivity | contradiction]. Qed.

Lemma Reqb_false x y : x <> y -> Reqb x y = false.
Proof. intros H. unfold Reqb. destruct (Req_dec_T x y); [contradiction | reflexivity]. Qed.

Lemma Reqb_spec x y : Reqb x y = true <-> x = y.
Proof.
  unfold Reqb. destruct (Req_dec_T x y); split; intros;
    try assumption; try reflexivity; try discriminate; contradiction.
Qed.

Lemma Zfloor_IZR z : Zfloor (IZR z) = z.
Proof. apply Zfloor_eq. lra. Qed.

(** An integer strictly within one half of [x] is the rounding of [x]. *)
Lemma rint_near z x : IZR z - 1 / 2 < x < IZR z + 1 / 2 -> rint x = z.
Proof.
  intros [Hlo Hhi]. unfold rint.
  destruct (Zfloor_bound x) as [Hf1 Hf2].
  destruct (Rlt_dec (x - IZR (Zfloor x)) (1 / 2)) as [Hl | Hl].
  - assert (Hz : (Zfloor x < z + 1)%Z).
    { apply lt_IZR. rewrite plus_IZR. lra. }
    assert (Hz' : (z - 1 < Zfloor x)%Z).
    { apply lt_IZR. rewrite minus_IZR. lra. }
    lia.
  - destruct (Rlt_dec (1 / 2) (x - IZR (Zfloor x))) as [Hg | Hg].
    + assert (Hz : (Zfloor x < z)%Z).
      { apply lt_IZR. lra. }
      assert (Hz' : (z - 2 < Zfloor x)%Z).
      { apply lt_IZR. rewrite minus_IZR. lra. }
      lia.
    + exfalso.
      assert (Hx : x = IZR (Zfloor x) + 1 / 2) by lra.
      assert (Hz : (Zfloor x < z)%Z).
      { apply lt_IZR. lra. }
      assert (Hz' : (z - 1 < Zfloor x)%Z).
      { apply lt_IZR. rewrite minus_IZR. lra. }
      lia.
Qed.

Lemma rint_IZR z : rint (IZR z) = z.
Proof. apply rint_near. lra. Qed.

(** The rounding moves a number by at most one half. *)
Lemma rint_err x : Rabs (IZR (rint x) - x) <= 1 / 2.
Proof.
  unfold rint. destruct (Zfloor_bound x) as [Hf1 Hf2].
  destruct (Rlt_dec (x - IZR (Zfloor x)) (1 / 2)) as [Hl | Hl].
  - apply Rabs_le. lra.
  - destruct (Rlt_dec (1 / 2) (x - IZR (Zfloor x))) as [Hg | Hg].
    + rewrite plus_IZR. apply Rabs_le. lra.
    + destruct (Z.even (Zfloor x)); [| rewrite plus_IZR]; apply Rabs_le; lra.
Qed.

Lemma pow10_pos p : 0 < 10 ^ p.
Proof. apply pow_lt. lra. Qed.

Lemma round_dec_decimal p z : round_dec p (IZR z / 10 ^ p) = IZR z / 10 ^ p.
Proof.
  unfold round_dec. pose proof (pow10_pos p) as Hp.
  replace (IZR z / 10 ^ p * 10 ^ p) with (IZR z) by (field; lra).
  now rewrite rint_IZR.
Qed.

Lemma round_dec_err p x : Rabs (round_dec p x - x) <= / 2 / 10 ^ p.
Proof.
  unfold round_dec. pose proof (pow10_pos p) as Hp.
  pose proof (rint_err (x * 10 ^ p)) as He.
  replace (IZR (rint (x * 10 ^ p)) / 10 ^ p - x)
    with ((IZR (rint (x * 10 ^ p)) - x * 10 ^ p) * / 10 ^ p) by (field; lra).
  rewrite Rabs_mult, (Rabs_pos_eq (/ 10 ^ p)).
  - unfold Rdiv. apply Rmult_le_compat_r; [| lra].
    left. now apply Rinv_0_lt_compat.
  - left. now apply Rinv_0_lt_compat.
Qed.

Lemma round_dec_idem p x : round_dec p (round_dec p x) = round_dec p x.
Proof. unfold round_dec at 2 3. apply round_dec_decimal. Qed.

Lemma round9_decimal z : round9 (IZR z / 10 ^ 9) = IZR z / 10 ^ 9.
Proof. apply round_dec_decimal. Qed.

Lemma round9_IZR z : round9 (IZR z) = IZR z.
Proof.
  assert (H : IZR (z * 10 ^ 9) / 10 ^ 9 = IZR z).
  { rewrite mult_IZR. replace (IZR (10 ^ 9)) with (10 ^ 9) by (simpl; lra).
    field. }
  rewrite <- H at 1. rewrite round9_decimal. exact H.
Qed.

Lemma round9_err x : Rabs (round9 x - x) <= 5 / 10 ^ 10.
Proof.
  pose proof (round_dec_err 9 x) as H. unfold round9.
  replace (5 / 10 ^ 10) with (/ 2 / 10 ^ 9) by (simpl; lra). exact H.
Qed.

Lemma round9_idem x : round9 (round9 x) = round9 x.
Proof. apply round_dec_idem. Qed.

(** A number with at most nine decimals is left alone. *)
Lemma round9_exact x z : x * 10 ^ 9 = IZR z → round9 x = x.
Proof.
  intros H. replace x with (IZR z / 10 ^ 9) by (rewrite <- H; field).
  apply round9_decimal.
Qed.

Lemma round9_frac p q :
  (0 < q)%Z → (10 ^ 9 mod q = 0)%Z → round9 (IZR p / IZR q) = IZR p / IZR q.
Proof.
  intros Hq Hm. apply (round9_exact _ (p * (10 ^ 9 / q))).
  assert (Hq' : IZR q <> 0) by (apply not_0_IZR; lia).
  assert (H10 : 10 ^ 9 = IZR (10 ^ 9)) by (simpl; lra).
  rewrite mult_IZR, H10.
  apply Z.div_exact in Hm; [| lia].
  rewrite Hm at 1. rewrite mult_IZR. field. exact Hq'.
Qed.

Lemma round9_0 : round9 0 = 0.
Proof. apply round9_IZR. Qed.

Lemma round9_opp x : round9 x = x → round9 (- x) = - x.
Proof.
  intros H. unfold round9, round_dec in H.
  apply (round9_exact _ (- rint (x * 10 ^ 9))).
  rewrite opp_IZR. rewrite <- H at 1. field.
Qed.

End NumFacts.

(** ** Facts about [BoxInputDict] *)

Module StoreFacts.
Import Num NumFacts Store.

#[local] Arguments setitem_rec : simpl never.

Ltac munfold :=
  repeat (progress (unfold mbind, M_bind, mret, M_ret, raise, get_dict,
                      put_dict, logger, getitem in *; simpl in *)).

Lemma in_abg_allow_tilt : in_abg "allow_tilt" = false.
Proof. reflexivity. Qed.

Lemma in_abg_true key : in_abg key = true → key ≠ "allow_tilt".
Proof. intros H ->. discriminate. Qed.

Lemma bind_run {A B} (m : M A) (f : A → M B) σ :
  (m ≫= f) σ = match m σ with
               | (inl e, σ') => (inl e, σ')
               | (inr x, σ') => f x σ'
               end.
Proof. reflexivity. Qed.

Lemma getitem_run key σ :
  getitem key σ = match dict σ !! key with
                  | Some v => (inr v, σ)
                  | None => (inl (KeyError key), σ)
                  end.
Proof. unfold getitem. munfold. now destruct (dict σ !! key). Qed.

(** [_check_allow_tilt], step by step. *)
Lemma check_run f key v σ :
  _check_allow_tilt f key v σ =
  if in_abg key && ne90 v then f "allow_tilt" (VBool true) σ
  else if String.eqb key "allow_tilt" then
    match dict σ !! "allow_tilt" with
    | None => (inl (KeyError "allow_tilt"), σ)
    | Some flag =>
        if negb (truthy flag) then
          match dict σ !! "alpha" with
          | None => (inl (KeyError "alpha"), σ)
          | Some al =>
              match dict σ !! "beta" with
              | None => (inl (KeyError "beta"), σ)
              | Some be =>
                  match dict σ !! "gamma" with
                  | None => (inl (KeyError "gamma"), σ)
                  | Some ga =>
                      if ne90 al || ne90 be || ne90 ga then
                        f "allow_tilt" (VBool true)
                          (State (dict σ) (log σ ++ [KeepingTilt key]))
                      else (inr tt, σ)
                  end
              end
          end
        else (inr tt, σ)
    end
  else (inr tt, σ).
Proof.
  unfold _check_allow_tilt.
  destruct (in_abg key && ne90 v); [reflexivity |].
  destruct (String.eqb key "allow_tilt"); [| reflexivity].
  rewrite bind_run, getitem_run.
  destruct (dict σ !! "allow_tilt") as [flag |]; [| reflexivity].
  destruct (negb (truthy flag)); [| reflexivity].
  rewrite bind_run, getitem_run.
  destruct (dict σ !! "alpha") as [al |]; [| reflexivity].
  rewrite bind_run, getitem_run.
  destruct (dict σ !! "beta") as [be |]; [| reflexivity].
  rewrite bind_run, getitem_run.
  destruct (dict σ !! "gamma") as [ga |]; [| reflexivity].
  destruct (ne90 al || ne90 be || ne90 ga); reflexivity.
Qed.

Lemma setitem_rec_S n key v σ :
  setitem_rec (S n) key v σ =
  match dict σ !! key with
  | None => (inl (KeyError key), σ)
  | Some _ =>
      _check_allow_tilt (setitem_rec n) key v
        (State (<[key := v]> (dict σ)) (log σ))
  end.
Proof.
  unfold setitem_rec; fold setitem_rec. rewrite bind_run. cbn [get_dict].
  now destruct (dict σ !! key).
Qed.

(** The write [self.__dict__['allow_tilt'] = True]: the nested check finds
    the flag true and does nothing. *)
Lemma setitem_rec_force n σ :
  setitem_rec (S n) "allow_tilt" (VBool true) σ =
  match dict σ !! "allow_tilt" with
  | None => (inl (KeyError "allow_tilt"), σ)
  | Some _ => (inr tt, State (<["allow_tilt" := VBool true]> (dict σ)) (log σ))
  end.
Proof.
  rewrite setitem_rec_S. destruct (dict σ !! "allow_tilt"); [| reflexivity].
  rewrite check_run. cbn [dict]. rewrite lookup_insert_eq. reflexivity.
Qed.

(** Fuel beyond 2 changes nothing: the recursion of [__setitem__] through
    [_check_allow_tilt] stops at the second level. *)
Lemma setitem_rec_fuel n key v σ :
  setitem_rec (S (S n)) key v σ = setitem key v σ.
Proof.
  unfold setitem. rewrite !setitem_rec_S.
  destruct (dict σ !! key); [| reflexivity].
  rewrite !check_run, !setitem_rec_force. reflexivity.
Qed.

(** [__setitem__], step by step. *)
Lemma setitem_run key v σ :
  setitem key v σ =
  match dict σ !! key with
  | None => (inl (KeyError key), σ)
  | Some _ =>
      _check_allow_tilt (setitem_rec 1) key v
        (State (<[key := v]> (dict σ)) (log σ))
  end.
Proof. apply setitem_rec_S. Qed.

(** [__setitem__] never runs out of fuel. *)
Lemma setitem_no_fuel_error key v σ :
  (setitem key v σ).1 ≠ inl RecursionError.
Proof.
  rewrite setitem_run. destruct (dict σ !! key); [| discriminate].
  rewrite check_run, !setitem_rec_force. cbn [dict log].
  repeat match goal with
         | |- context [match ?x with _ => _ end] => destruct x
         end; discriminate.
Qed.

(** A key that is not in the dictionary is refused, nothing is written. *)
Lemma setitem_unknown key v σ :
  dict σ !! key = None → setitem key v σ = (inl (KeyError key), σ).
Proof. intros H. rewrite setitem_run. now rewrite H. Qed.

Lemma setattr_unknown key v σ :
  dict σ !! key = None → key ≠ "__dict__" →
  setattr key v σ = (inl (KeyError key), Normal σ).
Proof.
  intros H Hk. unfold setattr. rewrite H.
  rewrite bool_decide_eq_false_2 by (intros [? ?]; discriminate).
  apply String.eqb_neq in Hk. rewrite Hk. reflexivity.
Qed.

(** The attribute [__dict__] is let through by the guard: a dict is
    accepted and becomes the attribute dictionary, anything else is a
    [TypeError]; the mapping and the log stay as they were. *)
Lemma setattr_dunder_dict v σ :
  setattr "__dict__" v σ =
  match v with
  | VDict own => (inr tt, Detached σ own)
  | _ => (inl TypeError, Normal σ)
  end.
Proof.
  unfold setattr. change (("__dict__" =? "__dict__")%string) with true.
  rewrite orb_true_r. reflexivity.
Qed.

(** *** [dict.update] and the removal of the unknown keys *)

Lemma dict_update_lookup kvs (d : gmap string value) k :
  dict_update kvs d !! k = match last_value kvs k with
                           | Some w => Some w
                           | None => d !! k
                           end.
Proof.
  revert d. induction kvs as [| [k' v'] rest IH]; intros d; [reflexivity |].
  simpl. unfold dict_update in *. simpl. rewrite IH.
  destruct (last_value rest k); [reflexivity |].
  destruct (decide (k' = k)) as [-> | Hne].
  - apply lookup_insert_eq.
  - now apply lookup_insert_ne.
Qed.

Lemma foldr_delete_lookup (l : list string) (d : gmap string value) k :
  foldr delete d l !! k = if decide (k ∈ l) then None else d !! k.
Proof.
  induction l as [| x l IH]; simpl.
  - destruct (decide (k ∈ [])) as [H | H]; [| reflexivity].
    now apply not_elem_of_nil in H.
  - destruct (decide (x = k)) as [-> | Hne].
    + rewrite lookup_delete_eq. destruct (decide (k ∈ k :: l)) as [H | H]; [reflexivity |].
      exfalso. apply H. left.
    + rewrite lookup_delete_ne by assumption. rewrite IH.
      destruct (decide (k ∈ l)) as [H | H];
        destruct (decide (k ∈ x :: l)) as [H' | H']; try reflexivity.
      * exfalso. apply H'. now right.
      * exfalso. apply elem_of_cons in H' as [-> | ?]; [now apply Hne | contradiction].
Qed.

Lemma pop_all_lookup (ks : gset string) (d : gmap string value) k :
  pop_all ks d !! k = if decide (k ∈ ks) then None else d !! k.
Proof.
  unfold pop_all. rewrite foldr_delete_lookup.
  destruct (decide (k ∈ elements ks)) as [H | H];
    destruct (decide (k ∈ ks)) as [H' | H']; try reflexivity.
  - exfalso. apply H'. now apply elem_of_elements.
  - exfalso. apply H. now apply elem_of_elements.
Qed.

Lemma elem_of_unknown_keys kvs (d : gmap string value) k :
  k ∈ unknown_keys kvs d ↔ is_Some (last_value kvs k) ∧ d !! k = None.
Proof.
  unfold unknown_keys.
  rewrite elem_of_difference, !elem_of_dom, dict_update_lookup.
  unfold is_Some.
  destruct (last_value kvs k) as [w |]; destruct (d !! k) as [x |];
    split; intros [H1 H2];
    first [ discriminate
          | exfalso; apply H2; eauto; fail
          | destruct H1; discriminate
          | split; [eauto | first [reflexivity | intros [? ?]; discriminate]] ].
Qed.

(** What [update] returns and leaves behind. *)
Lemma update_run kvs σ :
  update kvs σ =
  (inr tt,
   State (if bool_decide (unknown_keys kvs (dict σ) = ∅)
          then dict_update kvs (dict σ)
          else pop_all (unknown_keys kvs (dict σ)) (dict_update kvs (dict σ)))
         (if bool_decide (unknown_keys kvs (dict σ) = ∅)
          then log σ
          else log σ ++ [IgnoredInvalid (unknown_keys kvs (dict σ))])).
Proof.
  unfold update, unknown_keys. munfold.
  destruct (bool_decide (dom (dict_update kvs (dict σ)) ∖ dom (dict σ) = ∅));
    reflexivity.
Qed.

Lemma update_lookup kvs σ k :
  dict (update kvs σ).2 !! k =
  match dict σ !! k with
  | None => None
  | Some old => Some (default old (last_value kvs k))
  end.
Proof.
  rewrite update_run. simpl.
  destruct (bool_decide (unknown_keys kvs (dict σ) = ∅)) eqn:E.
  - apply bool_decide_eq_true in E.
    rewrite dict_update_lookup.
    destruct (last_value kvs k) as [w |] eqn:Ew; destruct (dict σ !! k) eqn:Ek;
      try reflexivity.
    exfalso. assert (H : k ∈ unknown_keys kvs (dict σ)).
    { apply elem_of_unknown_keys. rewrite Ew. eauto. }
    rewrite E in H. now apply not_elem_of_empty in H.
  - rewrite pop_all_lookup, dict_update_lookup.
    destruct (decide (k ∈ unknown_keys kvs (dict σ))) as [H | H].
    + apply elem_of_unknown_keys in H as [_ ->]. reflexivity.
    + destruct (last_value kvs k) as [w |] eqn:Ew; destruct (dict σ !! k) eqn:Ek;
        try reflexivity.
      exfalso. apply H. apply elem_of_unknown_keys. rewrite Ew. eauto.
Qed.

Lemma update_dom kvs σ : dom (dict (update kvs σ).2) = dom (dict σ).
Proof.
  apply set_eq. intros k. rewrite !elem_of_dom, update_lookup.
  destruct (dict σ !! k); split; intros [? ?]; eauto; discriminate.
Qed.

Lemma last_value_is_Some kvs k : is_Some (last_value kvs k) ↔ k ∈ kvs.*1.
Proof.
  induction kvs as [| [k' v'] rest IH]; simpl.
  - split; [intros [? ?]; discriminate | intros H; now apply not_elem_of_nil in H].
  - rewrite elem_of_cons, <- IH.
    destruct (last_value rest k) as [w |].
    + split; eauto.
    + destruct (decide (k' = k)) as [-> | Hne]; split; eauto.
      intros [-> | [? ?]]; [contradiction | discriminate].
Qed.

Lemma unknown_keys_unrecognized kvs (d : gmap string value) :
  unknown_keys kvs d = unrecognized kvs (dom d).
Proof.
  apply set_eq. intros k. rewrite elem_of_unknown_keys. unfold unrecognized.
  rewrite elem_of_difference, elem_of_list_to_set, last_value_is_Some,
    not_elem_of_dom. reflexivity.
Qed.

(** *** The tilt check of the single writes *)

Lemma tilt_allowed_forced (d : gmap string value) :
  tilt_allowed (<["allow_tilt" := VBool true]> d).
Proof. exists (VBool true). split; [apply lookup_insert_eq | reflexivity]. Qed.

(** After the check that follows a write of [v] under [key], I1 holds if it
    held before the write. *)
Lemma check_I1 n key v (d : gmap string value) l σ' :
  I1 d →
  _check_allow_tilt (setitem_rec (S n)) key v (State (<[key := v]> d) l)
    = (inr tt, σ') →
  I1 (dict σ').
Proof.
  intros HI. rewrite check_run, !setitem_rec_force. cbn [dict log].
  destruct (in_abg key && ne90 v) eqn:Eabg.
  - destruct (<[key:=v]> d !! "allow_tilt"); [| discriminate].
    intros [= <-]. intros _. apply tilt_allowed_forced.
  - destruct (String.eqb key "allow_tilt") eqn:Ekey.
    + apply String.eqb_eq in Ekey as ->. rewrite lookup_insert_eq.
      destruct (negb (truthy v)) eqn:Et.
      * destruct (<["allow_tilt":=v]> d !! "alpha") as [al |] eqn:Eal; [| discriminate].
        destruct (<["allow_tilt":=v]> d !! "beta") as [be |] eqn:Ebe; [| discriminate].
        destruct (<["allow_tilt":=v]> d !! "gamma") as [ga |] eqn:Ega; [| discriminate].
        destruct (ne90 al || ne90 be || ne90 ga) eqn:Eany.
        -- intros [= <-]. intros _. apply tilt_allowed_forced.
        -- intros [= <-]. intros (k & w & Hk & Hw & Hne). exfalso.
           apply orb_false_elim in Eany as [Eany Hga].
           apply orb_false_elim in Eany as [Hal Hbe].
           cbn [dict] in Hw. unfold abg in Hk.
           repeat (apply elem_of_cons in Hk as [-> | Hk]); [| | | now apply not_elem_of_nil in Hk];
             congruence.
      * intros [= <-]. intros _. exists v. split; [apply lookup_insert_eq |].
        now apply negb_false_iff in Et.
    + apply String.eqb_neq in Ekey. intros [= <-]. cbn [dict].
      intros (k & w & Hk & Hw & Hne).
      destruct (decide (key = k)) as [-> | Hkk].
      * rewrite lookup_insert_eq in Hw. injection Hw as ->.
        assert (Hin : in_abg k = true) by now apply bool_decide_eq_true.
        rewrite Hin, Hne in Eabg. discriminate.
      * rewrite lookup_insert_ne in Hw by assumption.
        destruct HI as (f & Hf & Ht); [exists k, w; auto |].
        exists f. split; [| assumption]. now rewrite lookup_insert_ne.
Qed.

(** [__setitem__] preserves I1. *)
Lemma setitem_I1 key v σ σ' :
  I1 (dict σ) → setitem key v σ = (inr tt, σ') → I1 (dict σ').
Proof.
  intros HI. rewrite setitem_run. destruct (dict σ !! key); [| discriminate].
  now apply check_I1.
Qed.

(** [__setattr__] preserves I1 of the mapping. *)
Lemma setattr_I1 key v σ o :
  I1 (dict σ) → setattr key v σ = (inr tt, o) → I1 (dict (state_of o)).
Proof.
  intros HI. unfold setattr.
  destruct (bool_decide (is_Some (dict σ !! key)) || String.eqb key "__dict__");
    [| discriminate].
  destruct (String.eqb key "__dict__").
  - destruct v; try discriminate. now intros [= <-].
  - cbn zeta. rewrite bind_run. cbn [put_dict]. unfold setitem.
    destruct (_check_allow_tilt (setitem_rec 2) key v
                (State (<[key:=v]> (dict σ)) (log σ))) as [res σ1] eqn:E.
    cbn [fst snd]. intros [= -> <-]. cbn [state_of].
    now apply (check_I1 1 key v (dict σ) (log σ)).
Qed.

(** An accepted single write of an angle other than 90 leaves [allow_tilt]
    true. *)
Lemma setitem_angle key v σ σ' :
  in_abg key = true → ne90 v = true →
  setitem key v σ = (inr tt, σ') → tilt_allowed (dict σ').
Proof.
  intros Hk Hv. rewrite setitem_run. destruct (dict σ !! key); [| discriminate].
  rewrite check_run, Hk, Hv, setitem_rec_force. cbn [dict log andb].
  destruct (<[key:=v]> (dict σ) !! "allow_tilt"); [| discriminate].
  intros [= <-]. apply tilt_allowed_forced.
Qed.

(** An accepted single write of a false [allow_tilt] over a non-orthogonal
    box is overridden, with a warning. *)
Lemma setitem_flag_overridden v σ σ' :
  truthy v = false → nonorthogonal (dict σ) →
  setitem "allow_tilt" v σ = (inr tt, σ') →
  dict σ' !! "allow_tilt" = Some (VBool true)
  ∧ log σ' = log σ ++ [KeepingTilt "allow_tilt"].
Proof.
  intros Hv (k & w & Hk & Hw & Hne). rewrite setitem_run.
  destruct (dict σ !! "allow_tilt"); [| discriminate].
  rewrite check_run, !setitem_rec_force. cbn [dict log].
  rewrite in_abg_allow_tilt. cbn [andb String.eqb].
  change (("allow_tilt" =? "allow_tilt")%string) with true. cbn iota.
  rewrite !lookup_insert_eq, Hv. cbn [negb].
  assert (Hka : k ≠ "allow_tilt").
  { apply in_abg_true. now apply bool_decide_eq_true. }
  assert (Hany : ∀ al be ga,
             dict σ !! "alpha" = Some al → dict σ !! "beta" = Some be →
             dict σ !! "gamma" = Some ga → ne90 al || ne90 be || ne90 ga = true).
  { intros al be ga Hal Hbe Hga. unfold abg in Hk.
    repeat (apply elem_of_cons in Hk as [-> | Hk]);
      [| | | now apply not_elem_of_nil in Hk].
    - replace al with w by congruence. now rewrite Hne.
    - replace be with w by congruence. rewrite Hne. now rewrite orb_true_r.
    - replace ga with w by congruence. rewrite Hne. now rewrite orb_true_r. }
  rewrite !lookup_insert_ne by discriminate.
  destruct (dict σ !! "alpha") as [al |]; [| discriminate].
  destruct (dict σ !! "beta") as [be |]; [| discriminate].
  destruct (dict σ !! "gamma") as [ga |]; [| discriminate].
  rewrite (Hany al be ga) by reflexivity.
  intros [= <-]. cbn [dict log]. split; [apply lookup_insert_eq | reflexivity].
Qed.

(** *** The closed field set *)

(** C9, amended: on a dictionary whose keys are the thirteen fields, a
    single write under any other key raises [KeyError] and leaves the
    dictionary and the log as they were: [__setitem__] for every such key,
    [__setattr__] for every such key but the attribute name [__dict__].
    Under [__dict__], which the guard of [__setattr__] lets through,
    [__setattr__] accepts a dict, which becomes the attribute dictionary, and
    raises [TypeError] on any other value; the thirteen fields and the log
    stay as they were in both cases.  [update] with any list of pairs
    returns normally, keeps the key set equal to the thirteen fields, gives
    every field the last value the list binds to it (the old value when the
    list does not bind it), stores nothing under any other key, and logs one
    warning carrying exactly the keys of the list that are not fields when
    there are any. *)
Theorem C9_single_writes_strict_but_for_dunder_dict (σ : state) :
  dom (dict σ) = fields →
  (∀ key v, key ∉ fields → setitem key v σ = (inl (KeyError key), σ))
  ∧ (∀ key v, key ∉ fields → key ≠ "__dict__" →
       setattr key v σ = (inl (KeyError key), Normal σ))
  ∧ (∀ v, setattr "__dict__" v σ =
          match v with
          | VDict own => (inr tt, Detached σ own)
          | _ => (inl TypeError, Normal σ)
          end)
  ∧ (∀ kvs,
       let σ' := (update kvs σ).2 in
       let bad := unrecognized kvs fields in
       (update kvs σ).1 = inr tt
       ∧ dom (dict σ') = fields
       ∧ (∀ k, k ∈ fields →
            dict σ' !! k = match last_value kvs k with
                           | Some w => Some w
                           | None => dict σ !! k
                           end)
       ∧ (∀ k, k ∉ fields → dict σ' !! k = None)
       ∧ log σ' = if bool_decide (bad = ∅) then log σ
                  else log σ ++ [IgnoredInvalid bad]).
Proof.
  intros Hdom. split; [| split; [| split]].
  - intros key v Hkey. apply setitem_unknown.
    apply not_elem_of_dom. now rewrite Hdom.
  - intros key v Hkey Hk. apply setattr_unknown; [| assumption].
    apply not_elem_of_dom. now rewrite Hdom.
  - intros v. apply setattr_dunder_dict.
  - intros kvs. cbn zeta. repeat split.
    + now rewrite update_run.
    + now rewrite update_dom.
    + intros k Hk. rewrite update_lookup.
      rewrite <- Hdom in Hk. apply elem_of_dom in Hk as [old Hold].
      rewrite Hold. now destruct (last_value kvs k).
    + intros k Hk. rewrite update_lookup.
      rewrite <- Hdom in Hk. apply not_elem_of_dom in Hk. now rewrite Hk.
    + rewrite update_run. cbn [snd log].
      now rewrite unknown_keys_unrecognized, Hdom.
Qed.

Lemma C9_witness :
  setitem "volume" (VNum 8) (State defaults [])
    = (inl (KeyError "volume"), State defaults [])
  ∧ setattr "volume" (VNum 8) (State defaults [])
    = (inl (KeyError "volume"), Normal (State defaults []))
  ∧ dom (dict (update [("lx", VNum 2); ("volume", VNum 8)]
                 (State defaults [])).2) = fields.
Proof.
  destruct (C9_single_writes_strict_but_for_dunder_dict
              (State defaults []) eq_refl) as (Hset & Hattr & _ & Hupd).
  split; [| split].
  - apply Hset. apply not_elem_of_dom. reflexivity.
  - apply Hattr; [| discriminate]. apply not_elem_of_dom. reflexivity.
  - apply (Hupd [("lx", VNum 2); ("volume", VNum 8)]).
Defined.

(** C9 as stated fails at the attribute name [__dict__]: it is not one of
    the thirteen fields, and on the box [Box()] the assignment
    [box.input.__dict__ = {}] raises nothing. *)
Lemma C9_counterexample :
  ("__dict__" ∉ fields)
  ∧ setattr "__dict__" (VDict ∅) (State defaults [])
    = (inr tt, Detached (State defaults []) ∅).
Proof.
  split; [apply not_elem_of_dom; reflexivity | apply setattr_dunder_dict].
Qed.

(** The attribute form of the single write is as strict, but for the
    attribute [__dict__] itself. *)
Lemma setattr_strict key v σ :
  dom (dict σ) = fields → key ∉ fields → key ≠ "__dict__" →
  setattr key v σ = (inl (KeyError key), Normal σ).
Proof.
  intros Hdom Hkey Hk. apply setattr_unknown; [| assumption].
  apply not_elem_of_dom. now rewrite Hdom.
Qed.

(** *** The bulk update and the tilt invariant *)

(** C2, at the input on which the code departs from it: a bulk update that
    sets [alpha] to 60 and [allow_tilt] to [False] on the default dictionary
    is accepted, logs nothing, and leaves [alpha = 60] stored next to
    [allow_tilt = False]: I1 does not hold afterwards. *)
Theorem C2_bulk_update_skips_tilt_check :
  let r := update [("alpha", VNum 60); ("allow_tilt", VBool false)]
             (State defaults []) in
  r.1 = inr tt
  ∧ dict r.2 !! "alpha" = Some (VNum 60)
  ∧ dict r.2 !! "allow_tilt" = Some (VBool false)
  ∧ log r.2 = []
  ∧ ¬ I1 (dict r.2).
Proof.
  cbn zeta.
  assert (Ha : dict (update [("alpha", VNum 60); ("allow_tilt", VBool false)]
                       (State defaults [])).2 !! "alpha" = Some (VNum 60)).
  { rewrite update_lookup. reflexivity. }
  assert (Ht : dict (update [("alpha", VNum 60); ("allow_tilt", VBool false)]
                       (State defaults [])).2 !! "allow_tilt" = Some (VBool false)).
  { rewrite update_lookup. reflexivity. }
  repeat split; try assumption.
  intros HI. destruct HI as (f & Hf & Htr).
  - exists "alpha", (VNum 60). split; [left | split; [assumption |]].
    cbn [ne90]. rewrite Reqb_false; [reflexivity | lra].
  - rewrite Ht in Hf. injection Hf as <-. discriminate.
Qed.

End StoreFacts.

(** ** Facts about the type guesser *)

Module GuessFacts.
Import Num NumFacts Convert.
Local Open Scope R_scope.

Lemma lt3_reflect a b c d e f :
  Rltb a b && Rltb c d && Rltb e f = true ↔ a < b ∧ c < d ∧ e < f.
Proof.
  rewrite !andb_true_iff, !Rltb_spec. tauto.
Qed.

Lemma le3_reflect a b c :
  Rleb a 1 && Rleb b 1 && Rleb c 1 = true ↔ a <= 1 ∧ b <= 1 ∧ c <= 1.
Proof.
  rewrite !andb_true_iff, !Rleb_spec. tauto.
Qed.

Lemma guess9 a0 a1 a2 a3 a4 a5 a6 a7 a8 :
  let l := [a0; a1; a2; a3; a4; a5; a6; a7; a8] in
  _guess_type (Some l) =
  if Rltb a0 a1 && Rltb a2 a3 && Rltb a4 a5 then inr "lmpdata"
  else if Rltb a0 a1 && Rltb a3 a4 && Rltb a6 a7 then inr "lmpdump"
  else inr "basis".
Proof. reflexivity. Qed.

Lemma guess6 a0 a1 a2 a3 a4 a5 :
  let l := [a0; a1; a2; a3; a4; a5] in
  _guess_type (Some l) =
  if Rleb a1 1 && Rleb a3 1 && Rleb a4 1 then inr "dcd" else inr "lattice".
Proof. reflexivity. Qed.

Lemma length9 (l : list R) :
  length l = 9%nat →
  ∃ a0 a1 a2 a3 a4 a5 a6 a7 a8, l = [a0; a1; a2; a3; a4; a5; a6; a7; a8].
Proof.
  intros H. do 9 (destruct l as [| ? l]; [discriminate |]).
  destruct l; [| discriminate]. repeat eexists.
Qed.

Lemma length6 (l : list R) :
  length l = 6%nat → ∃ a0 a1 a2 a3 a4 a5, l = [a0; a1; a2; a3; a4; a5].
Proof.
  intros H. do 6 (destruct l as [| ? l]; [discriminate |]).
  destruct l; [| discriminate]. repeat eexists.
Qed.

(** C3: [_guess_type] on an absent input raises the missing-parameters
    error; on nine numbers it answers lmpdata when argv[0]<argv[1],
    argv[2]<argv[3] and argv[4]<argv[5], otherwise lmpdump when
    argv[0]<argv[1], argv[3]<argv[4] and argv[6]<argv[7], otherwise basis; on
    six numbers it answers dcd when argv[1], argv[3] and argv[4] are at most
    1, otherwise lattice; on any other length it raises the
    invalid-parameters error. *)
Theorem C3_guess_type_table :
  _guess_type None = inl MissingParameters
  ∧ ∀ l : list R,
      (length l = 9%nat → looks_lmpdata l →
         _guess_type (Some l) = inr "lmpdata")
    ∧ (length l = 9%nat → ¬ looks_lmpdata l → looks_lmpdump l →
         _guess_type (Some l) = inr "lmpdump")
    ∧ (length l = 9%nat → ¬ looks_lmpdata l → ¬ looks_lmpdump l →
         _guess_type (Some l) = inr "basis")
    ∧ (length l = 6%nat → looks_dcd l → _guess_type (Some l) = inr "dcd")
    ∧ (length l = 6%nat → ¬ looks_dcd l →
         _guess_type (Some l) = inr "lattice")
    ∧ (length l ≠ 9%nat → length l ≠ 6%nat →
         _guess_type (Some l) = inl InvalidParameters).
Proof.
  split; [reflexivity |]. intros l.
  unfold looks_lmpdata, looks_lmpdump, looks_dcd, at_.
  repeat split.
  - intros H9 Hd. apply length9 in H9 as (a0&a1&a2&a3&a4&a5&a6&a7&a8&->).
    cbn [nth] in Hd. rewrite guess9. apply lt3_reflect in Hd. now rewrite Hd.
  - intros H9 Hd Hp. apply length9 in H9 as (a0&a1&a2&a3&a4&a5&a6&a7&a8&->).
    cbn [nth] in Hd, Hp. rewrite guess9.
    rewrite <- lt3_reflect in Hd. apply not_true_is_false in Hd.
    apply lt3_reflect in Hp. now rewrite Hd, Hp.
  - intros H9 Hd Hp. apply length9 in H9 as (a0&a1&a2&a3&a4&a5&a6&a7&a8&->).
    cbn [nth] in Hd, Hp. rewrite guess9.
    rewrite <- lt3_reflect in Hd, Hp.
    apply not_true_is_false in Hd, Hp. now rewrite Hd, Hp.
  - intros H6 Hc. apply length6 in H6 as (a0&a1&a2&a3&a4&a5&->).
    cbn [nth] in Hc. rewrite guess6. apply le3_reflect in Hc. now rewrite Hc.
  - intros H6 Hc. apply length6 in H6 as (a0&a1&a2&a3&a4&a5&->).
    cbn [nth] in Hc. rewrite guess6.
    rewrite <- le3_reflect in Hc. apply not_true_is_false in Hc. now rewrite Hc.
  - intros H9 H6. unfold _guess_type.
    apply Nat.eqb_neq in H9, H6. now rewrite H9, H6.
Qed.

(** The arrays of the spec's "type inference" examples. *)
Lemma C3_witness :
  _guess_type (Some [0; 10; 0; 10; 0; 10; 0; 0; 0]) = inr "lmpdata"
  ∧ _guess_type (Some [0; 10; 0; 0; 10; 0; 0; 10; 0]) = inr "lmpdump"
  ∧ _guess_type (Some [10; 0; 0; 0; 10; 0; 0; 0; 10]) = inr "basis"
  ∧ _guess_type (Some [10; 5 / 10; 10; 3 / 10; 2 / 10; 10]) = inr "dcd"
  ∧ _guess_type (Some [10; 10; 10; 90; 90; 90]) = inr "lattice"
  ∧ _guess_type (Some [1; 2; 3]) = inl InvalidParameters.
Proof.
  destruct C3_guess_type_table as [_ H].
  split; [| split; [| split; [| split; [| split]]]].
  - apply (H [0; 10; 0; 10; 0; 10; 0; 0; 0]); [reflexivity |].
    unfold looks_lmpdata, at_; simpl; lra.
  - apply (H [0; 10; 0; 0; 10; 0; 0; 10; 0]); [reflexivity | |];
      unfold looks_lmpdata, looks_lmpdump, at_; simpl; lra.
  - apply (H [10; 0; 0; 0; 10; 0; 0; 0; 10]); [reflexivity | |];
      unfold looks_lmpdata, looks_lmpdump, at_; simpl; lra.
  - apply (H [10; 5 / 10; 10; 3 / 10; 2 / 10; 10]); [reflexivity |].
    unfold looks_dcd, at_; simpl; lra.
  - apply (H [10; 10; 10; 90; 90; 90]); [reflexivity |].
    unfold looks_dcd, at_; simpl; lra.
  - apply (H [1; 2; 3]); simpl; lia.
Defined.

End GuessFacts.

(** ** Facts about the parameters read by [Box.output] *)

Module TypedFacts.
Import Num NumFacts Vec Geometry StoreFacts.
Local Open Scope R_scope.

#[local] Arguments setitem_rec : simpl never.

Lemma typed_Some (d : gmap string value) c :
  typed d = Some c ↔
  d !! "x0" ≫= as_num = Some (x0 c) ∧ d !! "y0" ≫= as_num = Some (y0 c) ∧
  d !! "z0" ≫= as_num = Some (z0 c) ∧ d !! "lx" ≫= as_num = Some (lx c) ∧
  d !! "ly" ≫= as_num = Some (ly c) ∧ d !! "lz" ≫= as_num = Some (lz c) ∧
  d !! "alpha" ≫= as_num = Some (alpha c) ∧
  d !! "beta" ≫= as_num = Some (beta c) ∧
  d !! "gamma" ≫= as_num = Some (gamma c) ∧
  d !! "allow_tilt" ≫= as_flag = Some (allow_tilt c) ∧
  d !! "bx" = Some (bx c) ∧ d !! "by" = Some (by_ c) ∧ d !! "bz" = Some (bz c).
Proof.
  unfold typed. destruct c as [x0 y0 z0 lx ly lz al be ga t bx by_ bz]. simpl.
  destruct (d !! "x0" ≫= as_num); simpl; [| intuition discriminate].
  destruct (d !! "y0" ≫= as_num); simpl; [| intuition discriminate].
  destruct (d !! "z0" ≫= as_num); simpl; [| intuition discriminate].
  destruct (d !! "lx" ≫= as_num); simpl; [| intuition discriminate].
  destruct (d !! "ly" ≫= as_num); simpl; [| intuition discriminate].
  destruct (d !! "lz" ≫= as_num); simpl; [| intuition discriminate].
  destruct (d !! "alpha" ≫= as_num); simpl; [| intuition discriminate].
  destruct (d !! "beta" ≫= as_num); simpl; [| intuition discriminate].
  destruct (d !! "gamma" ≫= as_num); simpl; [| intuition discriminate].
  destruct (d !! "allow_tilt" ≫= as_flag); simpl; [| intuition discriminate].
  destruct (d !! "bx"); simpl; [| intuition discriminate].
  destruct (d !! "by"); simpl; [| intuition discriminate].
  destruct (d !! "bz"); simpl; [| intuition discriminate].
  split.
  - intros [= -> -> -> -> -> -> -> -> -> -> -> -> ->]. repeat split.
  - intros ([= ->]&[= ->]&[= ->]&[= ->]&[= ->]&[= ->]&[= ->]&[= ->]&[= ->]
            &[= ->]&[= ->]&[= ->]&[= ->]). reflexivity.
Qed.

Lemma typed_to_dict c : typed (to_dict c) = Some c.
Proof. apply typed_Some. repeat split. Qed.

Lemma bind_as_num_is_Some (d : gmap string value) k r :
  d !! k ≫= as_num = Some r → is_Some (d !! k).
Proof. destruct (d !! k); [eauto | discriminate]. Qed.

(** The numeric keys are in a dictionary that reads. *)
Lemma typed_numeric_key (d : gmap string value) c k :
  typed d = Some c → k ∈ numeric_keys → is_Some (d !! k).
Proof.
  intros H Hk. apply typed_Some in H as (?&?&?&?&?&?&?&?&?&?&?&?&?).
  unfold numeric_keys in Hk.
  repeat (apply elem_of_cons in Hk as [-> | Hk]);
    try (eapply bind_as_num_is_Some; eassumption).
  now apply not_elem_of_nil in Hk.
Qed.

Lemma typed_flag_key (d : gmap string value) c :
  typed d = Some c → d !! "allow_tilt" = Some (VBool (allow_tilt c)).
Proof.
  intros H. apply typed_Some in H as (?&?&?&?&?&?&?&?&?&Ht&?&?&?).
  destruct (d !! "allow_tilt") as [[| | |] |]; simpl in Ht; congruence.
Qed.

(** Storing a float under a numeric key, seen on the parameters read. *)
Lemma typed_insert_num (d : gmap string value) c k r :
  typed d = Some c → k ∈ numeric_keys →
  typed (<[k := VNum r]> d) = Some (set_num k r c).
Proof.
  intros H Hk. apply typed_Some in H as (?&?&?&?&?&?&?&?&?&?&?&?&?).
  destruct c as [x0 y0 z0 lx ly lz al be ga t bx by_ bz]. simpl in *.
  unfold numeric_keys in Hk.
  repeat (apply elem_of_cons in Hk as [-> | Hk]);
    [.. | now apply not_elem_of_nil in Hk];
    apply typed_Some; simpl;
    repeat split;
    first [ rewrite lookup_insert_eq; reflexivity
          | rewrite lookup_insert_ne by discriminate; assumption ].
Qed.

Lemma typed_insert_flag (d : gmap string value) c b :
  typed d = Some c →
  typed (<["allow_tilt" := VBool b]> d) = Some (set_flag b c).
Proof.
  intros H. apply typed_Some in H as (?&?&?&?&?&?&?&?&?&?&?&?&?).
  destruct c as [x0 y0 z0 lx ly lz al be ga t bx by_ bz]. simpl in *.
  apply typed_Some; simpl;
    repeat split;
    first [ rewrite lookup_insert_eq; reflexivity
          | rewrite lookup_insert_ne by discriminate; assumption ].
Qed.

(** [Box.output] reads the dictionary and changes nothing. *)
Lemma output_run σ c :
  typed (dict σ) = Some c →
  output σ = match output_of c with
             | inl e => (inl e, σ)
             | inr o => (inr o, σ)
             end.
Proof.
  intros H. unfold output. rewrite bind_run. cbn [get_dict]. rewrite H.
  now destruct (output_of c).
Qed.

Lemma output_inv σ o σ' :
  output σ = (inr o, σ') →
  σ' = σ ∧ ∃ c, typed (dict σ) = Some c ∧ output_of c = inr o.
Proof.
  unfold output. rewrite bind_run. cbn [get_dict].
  destruct (typed (dict σ)) as [c |] eqn:E; [| discriminate].
  destruct (output_of c) eqn:E'; [discriminate |].
  intros [= <- <-]. eauto.
Qed.

(** [self[key] = value] on a numeric key other than an angle. *)
Lemma setitem_length_key σ c k r :
  typed (dict σ) = Some c → k ∈ ["x0"; "y0"; "z0"; "lx"; "ly"; "lz"] →
  setitem k (VNum r) σ = (inr tt, State (<[k := VNum r]> (dict σ)) (log σ)).
Proof.
  intros H Hk.
  assert (Hn : k ∈ numeric_keys).
  { unfold numeric_keys.
    repeat (apply elem_of_cons in Hk as [-> | Hk]);
      [.. | now apply not_elem_of_nil in Hk]; set_solver. }
  destruct (typed_numeric_key _ _ _ H Hn) as [old Hold].
  rewrite setitem_run, Hold, check_run.
  repeat (apply elem_of_cons in Hk as [-> | Hk]);
    [.. | now apply not_elem_of_nil in Hk]; reflexivity.
Qed.

(** A bulk update that binds known keys only is [dict.update]. *)
Lemma update_known kvs σ :
  (∀ k, k ∈ kvs.*1 → is_Some (dict σ !! k)) →
  update kvs σ = (inr tt, State (dict_update kvs (dict σ)) (log σ)).
Proof.
  intros H. rewrite update_run.
  rewrite bool_decide_eq_true_2; [reflexivity |].
  apply set_eq. intros k. rewrite elem_of_unknown_keys, last_value_is_Some.
  split; [| intros Hk; now apply not_elem_of_empty in Hk].
  intros [Hk Hn]. apply H in Hk as [? Hk]. congruence.
Qed.

End TypedFacts.

(** ** Facts about vectors and about the derived geometry *)

Module VecFacts.
Import Num NumFacts Vec.
Local Open Scope R_scope.

Lemma vec3_eq x y z x' y' z' :
  x = x' → y = y' → z = z' → V3 x y z = V3 x' y' z'.
Proof. now intros -> -> ->. Qed.

Lemma norm_eq p n : 0 <= n → sumsq p = n ^ 2 → norm p = n.
Proof.
  intros Hn H. unfold norm. rewrite H.
  replace (n ^ 2) with (n * n) by ring. now apply sqrt_square.
Qed.

Lemma sumsq_nonneg p : 0 <= sumsq p.
Proof. unfold sumsq. nra. Qed.

Lemma norm_nonneg p : 0 <= norm p.
Proof. apply sqrt_pos. Qed.

Lemma norm_sq p : norm p ^ 2 = sumsq p.
Proof.
  unfold norm. replace (sqrt (sumsq p) ^ 2) with (sqrt (sumsq p) * sqrt (sumsq p)) by ring.
  apply sqrt_sqrt, sumsq_nonneg.
Qed.

Lemma normalize_norm p n : norm p = n → n ≠ 0 → normalize p = vdiv p n.
Proof.
  intros H Hn. unfold normalize. rewrite H. now rewrite Reqb_false.
Qed.

Lemma normalize_zero p : norm p = 0 → normalize p = vdiv p 1.
Proof. intros H. unfold normalize. rewrite H. now rewrite Reqb_true. Qed.

(** A vector of norm 1 is its own normalization. *)
Lemma normalize_unit p : sumsq p = 1 → normalize p = p.
Proof.
  intros H. rewrite (normalize_norm p 1).
  - destruct p as [x y z]. unfold vdiv. simpl. apply vec3_eq; field.
  - apply norm_eq; [lra |]. rewrite H. ring.
  - lra.
Qed.

Lemma sqrt_sq x : 0 <= x → sqrt (x ^ 2) = x.
Proof. intros H. replace (x ^ 2) with (x * x) by ring. now apply sqrt_square. Qed.

End VecFacts.

Module GeometryFacts.
Import Num NumFacts Vec VecFacts Geometry.
Local Open Scope R_scope.

Lemma cos_90 : cos (90 * deg2rad) = 0.
Proof.
  unfold deg2rad. replace (90 * (PI / 180)) with (PI / 2) by field.
  apply cos_PI2.
Qed.

Lemma cos_60 : cos (60 * deg2rad) = 1 / 2.
Proof.
  unfold deg2rad. replace (60 * (PI / 180)) with (PI / 3) by field.
  apply cos_PI3.
Qed.

Lemma deg_rad x : x * rad2deg * deg2rad = x.
Proof. unfold rad2deg, deg2rad. field. apply PI_neq0. Qed.

Lemma rad_deg x : x * deg2rad * rad2deg = x.
Proof. unfold rad2deg, deg2rad. field. apply PI_neq0. Qed.

Lemma acos_0_deg : acos 0 * rad2deg = 90.
Proof. rewrite acos_0. unfold rad2deg. field. apply PI_neq0. Qed.

(** *** Cells whose only tilt is between a and b

    [alpha = beta = 90]; [cg] and [sg] are the cosine and the sine of
    [gamma].  The orthogonal cell is [cg = 0], [sg = 1]. *)
Section Monoclinic.

Variables (s : canon) (cg sg : R).
Hypothesis Halpha : alpha s = 90.
Hypothesis Hbeta : beta s = 90.
Hypothesis Hcg : cos (gamma s * deg2rad) = cg.
Hypothesis Hsg : 0 < sg.
Hypothesis Hunit : cg ^ 2 + sg ^ 2 = 1.
Hypothesis Hlx : 0 < lx s.
Hypothesis Hly : 0 < ly s.
Hypothesis Hlz : 0 < lz s.

Lemma mono_sqrt : sqrt (1 - cg ^ 2) = sg.
Proof.
  replace (1 - cg ^ 2) with (sg ^ 2) by lra. apply sqrt_sq. lra.
Qed.

Lemma mono_b : o_b (derive s) = ly s / sg.
Proof. unfold derive. cbn [o_b]. now rewrite Hcg, mono_sqrt. Qed.

Lemma mono_c : o_c (derive s) = lz s.
Proof.
  unfold derive. cbn [o_c]. rewrite Halpha, Hbeta, Hcg, cos_90.
  replace (1 - 0 ^ 2 - (0 - cg * 0) ^ 2 / (1 - cg ^ 2)) with 1.
  - rewrite sqrt_1. field.
  - field. rewrite <- mono_sqrt in Hsg. intros H. rewrite H, sqrt_0 in Hsg. lra.
Qed.

Lemma mono_derive_v : o_v (derive s) = (mono_v s cg sg).
Proof.
  pose proof mono_b as Hb. pose proof mono_c as Hc.
  unfold derive in *. cbn [o_v o_b o_c] in *. rewrite Hb, Hc.
  rewrite Halpha, Hbeta, Hcg, cos_90. unfold mono_v.
  f_equal. apply vec3_eq; [ring | field; lra | reflexivity].
Qed.

Lemma mono_normalize_v : mnormalize (mono_v s cg sg) = (mono_u cg sg).
Proof.
  unfold mnormalize, mmap, mono_v, mono_u. cbn [row0 row1 row2]. f_equal.
  - rewrite (normalize_norm _ (lx s)).
    + unfold vdiv. cbn [vx vy vz]. apply vec3_eq; field; lra.
    + apply norm_eq; [lra |]. unfold sumsq. cbn [vx vy vz]. ring.
    + lra.
  - rewrite (normalize_norm _ (ly s / sg)).
    + unfold vdiv. cbn [vx vy vz]. apply vec3_eq; field; lra.
    + apply norm_eq.
      * apply Rlt_le, Rdiv_lt_0_compat; lra.
      * unfold sumsq. cbn [vx vy vz].
        replace ((ly s / sg * cg) ^ 2 + ly s ^ 2 + 0 ^ 2)
          with ((ly s / sg) ^ 2 * (cg ^ 2 + sg ^ 2)) by (field; lra).
        rewrite Hunit. ring.
    + apply Rgt_not_eq, Rdiv_lt_0_compat; lra.
  - rewrite (normalize_norm _ (lz s)).
    + unfold vdiv. cbn [vx vy vz]. apply vec3_eq; field; lra.
    + apply norm_eq; [lra |]. unfold sumsq. cbn [vx vy vz]. ring.
    + lra.
Qed.

Lemma mono_derive_u : o_u (derive s) = (mono_u cg sg).
Proof.
  pose proof mono_derive_v as Hv. unfold derive in *. cbn [o_u o_v] in *.
  rewrite Hv. apply mono_normalize_v.
Qed.

Lemma mono_det : det (mono_u cg sg) = sg.
Proof. unfold det, dot, np_cross, mono_u. cbn [row0 row1 row2 vx vy vz]. ring. Qed.

Lemma mono_cross_bn :
  M3 (cross (row1 (mono_u cg sg)) (row2 (mono_u cg sg)))
     (cross (row2 (mono_u cg sg)) (row0 (mono_u cg sg)))
     (cross (row0 (mono_u cg sg)) (row1 (mono_u cg sg))) = (mono_bn cg sg).
Proof.
  unfold cross, np_cross, mono_u, mono_bn. cbn [row0 row1 row2 vx vy vz].
  f_equal.
  - rewrite normalize_unit.
    + apply vec3_eq; ring.
    + unfold sumsq. cbn [vx vy vz].
      transitivity (cg ^ 2 + sg ^ 2); [ring | exact Hunit].
  - rewrite normalize_unit.
    + apply vec3_eq; ring.
    + unfold sumsq. cbn [vx vy vz]. ring.
  - rewrite (normalize_norm _ sg).
    + unfold vdiv. cbn [vx vy vz]. apply vec3_eq; field; lra.
    + apply norm_eq; [lra |]. unfold sumsq. cbn [vx vy vz]. ring.
    + lra.
Qed.

Lemma mono_derive_bn : o_bn (derive s) = (mono_bn cg sg).
Proof.
  pose proof mono_derive_u as Hu. unfold derive in *. cbn [o_u o_bn] in *.
  rewrite Hu. apply mono_cross_bn.
Qed.

(** [Box.output] does not raise on such a cell. *)
Lemma mono_output : output_of s = inr (round_all (derive s)).
Proof.
  unfold output_of. rewrite mono_derive_u, mono_det.
  rewrite Reqb_false; [reflexivity | lra].
Qed.

End Monoclinic.

(** *** Orthogonal cells *)

Section Orthogonal.

Variables (x y z a b c : R).
Hypothesis Ha : 0 < a.
Hypothesis Hb : 0 < b.
Hypothesis Hc : 0 < c.

Let s := ortho_box x y z a b c.

Lemma ortho_unit : 0 ^ 2 + 1 ^ 2 = 1.
Proof. ring. Qed.

Lemma ortho_output : output_of s = inr (round_all (derive s)).
Proof.
  apply (mono_output s 0 1); try reflexivity; try assumption;
    [apply cos_90 | lra | apply ortho_unit].
Qed.

Lemma ortho_v : o_v (round_all (derive s)) = diag (round9 a) (round9 b) (round9 c).
Proof.
  cbn [round_all o_v].
  rewrite (mono_derive_v s 0 1); try reflexivity; try assumption;
    [| apply cos_90 | lra | apply ortho_unit].
  unfold round_mat, mmap, vmap, mono_v, diag. cbn [row0 row1 row2 vx vy vz].
  subst s. cbn [ortho_box lx ly lz].
  replace (b / 1 * 0) with 0 by field. now rewrite round9_0.
Qed.

Lemma ortho_u : o_u (round_all (derive s)) = identity.
Proof.
  cbn [round_all o_u].
  rewrite (mono_derive_u s 0 1); try reflexivity; try assumption;
    [| apply cos_90 | lra | apply ortho_unit].
  unfold round_mat, mmap, vmap, mono_u, identity, diag.
  cbn [row0 row1 row2 vx vy vz].
  now rewrite round9_0, (round9_IZR 1).
Qed.

Lemma ortho_bn : o_bn (round_all (derive s)) = identity.
Proof.
  cbn [round_all o_bn].
  rewrite (mono_derive_bn s 0 1); try reflexivity; try assumption;
    [| apply cos_90 | lra | apply ortho_unit].
  unfold round_mat, mmap, vmap, mono_bn, identity, diag.
  cbn [row0 row1 row2 vx vy vz].
  replace (- 0) with 0 by ring. now rewrite round9_0, (round9_IZR 1).
Qed.

End Orthogonal.

(** *** Any cell with three right angles *)

Section RightAngled.

Variable s : canon.
Hypothesis Halpha : alpha s = 90.
Hypothesis Hbeta : beta s = 90.
Hypothesis Hgamma : gamma s = 90.
Hypothesis Hlx : 0 < lx s.
Hypothesis Hly : 0 < ly s.
Hypothesis Hlz : 0 < lz s.

Lemma right_cg : cos (gamma s * deg2rad) = 0.
Proof. rewrite Hgamma. apply cos_90. Qed.

Lemma right_output : output_of s = inr (round_all (derive s)).
Proof.
  apply (mono_output s 0 1); try assumption;
    [apply right_cg | lra | apply ortho_unit].
Qed.

Lemma right_v :
  o_v (round_all (derive s))
  = diag (round9 (lx s)) (round9 (ly s)) (round9 (lz s)).
Proof.
  cbn [round_all o_v].
  rewrite (mono_derive_v s 0 1); try assumption;
    [| apply right_cg | lra | apply ortho_unit].
  unfold round_mat, mmap, vmap, mono_v, diag. cbn [row0 row1 row2 vx vy vz].
  replace (ly s / 1 * 0) with 0 by field. now rewrite round9_0.
Qed.

Lemma right_u : o_u (round_all (derive s)) = identity.
Proof.
  cbn [round_all o_u].
  rewrite (mono_derive_u s 0 1); try assumption;
    [| apply right_cg | lra | apply ortho_unit].
  unfold round_mat, mmap, vmap, mono_u, identity, diag.
  cbn [row0 row1 row2 vx vy vz].
  now rewrite round9_0, (round9_IZR 1).
Qed.

Lemma right_bn : o_bn (round_all (derive s)) = identity.
Proof.
  cbn [round_all o_bn].
  rewrite (mono_derive_bn s 0 1); try assumption;
    [| apply right_cg | lra | apply ortho_unit].
  unfold round_mat, mmap, vmap, mono_bn, identity, diag.
  cbn [row0 row1 row2 vx vy vz].
  replace (- 0) with 0 by ring. now rewrite round9_0, (round9_IZR 1).
Qed.

End RightAngled.

End GeometryFacts.

(** ** The tilt flag of the derived view *)

Module OutputFacts.
Import Num NumFacts Vec VecFacts Geometry StoreFacts TypedFacts GeometryFacts.
Local Open Scope R_scope.

Lemma ne90_as_num v r : as_num v = Some r → ne90 v = negb (Reqb r 90).
Proof.
  destruct v as [x | [|] | x | x]; simpl; intros [= <-]; try reflexivity;
    rewrite Reqb_false; try reflexivity; lra.
Qed.

Lemma lookup_bind_as_num (d : gmap string value) k v r :
  d !! k = Some v → d !! k ≫= as_num = Some r → as_num v = Some r.
Proof. now intros ->. Qed.

(** A dictionary with an angle other than 90 reads as parameters with an
    angle other than 90. *)
Lemma nonorthogonal_typed (d : gmap string value) c :
  typed d = Some c → nonorthogonal d → any_ne90 c = true.
Proof.
  intros H (k & v & Hk & Hv & Hne).
  apply typed_Some in H as (_&_&_&_&_&_&Ha&Hb&Hg&_).
  unfold any_ne90, abg in *.
  repeat (apply elem_of_cons in Hk as [-> | Hk]);
    [| | | now apply not_elem_of_nil in Hk].
  - rewrite <- (ne90_as_num v) by (eapply lookup_bind_as_num; eassumption).
    now rewrite Hne.
  - rewrite <- (ne90_as_num v (beta c)) by (eapply lookup_bind_as_num; eassumption).
    rewrite Hne. now rewrite orb_true_r.
  - rewrite <- (ne90_as_num v (gamma c)) by (eapply lookup_bind_as_num; eassumption).
    rewrite Hne. now rewrite orb_true_r.
Qed.

Lemma output_of_inv c o : output_of c = inr o → o = round_all (derive c).
Proof.
  unfold output_of. destruct (Reqb (det (o_u (derive c))) 0); [discriminate |].
  now intros [= <-].
Qed.

(** The flag the view reports is the stored flag or-ed with "some angle is
    not 90". *)
Lemma output_flag c o :
  output_of c = inr o → o_allow_tilt o = allow_tilt c || any_ne90 c.
Proof. intros H. apply output_of_inv in H as ->. reflexivity. Qed.

(** C10: whenever [Box.output] returns a mapping for a dictionary in which
    one of alpha, beta, gamma is stored with a value other than 90, that
    mapping has [allow_tilt] true, whatever flag is stored; the dictionary
    itself is left as it was. *)
Theorem C10_output_reports_tilt σ o σ' :
  output σ = (inr o, σ') → nonorthogonal (dict σ) →
  o_allow_tilt o = true ∧ σ' = σ.
Proof.
  intros H Hn. apply output_inv in H as (-> & c & Hc & Ho).
  split; [| reflexivity].
  rewrite (output_flag c o Ho), (nonorthogonal_typed _ _ Hc Hn).
  apply orb_true_r.
Qed.

Lemma sqrt3_sq : (sqrt 3 / 2) ^ 2 = 3 / 4.
Proof.
  replace ((sqrt 3 / 2) ^ 2) with (sqrt 3 * sqrt 3 / 4) by field.
  rewrite sqrt_sqrt; lra.
Qed.

Lemma sqrt3_pos : 0 < sqrt 3 / 2.
Proof. apply Rdiv_lt_0_compat; [apply sqrt_lt_R0 |]; lra. Qed.

(** [Box.output] on the unit hexagonal cell. *)
Lemma hex_output : output_of hex_box = inr (round_all (derive hex_box)).
Proof.
  apply (mono_output hex_box (1 / 2) (sqrt 3 / 2)); try reflexivity;
    try (simpl; lra).
  - apply cos_60.
  - apply sqrt3_pos.
  - rewrite sqrt3_sq. lra.
Qed.

Lemma C10_witness :
  o_allow_tilt (round_all (derive hex_box)) = true
  ∧ State (to_dict hex_box) [] = State (to_dict hex_box) [].
Proof.
  apply (C10_output_reports_tilt (State (to_dict hex_box) [])).
  - rewrite (output_run _ hex_box) by apply typed_to_dict.
    now rewrite hex_output.
  - exists "gamma", (VNum 60). split; [| split].
    + unfold abg. set_solver.
    + reflexivity.
    + simpl. rewrite Reqb_false; [reflexivity | lra].
Defined.

End OutputFacts.

(** ** The containment test *)

Module BBFacts.
Import Num NumFacts Vec VecFacts Geometry StoreFacts TypedFacts GeometryFacts
  OutputFacts Spatial.
Local Open Scope R_scope.

Lemma fold_left_Rmin_le l a : fold_left Rmin l a <= a.
Proof.
  revert a. induction l as [| x l IH]; intros a; simpl; [lra |].
  etransitivity; [apply IH | apply Rmin_l].
Qed.

Lemma fold_left_Rmin_le_elem l a x : x ∈ l → fold_left Rmin l a <= x.
Proof.
  revert a. induction l as [| y l IH]; intros a Hx; simpl.
  - now apply not_elem_of_nil in Hx.
  - apply elem_of_cons in Hx as [-> | Hx].
    + etransitivity; [apply fold_left_Rmin_le | apply Rmin_r].
    + now apply IH.
Qed.

Lemma fold_left_Rmin_elem l a : fold_left Rmin l a = a ∨ fold_left Rmin l a ∈ l.
Proof.
  revert a. induction l as [| y l IH]; intros a; simpl; [now left |].
  destruct (IH (Rmin a y)) as [H | H].
  - rewrite H. unfold Rmin. destruct (Rle_dec a y); [now left | right; left].
  - right. now right.
Qed.

(** [np.min] of a row is below every entry of the row, and is one of them. *)
Lemma row_min_le l x : x ∈ l → row_min l <= x.
Proof.
  destruct l as [| a l]; intros Hx; [now apply not_elem_of_nil in Hx |].
  simpl. apply elem_of_cons in Hx as [-> | Hx].
  - apply fold_left_Rmin_le.
  - now apply fold_left_Rmin_le_elem.
Qed.

Lemma row_min_elem l : l ≠ [] → row_min l ∈ l.
Proof.
  destruct l as [| a l]; intros H; [contradiction |]. simpl.
  destruct (fold_left_Rmin_elem l a) as [-> | H']; [left | now right].
Qed.

Lemma row_min_nonneg l : l ≠ [] → (0 <= row_min l ↔ ∀ x, x ∈ l → 0 <= x).
Proof.
  intros Hl. split.
  - intros H x Hx. pose proof (row_min_le l x Hx). lra.
  - intros H. apply H. now apply row_min_elem.
Qed.

Lemma face_dist_length o p : length (face_dist o p) = 6%nat.
Proof. reflexivity. Qed.

Lemma face_dist_nonempty o p : face_dist o p ≠ [].
Proof. discriminate. Qed.

(** [bbcheck] returns the masks and distances computed from [Box.output];
    it only adds a record to the log. *)
Lemma bbcheck_inv pts σ r σ' :
  bbcheck pts σ = (inr r, σ') →
  ∃ o, output σ = (inr o, σ) ∧ r = bbcheck_of o pts ∧ dict σ' = dict σ.
Proof.
  unfold bbcheck. rewrite bind_run.
  destruct (output σ) as [[e | o] σ1] eqn:E; [discriminate |].
  destruct (output_inv _ _ _ E) as [-> _].
  rewrite bind_run.
  destruct (0 <? length pts - count_true (inbound (bbcheck_of o pts)))%nat;
    intros [= <- <-]; exists o; auto.
Qed.

Lemma bbcheck_run pts σ c o :
  typed (dict σ) = Some c → output_of c = inr o →
  bbcheck pts σ =
  (inr (bbcheck_of o pts),
   let N := (length pts - count_true (inbound (bbcheck_of o pts)))%nat in
   if (0 <? N)%nat
   then State (dict σ)
          (log σ ++ [PointsOutside N (where_true (outbound (bbcheck_of o pts)))])
   else σ).
Proof.
  intros Hc Ho. unfold bbcheck. rewrite bind_run, (output_run _ c Hc), Ho.
  rewrite bind_run. cbn zeta.
  now destruct (0 <? length pts - count_true (inbound (bbcheck_of o pts)))%nat.
Qed.

Lemma inbound_lookup o pts i p :
  pts !! i = Some p →
  inbound (bbcheck_of o pts) !! i = Some (Rleb 0 (row_min (face_dist o p))).
Proof.
  intros H. unfold bbcheck_of. cbn [inbound].
  rewrite !list_lookup_fmap, H. reflexivity.
Qed.

Lemma outbound_lookup o pts i p :
  pts !! i = Some p →
  outbound (bbcheck_of o pts) !! i
    = Some (negb (Rleb 0 (row_min (face_dist o p)))).
Proof.
  intros H. unfold bbcheck_of. cbn [outbound].
  rewrite !list_lookup_fmap, H. reflexivity.
Qed.

Lemma dist_lookup o pts i p :
  pts !! i = Some p → dist (bbcheck_of o pts) !! i = Some (face_dist o p).
Proof.
  intros H. unfold bbcheck_of. cbn [dist]. now rewrite list_lookup_fmap, H.
Qed.

(** On an orthogonal cell the six distances are the distances to the
    coordinate planes through the low corner and through the high corner. *)
Lemma ortho_face_dist o p A B C :
  o_bn o = identity → o_v o = diag A B C →
  face_dist o p =
  [vx p - o_xlo o; vy p - o_ylo o; vz p - o_zlo o;
   o_xlo o - vx p + A; o_ylo o - vy p + B; o_zlo o - vz p + C].
Proof.
  intros Hbn Hv. unfold face_dist, box_lo. rewrite Hbn, Hv.
  unfold identity, diag, msum_rows, dot, vneg, vadd, vsub.
  cbn [row0 row1 row2 vx vy vz].
  repeat (apply (f_equal2 cons); [ring |]). reflexivity.
Qed.

Lemma unit_box_face_dist p :
  face_dist (round_all (derive unit_box)) p =
  [vx p - 0; vy p - 0; vz p - 0; 0 - vx p + 1; 0 - vy p + 1; 0 - vz p + 1].
Proof.
  rewrite (ortho_face_dist _ p (round9 1) (round9 1) (round9 1)).
  - cbn [round_all derive o_xlo o_ylo o_zlo unit_box x0 y0 z0].
    now rewrite round9_0, (round9_IZR 1).
  - apply (ortho_bn 0 0 0 1 1 1); lra.
  - apply (ortho_v 0 0 0 1 1 1); lra.
Qed.

Lemma unit_box_output : output_of unit_box = inr (round_all (derive unit_box)).
Proof. apply (ortho_output 0 0 0 1 1 1); lra. Qed.

(** The row [bbcheck] computes for a point is the row of its six signed
    distances from the faces. *)
Lemma face_dist_geometry o p : face_dist o p = six_face_distances o p.
Proof.
  unfold face_dist, six_face_distances, plane_dist, box_hi, box_lo.
  destruct (o_bn o) as [[b00 b01 b02] [b10 b11 b12] [b20 b21 b22]].
  destruct (o_v o) as [[v00 v01 v02] [v10 v11 v12] [v20 v21 v22]].
  destruct p as [px py pz].
  unfold dot, vneg, vadd, vsub, msum_rows. cbn [row0 row1 row2 vx vy vz].
  repeat (apply (f_equal2 cons); [ring |]). reflexivity.
Qed.

(** With three right angles the six distances are all at least 0 exactly
    for the points of the brick that starts at the low corner and has the
    rounded lengths as its sides. *)
Lemma right_angled_inbound s p :
  alpha s = 90 → beta s = 90 → gamma s = 90 →
  0 < lx s → 0 < ly s → 0 < lz s →
  (∀ x, x ∈ six_face_distances (round_all (derive s)) p → 0 <= x)
  ↔ in_brick (V3 (round9 (x0 s)) (round9 (y0 s)) (round9 (z0 s)))
             (V3 (round9 (lx s)) (round9 (ly s)) (round9 (lz s))) p.
Proof.
  intros Ha Hb Hg Hlx Hly Hlz.
  rewrite <- face_dist_geometry.
  rewrite (ortho_face_dist _ p (round9 (lx s)) (round9 (ly s)) (round9 (lz s)))
    by (first [now apply right_bn | now apply right_v]).
  cbn [round_all derive o_xlo o_ylo o_zlo]. unfold in_brick. cbn [vx vy vz].
  split.
  - intros H.
    pose proof (H (vx p - round9 (x0 s)) ltac:(set_solver)).
    pose proof (H (vy p - round9 (y0 s)) ltac:(set_solver)).
    pose proof (H (vz p - round9 (z0 s)) ltac:(set_solver)).
    pose proof (H (round9 (x0 s) - vx p + round9 (lx s)) ltac:(set_solver)).
    pose proof (H (round9 (y0 s) - vy p + round9 (ly s)) ltac:(set_solver)).
    pose proof (H (round9 (z0 s) - vz p + round9 (lz s)) ltac:(set_solver)).
    lra.
  - intros H x Hx.
    repeat (apply elem_of_cons in Hx as [-> | Hx]); try lra.
    now apply not_elem_of_nil in Hx.
Qed.

(** C4: whenever [bbcheck] returns, the box parameters read and [output]
    has returned a mapping [o] for them, and for every point [p] the row of
    [dist] is the row of the six signed distances of [p] from the faces of
    the cell [o] describes (the three faces through the low corner
    [xlo, ylo, zlo] with the normals [bn], the three faces through the
    opposite corner with the normals reversed); the [inbound] entry of [p] is
    true exactly when the minimum of these six distances is at least 0, which
    is exactly when all six are at least 0, and the [outbound] entry is its
    negation; in particular a point with one distance equal to 0 and the
    others at least 0 is inbound.  On a box with three right angles and
    positive lengths, the inbound points are exactly the points between the
    low corner and the low corner plus the lengths (all as [output] rounds
    them), the faces included. *)
Theorem C4_inbound_iff_six_face_distances_nonneg pts σ r σ' :
  bbcheck pts σ = (inr r, σ') →
  ∃ s o,
    typed (dict σ) = Some s ∧ output_of s = inr o
    ∧ o = round_all (derive s)
    ∧ length (inbound r) = length pts
    ∧ ∀ i p, pts !! i = Some p →
        let d := six_face_distances o p in
        ∃ b, dist r !! i = Some d
          ∧ inbound r !! i = Some b ∧ outbound r !! i = Some (negb b)
          ∧ (b = true ↔ 0 <= row_min d)
          ∧ (b = true ↔ ∀ x, x ∈ d → 0 <= x)
          ∧ ((∃ j, d !! j = Some 0) → (∀ x, x ∈ d → 0 <= x) → b = true)
          ∧ (alpha s = 90 → beta s = 90 → gamma s = 90 →
             0 < lx s → 0 < ly s → 0 < lz s →
             (b = true ↔
              in_brick (V3 (round9 (x0 s)) (round9 (y0 s)) (round9 (z0 s)))
                       (V3 (round9 (lx s)) (round9 (ly s)) (round9 (lz s)))
                       p)).
Proof.
  intros H. apply bbcheck_inv in H as (o & Ho & -> & _).
  destruct (output_inv _ _ _ Ho) as (_ & s & Hs & Hos).
  pose proof (output_of_inv _ _ Hos) as Eo.
  exists s, o. do 3 (split; [assumption |]). split.
  - unfold bbcheck_of. cbn [inbound]. now rewrite !length_map.
  - intros i p Hp. cbn zeta.
    exists (Rleb 0 (row_min (face_dist o p))).
    rewrite <- face_dist_geometry.
    split; [now apply dist_lookup |].
    split; [now apply inbound_lookup |].
    split; [now apply outbound_lookup |].
    assert (Hmin : Rleb 0 (row_min (face_dist o p)) = true
                   ↔ ∀ x, x ∈ face_dist o p → 0 <= x).
    { rewrite Rleb_spec. apply row_min_nonneg, face_dist_nonempty. }
    split; [apply Rleb_spec |]. split; [exact Hmin |].
    split; [intros _ Hall; now apply Hmin |].
    intros Ha Hb Hg Hlx Hly Hlz. rewrite Hmin, face_dist_geometry, Eo.
    now apply right_angled_inbound.
Qed.

(** A point on the low x face of the unit cell is inbound. *)
Lemma C4_witness :
  inbound (bbcheck_of (round_all (derive unit_box)) [V3 0 (1 / 2) (1 / 2)])
    !! 0%nat = Some true.
Proof.
  destruct (C4_inbound_iff_six_face_distances_nonneg
              [V3 0 (1 / 2) (1 / 2)] (State (to_dict unit_box) []) _ _
              (bbcheck_run _ (State (to_dict unit_box) []) unit_box _
                 (typed_to_dict unit_box)
                 unit_box_output)) as (s & o & Hs & _ & _ & _ & Hall).
  cbn [dict] in Hs. rewrite (typed_to_dict unit_box) in Hs. injection Hs as <-.
  destruct (Hall 0%nat (V3 0 (1 / 2) (1 / 2)) eq_refl)
    as (b & _ & Hb & _ & _ & _ & _ & Hbrick).
  rewrite Hb. f_equal.
  apply Hbrick; try reflexivity; try (cbn; lra).
  unfold in_brick. cbn [unit_box x0 y0 z0 lx ly lz vx vy vz].
  rewrite round9_0, (round9_IZR 1). lra.
Defined.

End BBFacts.

(** ** Periodic wrapping *)

Module WrapFacts.
Import Num NumFacts Vec VecFacts Geometry StoreFacts TypedFacts GeometryFacts
  OutputFacts Spatial BBFacts.
Local Open Scope R_scope.

Lemma use_bbcheck_None pts : use_bbcheck pts None = bbcheck pts.
Proof. reflexivity. Qed.

(** [wrap] step by step, on a dictionary on which [output] returns. *)
Lemma wrap_run pts pbc σ c o :
  typed (dict σ) = Some c → output_of c = inr o →
  wrap pts None pbc σ =
  let bb := bbcheck_of o pts in
  let σ1 := (bbcheck pts σ).2 in
  if (count_true (inbound bb) =? length pts)%nat then (inr pts, σ1)
  else match pbc3 pbc with
       | inl e => (inl e, σ1)
       | inr m =>
           (inr (map (λ t : vec3 * list R,
                        vadd t.1 (wrap_shift o (wrap_rep o m t.2)))
                   (combine pts (dist bb))), σ1)
       end.
Proof.
  intros Hc Ho. unfold wrap.
  rewrite bind_run, (output_run _ c Hc), Ho.
  rewrite bind_run, use_bbcheck_None, (bbcheck_run pts σ c o Hc Ho).
  cbn zeta. cbn [snd].
  destruct (count_true (inbound (bbcheck_of o pts)) =? length pts)%nat;
    [reflexivity |].
  rewrite bind_run. unfold liftE. now destruct (pbc3 pbc).
Qed.

Lemma bbcheck_dict pts σ : dict (bbcheck pts σ).2 = dict σ.
Proof.
  unfold bbcheck. rewrite bind_run.
  unfold output. rewrite bind_run. cbn [get_dict].
  destruct (typed (dict σ)) as [c |]; [| reflexivity].
  destruct (output_of c) as [e | o]; [reflexivity |].
  cbn [mret M_ret]. rewrite bind_run.
  now destruct (0 <? length pts - count_true (inbound (bbcheck_of o pts)))%nat.
Qed.

Lemma count_true_all l : (∀ b, b ∈ l → b = true) → count_true l = length l.
Proof.
  unfold count_true. induction l as [| b l IH]; intros H; [reflexivity |].
  rewrite (H b) by left. simpl. f_equal. apply IH. intros b' Hb'. apply H. now right.
Qed.

Lemma row_min_negative d x : x ∈ d → x < 0 → Rleb 0 (row_min d) = false.
Proof.
  intros Hx Hneg. apply Rleb_false. pose proof (row_min_le d x Hx). lra.
Qed.

Lemma row_min_nonnegative d :
  d ≠ [] → (∀ x, x ∈ d → 0 <= x) → Rleb 0 (row_min d) = true.
Proof. intros Hd H. apply Rleb_true. now apply row_min_nonneg. Qed.

(** *** The cube of edge 10 *)

Lemma box10_output : output_of box10 = inr (round_all (derive box10)).
Proof. apply (ortho_output 0 0 0 10 10 10); lra. Qed.

Lemma box10_v : o_v (round_all (derive box10)) = diag 10 10 10.
Proof.
  unfold box10. rewrite ortho_v by lra. now rewrite (round9_IZR 10).
Qed.

Lemma box10_face_dist p :
  face_dist (round_all (derive box10)) p =
  [vx p - 0; vy p - 0; vz p - 0; 0 - vx p + 10; 0 - vy p + 10; 0 - vz p + 10].
Proof.
  rewrite (ortho_face_dist _ p 10 10 10).
  - cbn [round_all derive o_xlo o_ylo o_zlo box10 ortho_box x0 y0 z0].
    now rewrite round9_0.
  - apply (ortho_bn 0 0 0 10 10 10); lra.
  - apply box10_v.
Qed.

Lemma norm_axis_x a : 0 <= a → norm (V3 a 0 0) = a.
Proof. intros H. apply norm_eq; [assumption |]. unfold sumsq. cbn [vx vy vz]. ring. Qed.

Lemma norm_axis_y a : 0 <= a → norm (V3 0 a 0) = a.
Proof. intros H. apply norm_eq; [assumption |]. unfold sumsq. cbn [vx vy vz]. ring. Qed.

Lemma norm_axis_z a : 0 <= a → norm (V3 0 0 a) = a.
Proof. intros H. apply norm_eq; [assumption |]. unfold sumsq. cbn [vx vy vz]. ring. Qed.

Lemma mnorms_diag a b c :
  0 <= a → 0 <= b → 0 <= c → mnorms (diag a b c) = V3 a b c.
Proof.
  intros Ha Hb Hc. unfold mnorms, diag. cbn [row0 row1 row2].
  now rewrite norm_axis_x, norm_axis_y, norm_axis_z.
Qed.

Lemma floor_divide_eq x y z : IZR z <= x / y < IZR z + 1 → floor_divide x y = IZR z.
Proof. intros H. unfold floor_divide. f_equal. now apply Zfloor_eq. Qed.

(** The row of [rep] for the point (11, 5, 5): one box length back across
    the high x face. *)
Lemma box10_rep :
  wrap_rep (round_all (derive box10)) (true, true, true)
    [11 - 0; 5 - 0; 5 - 0; 0 - 11 + 10; 0 - 5 + 10; 0 - 5 + 10]
  = [0; 0; 0; 1; 0; 0].
Proof.
  unfold wrap_rep. rewrite box10_v, mnorms_diag by lra.
  cbn [periodic_mask as_int vx vy vz combine map].
  rewrite !(Rleb_true 0 (11 - 0)), !(Rleb_true 0 (5 - 0)),
    !(Rleb_true 0 (0 - 5 + 10)), (Rleb_false 0 (0 - 11 + 10)) by lra.
  rewrite (floor_divide_eq (0 - 11 + 10) 10 (-1)) by lra.
  replace (-1 * 1) with (-1) by ring. rewrite Rabs_left by lra.
  repeat (apply (f_equal2 cons); [ring |]). reflexivity.
Qed.

Lemma box10_shift :
  wrap_shift (round_all (derive box10)) [0; 0; 0; 1; 0; 0] = V3 (-10) 0 0.
Proof.
  unfold wrap_shift. rewrite box10_v.
  unfold diag, vscale, vneg, vadd, vzero.
  cbn [row0 row1 row2 combine map fold_left fst snd vx vy vz].
  apply vec3_eq; ring.
Qed.

Lemma box10_outside :
  inbound (bbcheck_of (round_all (derive box10)) [V3 11 5 5]) = [false].
Proof.
  unfold bbcheck_of. cbn [inbound map]. rewrite box10_face_dist.
  cbn [vx vy vz]. f_equal.
  apply (row_min_negative _ (0 - 11 + 10)); [set_solver | lra].
Qed.

Lemma box10_inside :
  inbound (bbcheck_of (round_all (derive box10)) [V3 1 5 5]) = [true].
Proof.
  unfold bbcheck_of. cbn [inbound map]. rewrite box10_face_dist.
  cbn [vx vy vz]. f_equal.
  apply row_min_nonnegative; [discriminate |].
  intros x Hx. repeat (apply elem_of_cons in Hx as [-> | Hx]); try lra.
  now apply not_elem_of_nil in Hx.
Qed.

Lemma box10_wrap :
  (wrap [V3 11 5 5] None (PFlag true) (State (to_dict box10) [])).1
  = inr [V3 1 5 5].
Proof.
  rewrite (wrap_run _ _ (State (to_dict box10) []) box10 _
             (typed_to_dict box10) box10_output).
  cbn zeta. rewrite box10_outside.
  cbn [count_true List.filter length Nat.eqb pbc3 flatten app firstn fst].
  unfold bbcheck_of. cbn [dist map combine fst snd].
  rewrite box10_face_dist. cbn [vx vy vz].
  rewrite box10_rep, box10_shift.
  do 2 f_equal. unfold vadd. cbn [vx vy vz]. apply vec3_eq; ring.
Qed.

(** [wrap] leaves the dictionary alone and returns as many points as it
    was given. *)
Lemma wrap_frame pts pbc σ r :
  (wrap pts None pbc σ).1 = inr r →
  dict (wrap pts None pbc σ).2 = dict σ ∧ length r = length pts.
Proof.
  destruct (output σ) as [[e | o] σ1] eqn:E.
  { unfold wrap. rewrite bind_run, E. discriminate. }
  destruct (output_inv _ _ _ E) as (-> & c & Hc & Ho). clear E.
  rewrite (wrap_run _ _ _ c o Hc Ho). cbn zeta.
  destruct (count_true (inbound (bbcheck_of o pts)) =? length pts)%nat.
  - cbn [fst snd]. intros [= <-]. split; [| reflexivity].
    apply bbcheck_dict.
  - destruct (pbc3 pbc) as [e | m]; [discriminate |].
    cbn [fst snd]. intros [= <-]. split; [apply bbcheck_dict |].
    rewrite length_map, length_combine. unfold bbcheck_of. cbn [dist].
    rewrite length_map. lia.
Qed.

(** With no point outbound, [wrap] hands back the points it was given. *)
Lemma wrap_noop pts pbc σ bb :
  (bbcheck pts σ).1 = inr bb → (∀ b, b ∈ outbound bb → b = false) →
  (wrap pts None pbc σ).1 = inr pts.
Proof.
  intros Hbb Hall.
  destruct (bbcheck pts σ) as [res σ1] eqn:E. cbn [fst] in Hbb. subst res.
  destruct (bbcheck_inv _ _ _ _ E) as (o & Ho & -> & _).
  destruct (output_inv _ _ _ Ho) as (_ & c & Hc & Hoc).
  rewrite (wrap_run _ _ _ c o Hc Hoc). cbn zeta.
  rewrite count_true_all.
  - unfold bbcheck_of. cbn [inbound]. rewrite !length_map, Nat.eqb_refl.
    reflexivity.
  - intros b Hb. unfold bbcheck_of in *. cbn [inbound outbound] in *.
    destruct b; [reflexivity |]. exfalso.
    assert (H : negb false ∈ map negb (map (λ d, Rleb 0 (row_min d))
                                         (map (face_dist o) pts))).
    { apply list_elem_of_fmap. eauto. }
    apply Hall in H. discriminate.
Qed.

Lemma box10_bbcheck l pts :
  (bbcheck pts (State (to_dict box10) l)).1
  = inr (bbcheck_of (round_all (derive box10)) pts).
Proof.
  now rewrite (bbcheck_run pts (State (to_dict box10) l) box10 _
                 (typed_to_dict box10) box10_output).
Qed.

(** C5: on the periodic cube of edge 10 at the origin, [wrap] sends the
    point (11, 5, 5) to (1, 5, 5), and [bbcheck] finds that point inbound;
    [wrap] returns a list of as many points as it was given and leaves the
    box parameters as they were (points are values here: the sum
    [pts + shift] is a new array and nothing in [wrap] writes into [pts]);
    when [bbcheck] finds no point outbound, [wrap] returns the points it was
    given. *)
Theorem C5_wrap_example_and_noop :
  (wrap [V3 11 5 5] None (PFlag true) (State (to_dict box10) [])).1
    = inr [V3 1 5 5]
  ∧ (∀ l, ∃ bb, (bbcheck [V3 1 5 5] (State (to_dict box10) l)).1 = inr bb
              ∧ inbound bb = [true] ∧ outbound bb = [false])
  ∧ (∀ pts pbc σ r,
       (wrap pts None pbc σ).1 = inr r →
       dict (wrap pts None pbc σ).2 = dict σ ∧ length r = length pts)
  ∧ (∀ pts pbc σ bb,
       (bbcheck pts σ).1 = inr bb → (∀ b, b ∈ outbound bb → b = false) →
       (wrap pts None pbc σ).1 = inr pts).
Proof.
  split; [apply box10_wrap |]. split; [| split].
  - intros l. eexists. split; [apply box10_bbcheck |].
    change (outbound (bbcheck_of (round_all (derive box10)) [V3 1 5 5]))
      with (map negb (inbound (bbcheck_of (round_all (derive box10)) [V3 1 5 5]))).
    now rewrite box10_inside.
  - apply wrap_frame.
  - apply wrap_noop.
Qed.

Lemma C5_witness :
  (wrap [V3 1 5 5] None (PFlag true) (State (to_dict box10) [])).1
  = inr [V3 1 5 5].
Proof.
  destruct C5_wrap_example_and_noop as (_ & Hin & _ & Hnoop).
  destruct (Hin []) as (bb & Hbb & _ & Hout).
  apply (Hnoop _ _ _ bb Hbb).
  intros b Hb. rewrite Hout in Hb.
  apply elem_of_cons in Hb as [-> | Hb]; [reflexivity |].
  now apply not_elem_of_nil in Hb.
Defined.

End WrapFacts.

(** ** Ghost images *)

Module GhostFacts.
Import Num NumFacts Vec VecFacts Geometry StoreFacts TypedFacts GeometryFacts
  OutputFacts Spatial BBFacts.
Local Open Scope R_scope.

Lemma shifted_translate pts sign L u shift :
  shifted (GhostEnv pts (map sign pts) L u) shift = translate sign shift pts.
Proof.
  unfold shifted, translate. cbn [g_ref g_side].
  induction pts as [| p pts IH]; [reflexivity |].
  cbn [map combine fst snd]. now rewrite IH.
Qed.

(** After its first yield the generator yields six more copies and stops;
    any number of [next] calls from 7 on collects the same six. *)
Lemma ghost_collect_rest env n σ :
  ghost_collect (7 + n) (GYielded env 0) σ =
  (inr (Some [shifted env (axis_shift env 0);
              shifted env (axis_shift env 1);
              shifted env (axis_shift env 2);
              shifted env (vadd (axis_shift env 0) (axis_shift env 1));
              shifted env (vadd (axis_shift env 1) (axis_shift env 2));
              shifted env (vadd (axis_shift env 2) (axis_shift env 0))]), σ).
Proof. reflexivity. Qed.

(** Fewer than 7 calls do not exhaust it. *)
Lemma ghost_collect_short env n σ :
  (n < 7)%nat → ghost_collect n (GYielded env 0) σ = (inr None, σ).
Proof.
  intros H. do 7 (destruct n as [| n]; [reflexivity |]). lia.
Qed.

Lemma ghost_start_run pts pbc σ o m :
  output σ = (inr o, σ) → pbc3 pbc = inr m →
  ghost_start pts pbc σ =
  let L := vmul (V3 (o_a o) (o_b o) (o_c o)) (periodic_mask m) in
  let env0 := GhostEnv pts [] L (o_u o) in
  let shift :=
    vadd (vadd (axis_shift env0 0) (axis_shift env0 1)) (axis_shift env0 2) in
  let env := GhostEnv pts (map (side_of shift) pts) L (o_u o) in
  (inr (shifted env shift, env), σ).
Proof.
  intros Ho Hm. unfold ghost_start. rewrite bind_run, Ho, bind_run, Hm.
  reflexivity.
Qed.

Lemma vmul_ones p : vmul p (periodic_mask (true, true, true)) = p.
Proof.
  destruct p as [x y z]. unfold vmul. cbn [periodic_mask as_int vx vy vz].
  apply vec3_eq; ring.
Qed.

(** The sign is -1 or 1, and it is the one that brings the point nearer
    to the origin (-1 on a tie). *)
Lemma side_of_nearest shift p :
  (side_of shift p = -1 ∨ side_of shift p = 1)
  ∧ sumsq (vadd p (vscale (side_of shift p) shift))
    <= sumsq (vadd p (vscale (- side_of shift p) shift)).
Proof.
  unfold side_of.
  destruct (Rleb (sumsq (vsub p shift)) (sumsq (vadd p shift))) eqn:E.
  - apply Rleb_spec in E. split; [now left |].
    destruct p as [x y z], shift as [a b c].
    unfold sumsq, vadd, vsub, vscale in *. cbn [vx vy vz] in *. nra.
  - split; [now right |].
    assert (E' : sumsq (vadd p shift) < sumsq (vsub p shift)).
    { apply Rnot_le_lt. intros H. apply Rleb_spec in H. congruence. }
    destruct p as [x y z], shift as [a b c].
    unfold sumsq, vadd, vsub, vscale in *. cbn [vx vy vz] in *. nra.
Qed.

(** C6: with all three axes periodic, on a dictionary on which [output]
    returns, the generator yields exactly seven lists and then stops: the
    points moved by the diagonal [a*u0 + b*u1 + c*u2], then by each of the
    three edge vectors alone, then by the sums of two edge vectors for the
    pairs (a,b), (b,c), (c,a), each point with its own sign; the sign is -1
    or 1, the same in the seven copies, and is the one for which the
    diagonal image is nearer to the origin; every run of at least eight
    [next] calls collects that same sequence and leaves the state as it
    was, so a second run yields it again. *)
Theorem C6_ghost_seven_copies pts pbc σ o :
  output σ = (inr o, σ) → pbc3 pbc = inr (true, true, true) →
  let diagonal := vadd (vadd (edge_a o) (edge_b o)) (edge_c o) in
  let sign := side_of diagonal in
  let copies :=
    [translate sign diagonal pts;
     translate sign (edge_a o) pts;
     translate sign (edge_b o) pts;
     translate sign (edge_c o) pts;
     translate sign (vadd (edge_a o) (edge_b o)) pts;
     translate sign (vadd (edge_b o) (edge_c o)) pts;
     translate sign (vadd (edge_c o) (edge_a o)) pts] in
  length copies = 7%nat
  ∧ (∀ n, ghost_collect (8 + n) (ghost pts pbc) σ = (inr (Some copies), σ))
  ∧ (∀ n, (n < 8)%nat → ghost_collect n (ghost pts pbc) σ = (inr None, σ))
  ∧ (∀ p, (sign p = -1 ∨ sign p = 1)
          ∧ sumsq (vadd p (vscale (sign p) diagonal))
            <= sumsq (vadd p (vscale (- sign p) diagonal))).
Proof.
  intros Ho Hm. cbn zeta. split; [reflexivity |].
  assert (Hstart := ghost_start_run pts pbc σ o _ Ho Hm).
  cbn zeta in Hstart. rewrite vmul_ones in Hstart.
  cbn [axis_shift g_L g_u vx vy vz] in Hstart.
  fold (edge_a o) (edge_b o) (edge_c o) in Hstart.
  split; [| split].
  - intros n. unfold ghost.
    change (8 + n)%nat with (S (7 + n)).
    cbn [ghost_collect]. rewrite bind_run.
    cbn [ghost_next]. rewrite bind_run, Hstart. cbn [mret M_ret fst snd].
    rewrite bind_run, ghost_collect_rest.
    cbn [axis_shift g_L g_u vx vy vz fmap option_fmap option_map mret M_ret].
    fold (edge_a o) (edge_b o) (edge_c o).
    now rewrite !shifted_translate.
  - intros n Hn. unfold ghost. destruct n as [| n]; [reflexivity |].
    cbn [ghost_collect]. rewrite bind_run.
    cbn [ghost_next]. rewrite bind_run, Hstart. cbn [mret M_ret fst snd].
    rewrite bind_run, ghost_collect_short by lia. reflexivity.
  - intros p. apply side_of_nearest.
Qed.

Lemma unit_box_run l :
  output (State (to_dict unit_box) l)
  = (inr (round_all (derive unit_box)), State (to_dict unit_box) l).
Proof.
  rewrite (output_run _ unit_box) by apply typed_to_dict.
  now rewrite unit_box_output.
Qed.

(** The "ghost count" example of the spec: the unit cell, one point. *)
Lemma C6_witness :
  ∃ copies,
    ghost_collect 8 (ghost [V3 (1 / 2) (1 / 2) (1 / 2)] (PFlag true))
      (State (to_dict unit_box) [])
    = (inr (Some copies), State (to_dict unit_box) [])
    ∧ length copies = 7%nat.
Proof.
  destruct (C6_ghost_seven_copies [V3 (1 / 2) (1 / 2) (1 / 2)] (PFlag true)
              (State (to_dict unit_box) []) _ (unit_box_run []) eq_refl)
    as (Hlen & Hrun & _).
  eexists. split; [apply (Hrun 0%nat) | exact Hlen].
Defined.

End GhostFacts.

(** ** Growing the box *)

Module ExtendFacts.
Import Num NumFacts Vec VecFacts Geometry StoreFacts TypedFacts GeometryFacts
  OutputFacts Spatial BBFacts WrapFacts.
Local Open Scope R_scope.

Lemma seq3_run (a b c k : M unit) σ σ' :
  (a;; b;; c) σ = (inr tt, σ') → (a;; b;; c;; k) σ = k σ'.
Proof.
  unfold mbind, M_bind.
  destruct (a σ) as [[e | []] σa]; [discriminate |].
  destruct (b σa) as [[e | []] σb]; [discriminate |].
  destruct (c σb) as [[e | []] σc]; [discriminate |].
  now intros [= ->].
Qed.

(** [self['x0'], self['y0'], self['z0'] = lo1] *)
Lemma set_lo_run lo1 σ c :
  typed (dict σ) = Some c →
  ∃ d, (setitem "x0" (VNum (vx lo1));;
        setitem "y0" (VNum (vy lo1));;
        setitem "z0" (VNum (vz lo1))) σ = (inr tt, State d (log σ))
       ∧ typed d = Some (set_lo lo1 c).
Proof.
  intros Hc.
  assert (H1 : typed (<["x0" := VNum (vx lo1)]> (dict σ))
               = Some (set_num "x0" (vx lo1) c)).
  { apply typed_insert_num; [assumption | set_solver]. }
  assert (H2 : typed (<["y0" := VNum (vy lo1)]> (<["x0" := VNum (vx lo1)]> (dict σ)))
               = Some (set_num "y0" (vy lo1) (set_num "x0" (vx lo1) c))).
  { apply typed_insert_num; [assumption | set_solver]. }
  assert (H3 : typed (<["z0" := VNum (vz lo1)]>
                        (<["y0" := VNum (vy lo1)]>
                           (<["x0" := VNum (vx lo1)]> (dict σ))))
               = Some (set_lo lo1 c)).
  { replace (set_lo lo1 c)
      with (set_num "z0" (vz lo1)
              (set_num "y0" (vy lo1) (set_num "x0" (vx lo1) c)))
      by now destruct c.
    apply typed_insert_num; [assumption | set_solver]. }
  eexists. split; [| exact H3].
  rewrite bind_run, (setitem_length_key σ c) by (assumption || set_solver).
  rewrite bind_run.
  rewrite (setitem_length_key
             (State (<["x0" := VNum (vx lo1)]> (dict σ)) (log σ))
             (set_num "x0" (vx lo1) c) "y0") by (exact H1 || set_solver).
  cbn [dict log].
  rewrite (setitem_length_key
             (State (<["y0" := VNum (vy lo1)]>
                       (<["x0" := VNum (vx lo1)]> (dict σ))) (log σ))
             (set_num "y0" (vy lo1) (set_num "x0" (vx lo1) c)) "z0")
    by (exact H2 || set_solver).
  reflexivity.
Qed.

(** [self.input.update(self._input_basis(v))] *)
Lemma basis_update_run v σ c :
  typed (dict σ) = Some c →
  ∃ d, update (input_basis_mat v) σ = (inr tt, State d (log σ))
       ∧ typed d = Some (basis_params v c).
Proof.
  intros Hc. eexists. split.
  - apply update_known. intros k Hk.
    apply (typed_numeric_key _ c); [assumption |].
    cbn in Hk. unfold numeric_keys.
    repeat (apply elem_of_cons in Hk as [-> | Hk]);
      [.. | now apply not_elem_of_nil in Hk]; set_solver.
  - unfold dict_update, input_basis_mat. cbn [foldl fst snd].
    replace (basis_params v c)
      with (set_num "gamma" (basis_angle (row0 (mnormalize v)) (row1 (mnormalize v)))
           (set_num "beta" (basis_angle (row0 (mnormalize v)) (row2 (mnormalize v)))
           (set_num "alpha" (basis_angle (row1 (mnormalize v)) (row2 (mnormalize v)))
           (set_num "lz" (vz (row2 v))
           (set_num "ly" (vy (row1 v))
           (set_num "lx" (vx (row0 v)) c))))))
      by now destruct c.
    repeat (apply typed_insert_num; [| set_solver]). assumption.
Qed.

Lemma select_all_inbound pts (mask : list bool) :
  length mask = length pts →
  select pts (map negb mask) = [] → count_true mask = length pts.
Proof.
  unfold select, count_true. revert mask.
  induction pts as [| p pts IH]; intros [| b mask] Hlen H; try discriminate;
    [reflexivity |].
  destruct b; cbn in *; [| discriminate].
  f_equal. apply IH; [lia | assumption].
Qed.

(** [extend] step by step, on a dictionary on which [output] returns and
    for points that are not all inbound. *)
Lemma extend_run pts pbc σ c o m :
  typed (dict σ) = Some c → output_of c = inr o →
  (count_true (inbound (bbcheck_of o pts)) =? length pts)%nat = false →
  pbc3 pbc = inr m →
  ∃ top σ',
    col_max (extend_d_abc o (select pts (outbound (bbcheck_of o pts)))) = inr top
    ∧ extend pts None pbc σ = (inr tt, σ')
    ∧ typed (dict σ')
      = Some (basis_params
                (extend_v o (extend_lo1 o (select pts (outbound (bbcheck_of o pts))) m)
                   top m)
                (set_lo (extend_lo1 o (select pts (outbound (bbcheck_of o pts))) m) c)).
Proof.
  intros Hc Ho Hcount Hm.
  set (outs := select pts (outbound (bbcheck_of o pts))).
  assert (Hne : outs ≠ []).
  { intros Hnil. apply Nat.eqb_neq in Hcount. apply Hcount.
    unfold bbcheck_of in *. cbn [inbound outbound] in *.
    apply select_all_inbound; [now rewrite !length_map | exact Hnil]. }
  destruct (col_max (extend_d_abc o outs)) as [e | top] eqn:Etop.
  { unfold col_max, extend_d_abc in Etop. destruct outs; [contradiction | discriminate]. }
  exists top.
  unfold extend. rewrite bind_run, (output_run _ c Hc), Ho.
  rewrite bind_run, use_bbcheck_None, (bbcheck_run pts σ c o Hc Ho).
  cbn zeta. rewrite Hcount, bind_run, Hm. cbn [liftE mret M_ret].
  fold outs.
  set (σ1 := if (0 <? _)%nat then _ else σ).
  assert (Hc1 : typed (dict σ1) = Some c).
  { subst σ1. now destruct (0 <? _)%nat. }
  destruct (set_lo_run (extend_lo1 o outs m) σ1 c Hc1) as (d2 & Hset & Hc2).
  rewrite (seq3_run _ _ _ _ _ _ Hset), bind_run, Etop. cbn [liftE mret M_ret].
  destruct (basis_update_run (extend_v o (extend_lo1 o outs m) top m)
              (State d2 (log σ1)) _ Hc2) as (d3 & Hupd & Hc3).
  rewrite Hupd. eexists. split; [reflexivity |]. split; [reflexivity |].
  exact Hc3.
Qed.

(** With every point inbound, [extend] returns at once: the dictionary is
    the one it found. *)
Lemma extend_noop pts pbc σ bb :
  (bbcheck pts σ).1 = inr bb → (∀ b, b ∈ outbound bb → b = false) →
  (extend pts None pbc σ).1 = inr tt
  ∧ dict (extend pts None pbc σ).2 = dict σ.
Proof.
  intros Hbb Hall.
  destruct (bbcheck pts σ) as [res σ1] eqn:E. cbn [fst] in Hbb. subst res.
  destruct (bbcheck_inv _ _ _ _ E) as (o & Ho & -> & Hd).
  destruct (output_inv _ _ _ Ho) as (_ & c & Hc & Hoc).
  unfold extend. rewrite bind_run, Ho, bind_run, use_bbcheck_None, E.
  rewrite count_true_all.
  - unfold bbcheck_of. cbn [inbound]. rewrite !length_map, Nat.eqb_refl.
    cbn [mret M_ret fst snd]. auto.
  - intros b Hb. unfold bbcheck_of in *. cbn [inbound outbound] in *.
    destruct b; [reflexivity |]. exfalso.
    assert (H : negb false ∈ map negb (map (λ d, Rleb 0 (row_min d))
                                         (map (face_dist o) pts))).
    { apply list_elem_of_fmap. eauto. }
    apply Hall in H. discriminate.
Qed.

(** *** A periodic axis *)

(** Whatever the low corner was, on an axis flagged periodic [extend]
    stores 0: the mask multiplies the minimum instead of selecting between
    the minimum and the current low end. *)
Lemma extend_lo1_periodic_x o outs pb pc :
  vx (extend_lo1 o outs (true, pb, pc)) = 0.
Proof.
  unfold extend_lo1, vmul. cbn [free_mask as_int negb vx]. ring.
Qed.

Lemma box5_output : output_of box5 = inr (round_all (derive box5)).
Proof. apply (ortho_output 5 0 0 1 1 1); lra. Qed.

Lemma box5_v : o_v (round_all (derive box5)) = identity.
Proof.
  unfold box5. rewrite ortho_v by lra. now rewrite (round9_IZR 1).
Qed.

Lemma box5_u : o_u (round_all (derive box5)) = identity.
Proof. apply (ortho_u 5 0 0 1 1 1); lra. Qed.

Lemma box5_lo : box_lo (round_all (derive box5)) = V3 5 0 0.
Proof.
  unfold box_lo. cbn [round_all derive o_xlo o_ylo o_zlo box5 ortho_box x0 y0 z0].
  now rewrite round9_0, (round9_IZR 5).
Qed.

Lemma box5_outside :
  inbound (bbcheck_of (round_all (derive box5)) [V3 7 (1 / 2) (1 / 2)]) = [false].
Proof.
  unfold bbcheck_of. cbn [inbound map].
  rewrite (ortho_face_dist _ _ 1 1 1);
    [| apply (ortho_bn 5 0 0 1 1 1); lra | apply box5_v].
  f_equal. apply (row_min_negative _ (o_xlo (round_all (derive box5)) - 7 + 1)).
  - cbn [vx]. set_solver.
  - cbn [round_all derive o_xlo box5 ortho_box x0]. rewrite (round9_IZR 5). lra.
Qed.

(** C8, at the input on which the code departs from it: the unit cube
    whose low corner is at x = 5, the point (7, 1/2, 1/2) outside it, every
    axis flagged periodic.  [extend] returns normally; afterwards the stored
    [x0] is 0, not 5, and the stored [lx] is 6, not 1. *)
Theorem C8_extend_moves_periodic_low_end :
  ∃ σ' c',
    extend [V3 7 (1 / 2) (1 / 2)] None (PFlag true) (State (to_dict box5) [])
      = (inr tt, σ')
    ∧ typed (dict σ') = Some c'
    ∧ x0 box5 = 5 ∧ x0 c' = 0
    ∧ lx box5 = 1 ∧ lx c' = 6.
Proof.
  destruct (extend_run [V3 7 (1 / 2) (1 / 2)] (PFlag true)
              (State (to_dict box5) []) box5 _ (true, true, true)
              (typed_to_dict box5) box5_output)
    as (top & σ' & Htop & Hrun & Hty).
  { now rewrite box5_outside. }
  { reflexivity. }
  eexists σ', _. split; [exact Hrun |]. split; [exact Hty |].
  split; [reflexivity |]. split; [apply extend_lo1_periodic_x |].
  split; [reflexivity |].
  cbn [basis_params lx extend_v row0 vscale vx vsub vmax vmul vmap free_mask
         as_int negb extend_shift mdot].
  rewrite box5_u, box5_v, box5_lo.
  unfold identity, diag, mnorms, dot, vsub. cbn [row0 row1 row2 vx vy vz].
  rewrite extend_lo1_periodic_x, norm_axis_x by lra.
  replace ((vx top + eps) * 0) with 0 by ring.
  rewrite Rmax_right by lra. ring.
Qed.

(** *** A tilted cell *)

Lemma cos_tilt : cos (acos (3 / 5) * rad2deg * deg2rad) = 3 / 5.
Proof. rewrite deg_rad. apply cos_acos. lra. Qed.

Lemma tilt_unit : (3 / 5) ^ 2 + (4 / 5) ^ 2 = 1.
Proof. field. Qed.

Lemma round_tilt_u : round_mat (mono_u (3 / 5) (4 / 5)) = mono_u (3 / 5) (4 / 5).
Proof.
  unfold round_mat, mmap, vmap, mono_u. cbn [row0 row1 row2 vx vy vz].
  now rewrite round9_0, (round9_IZR 1), (round9_frac 3 5), (round9_frac 4 5).
Qed.

Lemma round_tilt_bn : round_mat (mono_bn (3 / 5) (4 / 5)) = mono_bn (3 / 5) (4 / 5).
Proof.
  unfold round_mat, mmap, vmap, mono_bn. cbn [row0 row1 row2 vx vy vz].
  rewrite round9_0, (round9_IZR 1), (round9_frac 4 5) by reflexivity.
  rewrite round9_opp; [reflexivity | now apply round9_frac].
Qed.

Section Tilted.

(** Any cell with the angles of [tilt_box] and positive edge lengths. *)
Variable s : canon.
Hypothesis Halpha : alpha s = 90.
Hypothesis Hbeta : beta s = 90.
Hypothesis Hgamma : gamma s = acos (3 / 5) * rad2deg.
Hypothesis Hlx : 0 < lx s.
Hypothesis Hly : 0 < ly s.
Hypothesis Hlz : 0 < lz s.

Lemma tilt_cg : cos (gamma s * deg2rad) = 3 / 5.
Proof. rewrite Hgamma. apply cos_tilt. Qed.

Lemma tilt_output : output_of s = inr (round_all (derive s)).
Proof.
  apply (mono_output s (3 / 5) (4 / 5)); try assumption;
    [apply tilt_cg | lra | apply tilt_unit].
Qed.

Lemma tilt_u : o_u (round_all (derive s)) = mono_u (3 / 5) (4 / 5).
Proof.
  cbn [round_all o_u].
  rewrite (mono_derive_u s (3 / 5) (4 / 5)); try assumption;
    [apply round_tilt_u | apply tilt_cg | lra | apply tilt_unit].
Qed.

Lemma tilt_bn : o_bn (round_all (derive s)) = mono_bn (3 / 5) (4 / 5).
Proof.
  cbn [round_all o_bn].
  rewrite (mono_derive_bn s (3 / 5) (4 / 5)); try assumption;
    [apply round_tilt_bn | apply tilt_cg | lra | apply tilt_unit].
Qed.

Lemma tilt_v :
  o_v (round_all (derive s)) = round_mat (mono_v s (3 / 5) (4 / 5)).
Proof.
  cbn [round_all o_v].
  rewrite (mono_derive_v s (3 / 5) (4 / 5)); try assumption;
    [reflexivity | apply tilt_cg | lra | apply tilt_unit].
Qed.

(** The distance of a point to the low a-face of such a cell. *)
Lemma tilt_face_dist_head p :
  ∃ rest, face_dist (round_all (derive s)) p
          = (4 / 5 * (vx p - round9 (x0 s))
             - 3 / 5 * (vy p - round9 (y0 s))) :: rest.
Proof.
  unfold face_dist. rewrite tilt_bn. eexists.
  apply (f_equal2 cons); [| reflexivity].
  unfold mono_bn, dot, vneg, vsub, box_lo.
  cbn [row0 vx vy vz round_all derive o_xlo o_ylo o_zlo]. ring.
Qed.

End Tilted.

Lemma tilt_box_v : o_v (round_all (derive tilt_box)) = mono_u (3 / 5) (4 / 5).
Proof.
  rewrite tilt_v; try reflexivity; try (cbn; lra).
  unfold round_mat, mmap, vmap, mono_v, mono_u, tilt_box.
  cbn [row0 row1 row2 vx vy vz lx ly lz].
  replace (4 / 5 / (4 / 5) * (3 / 5)) with (3 / 5) by field.
  now rewrite round9_0, (round9_IZR 1), (round9_frac 3 5), (round9_frac 4 5).
Qed.

Lemma tilt_box_lo : box_lo (round_all (derive tilt_box)) = vzero.
Proof.
  unfold box_lo, vzero. cbn [round_all derive o_xlo o_ylo o_zlo tilt_box x0 y0 z0].
  now rewrite round9_0.
Qed.

Lemma tilt_box_output : output_of tilt_box = inr (round_all (derive tilt_box)).
Proof. apply tilt_output; try reflexivity; cbn; lra. Qed.

(** The point (-1, 1/2, 1/2) lies outside [tilt_box], beyond its low
    a-face. *)
Lemma tilt_box_outside :
  inbound (bbcheck_of (round_all (derive tilt_box)) [V3 (-1) (1 / 2) (1 / 2)])
  = [false].
Proof.
  unfold bbcheck_of. cbn [inbound map]. f_equal.
  destruct (tilt_face_dist_head tilt_box eq_refl eq_refl eq_refl
              ltac:(cbn; lra) ltac:(cbn; lra) ltac:(cbn; lra)
              (V3 (-1) (1 / 2) (1 / 2))) as [rest ->].
  eapply row_min_negative; [left |].
  cbn [vx vy tilt_box x0 y0]. rewrite round9_0. lra.
Qed.

Lemma eps_pos : 0 < eps < 1 / 10.
Proof. unfold eps. split; [apply Rdiv_lt_0_compat; [lra | apply pow_lt; lra] |]. lra. Qed.

(** The variables of [extend] on that input, no axis periodic. *)
Lemma tilt_lo1 :
  extend_lo1 (round_all (derive tilt_box)) [V3 (-1) (1 / 2) (1 / 2)]
    (false, false, false) = V3 (-1 - eps) 0 0.
Proof.
  pose proof eps_pos as He.
  unfold extend_lo1. rewrite tilt_box_lo.
  unfold vmul, vmin, vmap, vzero.
  cbn [map fold_right free_mask as_int negb vx vy vz].
  rewrite Rmin_left, !Rmin_right by lra. apply vec3_eq; ring.
Qed.

Lemma tilt_norms : mnorms (mono_u (3 / 5) (4 / 5)) = V3 1 1 1.
Proof.
  unfold mnorms, mono_u. cbn [row0 row1 row2].
  rewrite norm_axis_x, norm_axis_z by lra.
  rewrite (norm_eq _ 1); [reflexivity | lra |].
  unfold sumsq. cbn [vx vy vz]. field.
Qed.

Lemma tilt_extend_v :
  extend_v (round_all (derive tilt_box)) (V3 (-1 - eps) 0 0)
    (mdot (mono_u (3 / 5) (4 / 5)) (V3 (-1) (1 / 2) (1 / 2)))
    (false, false, false)
  = M3 (V3 (2 + eps) 0 0)
       (V3 ((8 / 5 + 3 / 5 * eps) * (3 / 5)) ((8 / 5 + 3 / 5 * eps) * (4 / 5)) 0)
       (V3 0 0 1).
Proof.
  pose proof eps_pos as He.
  unfold extend_v, extend_shift.
  rewrite tilt_box_v, tilt_box_lo, tilt_norms.
  rewrite tilt_u by (try reflexivity; cbn; lra).
  unfold mono_u, mdot, dot, vsub, vmax, vmul, vmap, vscale, vzero.
  cbn [row0 row1 row2 vx vy vz free_mask as_int negb].
  rewrite !Rmax_right by lra.
  f_equal; apply vec3_eq; field.
Qed.

Lemma tilt_basis_params :
  basis_params
    (M3 (V3 (2 + eps) 0 0)
       (V3 ((8 / 5 + 3 / 5 * eps) * (3 / 5)) ((8 / 5 + 3 / 5 * eps) * (4 / 5)) 0)
       (V3 0 0 1))
    (set_lo (V3 (-1 - eps) 0 0) tilt_box)
  = tilt_box_extended.
Proof.
  pose proof eps_pos as He.
  assert (Hu : mnormalize
                 (M3 (V3 (2 + eps) 0 0)
                    (V3 ((8 / 5 + 3 / 5 * eps) * (3 / 5))
                        ((8 / 5 + 3 / 5 * eps) * (4 / 5)) 0)
                    (V3 0 0 1)) = mono_u (3 / 5) (4 / 5)).
  { unfold mnormalize, mmap, mono_u. cbn [row0 row1 row2]. f_equal.
    - rewrite (normalize_norm _ (2 + eps)); [| apply norm_axis_x; lra | lra].
      unfold vdiv. cbn [vx vy vz]. apply vec3_eq; field; lra.
    - rewrite (normalize_norm _ (8 / 5 + 3 / 5 * eps)).
      + unfold vdiv. cbn [vx vy vz]. apply vec3_eq; field; lra.
      + apply norm_eq; [lra |]. unfold sumsq. cbn [vx vy vz]. field.
      + lra.
    - apply normalize_unit. unfold sumsq. cbn [vx vy vz]. ring. }
  unfold basis_params. rewrite Hu.
  unfold tilt_box_extended, basis_angle, mono_u, dot, set_lo.
  cbn [row0 row1 row2 vx vy vz x0 y0 z0 allow_tilt bx by_ bz tilt_box].
  replace (3 / 5 * 0 + 4 / 5 * 0 + 0 * 1) with 0 by ring.
  replace (1 * 0 + 0 * 0 + 0 * 1) with 0 by ring.
  replace (1 * (3 / 5) + 0 * (4 / 5) + 0 * 0) with (3 / 5) by ring.
  now rewrite acos_0_deg.
Qed.

(** C7, at the input on which the code departs from it: the cell
    [tilt_box] (edges 1, 1, 1, cos(gamma) = 3/5, low corner at the origin)
    and the single point (-1, 1/2, 1/2), which [bbcheck] finds outbound.
    With no axis periodic [extend] returns normally and changes the box, and
    [bbcheck] on the changed box still finds the point outbound. *)
Theorem C7_extend_leaves_point_outside :
  let pts := [V3 (-1) (1 / 2) (1 / 2)] in
  let σ := State (to_dict tilt_box) [] in
  (∃ bb, (bbcheck pts σ).1 = inr bb ∧ outbound bb = [true])
  ∧ ∃ σ', extend pts None (PFlag false) σ = (inr tt, σ')
          ∧ typed (dict σ') = Some tilt_box_extended
          ∧ ∃ bb', (bbcheck pts σ').1 = inr bb' ∧ outbound bb' = [true].
Proof.
  cbn zeta. pose proof eps_pos as He. split.
  - eexists. split.
    + now rewrite (bbcheck_run _ (State (to_dict tilt_box) []) tilt_box _
                     (typed_to_dict tilt_box) tilt_box_output).
    + change (outbound ?b) with (map negb (inbound b)).
      now rewrite tilt_box_outside.
  - destruct (extend_run [V3 (-1) (1 / 2) (1 / 2)] (PFlag false)
                (State (to_dict tilt_box) []) tilt_box _ (false, false, false)
                (typed_to_dict tilt_box) tilt_box_output)
      as (top & σ' & Htop & Hrun & Hty).
    { now rewrite tilt_box_outside. }
    { reflexivity. }
    change (outbound ?b) with (map negb (inbound b)) in Htop, Hty.
    rewrite tilt_box_outside in Htop, Hty.
    cbn [map negb select combine List.filter snd fst] in Htop, Hty.
    rewrite tilt_lo1 in Hty.
    unfold extend_d_abc, col_max in Htop. cbn [map fold_left] in Htop.
    rewrite tilt_u, tilt_box_lo in Htop by (try reflexivity; cbn; lra).
    injection Htop as <-.
    replace (vsub (V3 (-1) (1 / 2) (1 / 2)) vzero) with (V3 (-1) (1 / 2) (1 / 2))
      in Hty by (unfold vsub, vzero; cbn [vx vy vz]; apply vec3_eq; ring).
    rewrite tilt_extend_v, tilt_basis_params in Hty.
    exists σ'. split; [exact Hrun |]. split; [exact Hty |].
    assert (Hout : output_of tilt_box_extended
                   = inr (round_all (derive tilt_box_extended))).
    { apply tilt_output; try reflexivity; cbn; lra. }
    eexists. split.
    + now rewrite (bbcheck_run _ σ' tilt_box_extended _ Hty Hout).
    + change (outbound ?b) with (map negb (inbound b)).
      unfold bbcheck_of. cbn [inbound map]. do 2 f_equal.
      destruct (tilt_face_dist_head tilt_box_extended eq_refl eq_refl eq_refl
                  ltac:(cbn; lra) ltac:(cbn; lra) ltac:(cbn; lra)
                  (V3 (-1) (1 / 2) (1 / 2))) as [rest ->].
      apply negb_true_iff. eapply row_min_negative; [left |].
      cbn [vx vy tilt_box_extended x0 y0].
      rewrite round9_0, (round9_exact (-1 - eps) (-1000000100)).
      * lra.
      * unfold eps. field.
Qed.

End ExtendFacts.

(** ** Ingestion and the round trip *)

Module RoundTripFacts.
Import Num NumFacts Vec VecFacts Geometry StoreFacts TypedFacts GeometryFacts
  OutputFacts Convert.
Local Open Scope R_scope.

#[local] Arguments setitem_rec : simpl never.

(** *** [Box.output] returns on every cell with non-zero lengths *)

Lemma normalize_div p : ∃ n, n ≠ 0 ∧ normalize p = vdiv p n.
Proof.
  unfold normalize. destruct (Req_dec_T (norm p) 0) as [H | H].
  - exists 1. rewrite H, Reqb_true by reflexivity. split; [lra | reflexivity].
  - exists (norm p). now rewrite Reqb_false.
Qed.

Lemma det_normalize_lower a xy ly xz yz lz :
  a ≠ 0 → ly ≠ 0 → lz ≠ 0 →
  det (mnormalize (M3 (V3 a 0 0) (V3 xy ly 0) (V3 xz yz lz))) ≠ 0.
Proof.
  intros Ha Hly Hlz. unfold mnormalize, mmap. cbn [row0 row1 row2].
  destruct (normalize_div (V3 a 0 0)) as (n0 & Hn0 & ->).
  destruct (normalize_div (V3 xy ly 0)) as (n1 & Hn1 & ->).
  destruct (normalize_div (V3 xz yz lz)) as (n2 & Hn2 & ->).
  unfold det, dot, np_cross, vdiv. cbn [row0 row1 row2 vx vy vz].
  replace (a / n0 * (ly / n1 * (lz / n2) - 0 / n1 * (yz / n2)) +
           0 / n0 * (0 / n1 * (xz / n2) - xy / n1 * (lz / n2)) +
           0 / n0 * (xy / n1 * (yz / n2) - ly / n1 * (xz / n2)))
    with (a * ly * lz / (n0 * n1 * n2)) by (field; auto).
  unfold Rdiv. repeat apply Rmult_integral_contrapositive_currified; auto.
  apply Rinv_neq_0_compat.
  repeat apply Rmult_integral_contrapositive_currified; auto.
Qed.

Lemma output_of_ok s :
  lx s ≠ 0 → ly s ≠ 0 → lz s ≠ 0 → output_of s = inr (round_all (derive s)).
Proof.
  intros Ha Hb Hc. unfold output_of.
  rewrite Reqb_false; [reflexivity |].
  unfold derive. cbn [o_u]. now apply det_normalize_lower.
Qed.

(** *** [set_input] with a type given *)

Lemma geom_update_run l1 l2 l3 a1 a2 a3 σ c :
  typed (dict σ) = Some c →
  ∃ d, update (geom_update l1 l2 l3 a1 a2 a3) σ = (inr tt, State d (log σ))
       ∧ typed d = Some (geom_params l1 l2 l3 a1 a2 a3 c).
Proof.
  intros Hc. eexists. split.
  - apply update_known. intros k Hk.
    apply (typed_numeric_key _ c); [assumption |].
    cbn in Hk. unfold numeric_keys.
    repeat (apply elem_of_cons in Hk as [-> | Hk]);
      [.. | now apply not_elem_of_nil in Hk]; set_solver.
  - unfold dict_update, geom_update. cbn [foldl fst snd].
    replace (geom_params l1 l2 l3 a1 a2 a3 c)
      with (set_num "gamma" a3 (set_num "beta" a2 (set_num "alpha" a1
           (set_num "lz" l3 (set_num "ly" l2 (set_num "lx" l1 c))))))
      by now destruct c.
    repeat (apply typed_insert_num; [| set_solver]). assumption.
Qed.

Lemma typed_angle_lookup (d : gmap string value) c :
  typed d = Some c →
  ∃ al be ga,
    d !! "alpha" = Some al ∧ d !! "beta" = Some be ∧ d !! "gamma" = Some ga
    ∧ ne90 al || ne90 be || ne90 ga = any_ne90 c.
Proof.
  intros H. apply typed_Some in H as (_&_&_&_&_&_&Ha&Hb&Hg&_).
  destruct (d !! "alpha") as [al |]; [| discriminate].
  destruct (d !! "beta") as [be |]; [| discriminate].
  destruct (d !! "gamma") as [ga |]; [| discriminate].
  exists al, be, ga. repeat split; try reflexivity.
  unfold any_ne90.
  now rewrite (ne90_as_num al (alpha c)), (ne90_as_num be (beta c)),
    (ne90_as_num ga (gamma c)).
Qed.

(** The last lines of [set_input]. *)
Lemma force_tilt_run (typ : string) σ c :
  typed (dict σ) = Some c →
  ∃ d, (al ← getitem "alpha"; be ← getitem "beta"; ga ← getitem "gamma";
        (if ne90 al || ne90 be || ne90 ga
         then setitem "allow_tilt" (VBool true) else mret tt);;
        mret typ) σ = (inr typ, State d (log σ))
       ∧ typed d = Some (force_tilt c).
Proof.
  intros Hc. destruct (typed_angle_lookup _ _ Hc) as (al & be & ga & Ha & Hb & Hg & Hany).
  rewrite bind_run, getitem_run, Ha, bind_run, getitem_run, Hb,
    bind_run, getitem_run, Hg, Hany, bind_run.
  unfold force_tilt. destruct (any_ne90 c).
  - unfold setitem. rewrite setitem_rec_force, (typed_flag_key _ _ Hc).
    eexists. split; [reflexivity |]. now apply typed_insert_flag.
  - exists (dict σ). split; [now destruct σ | assumption].
Qed.

Lemma reshape_flatten v : reshape33 (flatten33 v) = Some v.
Proof. now destruct v as [[? ? ?] [? ? ?] [? ? ?]]. Qed.

Lemma set_input_typed argv (typ : string) func l1 l2 l3 a1 a2 a3 σ c :
  length argv ≠ 1%nat → alias !! typ = None →
  input_func typ = Some func →
  func argv = inr (geom_update l1 l2 l3 a1 a2 a3) →
  typed (dict σ) = Some c →
  ∃ d, set_input argv (Some typ) σ = (inr typ, State d (log σ))
       ∧ typed d = Some (force_tilt (geom_params l1 l2 l3 a1 a2 a3 c)).
Proof.
  intros Hlen Halias Hfunc Hupd Hc.
  destruct (geom_update_run l1 l2 l3 a1 a2 a3 σ c Hc) as (d & Hu & Hc').
  destruct (force_tilt_run typ (State d (log σ)) _ Hc') as (d' & Ht & Hc'').
  exists d'. split; [| assumption].
  unfold set_input, _format_input.
  apply Nat.eqb_neq in Hlen. rewrite Hlen.
  rewrite bind_run. cbn [liftE mret M_ret alias_get].
  rewrite Halias. cbn [default]. rewrite bind_run. cbn [mret M_ret].
  rewrite Hfunc, bind_run, Hupd. cbn [liftE mret M_ret].
  rewrite bind_run, Hu. exact Ht.
Qed.

(** [set_input(argv, 'lattice')] *)
Lemma set_input_lattice_run a b c al be ga σ s :
  typed (dict σ) = Some s →
  let ca := cos (al * deg2rad) in
  let cb := cos (be * deg2rad) in
  let cg := cos (ga * deg2rad) in
  ∃ d, set_input [a; b; c; al; be; ga] (Some "lattice") σ
       = (inr "lattice", State d (log σ))
       ∧ typed d
         = Some (force_tilt
                   (geom_params a (b * sqrt (1 - cg ^ 2))
                      (c * sqrt (lattice_K ca cb cg))
                      (acos ca * rad2deg) (acos cb * rad2deg)
                      (acos cg * rad2deg) s)).
Proof.
  intros Hs. cbn zeta.
  apply (set_input_typed _ "lattice" _input_lattice);
    try reflexivity; try assumption. cbn; lia.
Qed.

(** [set_input(v, 'basis')] *)
Lemma set_input_basis_run v σ s :
  typed (dict σ) = Some s →
  ∃ d, set_input (flatten33 v) (Some "basis") σ
       = (inr "basis", State d (log σ))
       ∧ typed d = Some (force_tilt (basis_params v s)).
Proof.
  intros Hs.
  apply (set_input_typed _ "basis" _input_basis);
    try reflexivity; try assumption.
  cbn; lia.
Qed.

Lemma force_tilt_lengths c :
  lx (force_tilt c) = lx c ∧ ly (force_tilt c) = ly c ∧ lz (force_tilt c) = lz c
  ∧ alpha (force_tilt c) = alpha c ∧ beta (force_tilt c) = beta c
  ∧ gamma (force_tilt c) = gamma c.
Proof. unfold force_tilt. destruct (any_ne90 c); now destruct c. Qed.

(** *** The round trip, step by step *)

(** The parameters stored after the two ingestions, when the first is of
    the lattice parameters and the basis read back is [V]. *)
Lemma round_trip_run abc l1 l2 l3 a1 a2 a3 σ s :
  typed (dict σ) = Some s →
  length abc ≠ 1%nat →
  _input_lattice abc = inr (geom_update l1 l2 l3 a1 a2 a3) →
  l1 ≠ 0 → l2 ≠ 0 → l3 ≠ 0 →
  let s1 := force_tilt (geom_params l1 l2 l3 a1 a2 a3 s) in
  let V := round_mat (o_v (derive s1)) in
  let s2 := force_tilt (basis_params V s1) in
  vx (row0 V) ≠ 0 → vy (row1 V) ≠ 0 → vz (row2 V) ≠ 0 →
  let o2 := round_all (derive s2) in
  ∃ σ', lattice_round_trip abc σ
        = (inr [o_a o2; o_b o2; o_c o2; i_alpha o2; i_beta o2; i_gamma o2], σ').
Proof.
  intros Hs Hlen Hupd H1 H2 H3 s1 V s2 HV1 HV2 HV3 o2.
  destruct (set_input_typed abc "lattice" _input_lattice l1 l2 l3 a1 a2 a3 σ s)
    as (d1 & Hin1 & Hs1); try reflexivity; try assumption.
  fold s1 in Hs1.
  assert (Ho1 : output_of s1 = inr (round_all (derive s1))).
  { destruct (force_tilt_lengths (geom_params l1 l2 l3 a1 a2 a3 s))
      as (Ha & Hb & Hc & _).
    apply output_of_ok; subst s1; [rewrite Ha | rewrite Hb | rewrite Hc];
      assumption. }
  destruct (set_input_basis_run V (State d1 (log σ)) s1 Hs1) as (d2 & Hin2 & Hs2).
  fold s2 in Hs2.
  assert (Ho2 : output_of s2 = inr o2).
  { destruct (force_tilt_lengths (basis_params V s1)) as (Ha & Hb & Hc & _).
    apply output_of_ok; subst s2; [rewrite Ha | rewrite Hb | rewrite Hc];
      assumption. }
  eexists. unfold lattice_round_trip.
  rewrite bind_run, Hin1, bind_run.
  rewrite (output_run (State d1 (log σ)) s1 Hs1), Ho1.
  change (o_v (round_all (derive s1))) with V.
  rewrite bind_run, Hin2, bind_run.
  rewrite (output_run (State d2 _) s2 Hs2), Ho2.
  reflexivity.
Qed.

(** *** Valid lattice parameters *)

Lemma cos_deg_bounds x : 0 < x < 180 → -1 < cos (x * deg2rad) < 1.
Proof.
  intros [H0 H180]. pose proof PI_RGT_0 as Hpi.
  assert (Hx : 0 < x * deg2rad < PI).
  { unfold deg2rad. split.
    - apply Rmult_lt_0_compat; [lra |]. apply Rdiv_lt_0_compat; lra.
    - replace PI with (180 * (PI / 180)) at 2 by field.
      apply Rmult_lt_compat_r; [apply Rdiv_lt_0_compat; lra | lra]. }
  split.
  - rewrite <- cos_PI. apply cos_decreasing_1; lra.
  - rewrite <- cos_0. apply cos_decreasing_1; lra.
Qed.

Lemma acos_cos_deg x : 0 <= x <= 180 → acos (cos (x * deg2rad)) * rad2deg = x.
Proof.
  intros [H0 H180]. pose proof PI_RGT_0 as Hpi.
  rewrite acos_cos; [apply rad_deg |].
  unfold deg2rad. split.
  - apply Rmult_le_pos; [lra |]. apply Rlt_le, Rdiv_lt_0_compat; lra.
  - replace PI with (180 * (PI / 180)) at 2 by field.
    apply Rmult_le_compat_r; [apply Rlt_le, Rdiv_lt_0_compat; lra | lra].
Qed.

Section Triclinic.

Variables a b c al be ga : R.
Hypothesis Hvalid : valid_lattice a b c al be ga.

Let ca := cos (al * deg2rad).
Let cb := cos (be * deg2rad).
Let cg := cos (ga * deg2rad).
Let sg := sqrt (1 - cg ^ 2).
Let rK := sqrt (lattice_K ca cb cg).

Lemma tri_pos : 0 < a ∧ 0 < b ∧ 0 < c.
Proof. destruct Hvalid as (?&?&?&_). auto. Qed.

Lemma tri_sg : 0 < sg ∧ sg ^ 2 = 1 - cg ^ 2.
Proof.
  destruct Hvalid as (_&_&_&_&_&Hga&_).
  apply cos_deg_bounds in Hga. fold cg in Hga.
  assert (H : 0 < 1 - cg ^ 2) by nra.
  split.
  - now apply sqrt_lt_R0.
  - unfold sg. replace (sqrt (1 - cg ^ 2) ^ 2)
      with (sqrt (1 - cg ^ 2) * sqrt (1 - cg ^ 2)) by ring.
    apply sqrt_sqrt. lra.
Qed.

Lemma tri_rK : 0 < rK ∧ rK ^ 2 = lattice_K ca cb cg.
Proof.
  destruct Hvalid as (_&_&_&_&_&_&HK). fold ca cb cg in HK.
  split.
  - now apply sqrt_lt_R0.
  - unfold rK. replace (sqrt (lattice_K ca cb cg) ^ 2)
      with (sqrt (lattice_K ca cb cg) * sqrt (lattice_K ca cb cg)) by ring.
    apply sqrt_sqrt. lra.
Qed.

Lemma tri_angles :
  acos ca * rad2deg = al ∧ acos cb * rad2deg = be ∧ acos cg * rad2deg = ga.
Proof.
  destruct Hvalid as (_&_&_&?&?&?&_).
  repeat split; apply acos_cos_deg; lra.
Qed.

(** What [_input_lattice] returns. *)
Lemma tri_input_lattice :
  _input_lattice [a; b; c; al; be; ga]
  = inr (geom_update a (b * sg) (c * rK) al be ga).
Proof.
  destruct tri_angles as (Ha & Hb & Hg).
  unfold _input_lattice, _input_dcd. fold ca cb cg.
  fold (lattice_K ca cb cg). fold sg rK. now rewrite Ha, Hb, Hg.
Qed.

(** The derived geometry of the parameters so stored. *)
Lemma tri_derive s :
  lx s = a → ly s = b * sg → lz s = c * rK →
  alpha s = al → beta s = be → gamma s = ga →
  o_a (derive s) = a ∧ o_b (derive s) = b ∧ o_c (derive s) = c
  ∧ o_v (derive s) = lattice_basis a b c al be ga.
Proof.
  intros Hlx Hly Hlz Hal Hbe Hga.
  destruct tri_pos as (Ha & Hb & Hc).
  destruct tri_sg as (Hsg & Hsg2). destruct tri_rK as (HrK & HrK2).
  assert (Eb : o_b (derive s) = b).
  { unfold derive. cbn [o_b]. rewrite Hly, Hga. fold cg sg. field. lra. }
  assert (Ec : o_c (derive s) = c).
  { unfold derive. cbn [o_c]. rewrite Hlz, Hal, Hbe, Hga. fold ca cb cg.
    fold (lattice_K ca cb cg). fold rK. field. lra. }
  split; [exact Hlx |]. split; [exact Eb |]. split; [exact Ec |].
  unfold derive in *. cbn [o_v o_b o_c] in *. rewrite Eb, Ec.
  rewrite Hlx, Hly, Hlz, Hal, Hbe, Hga.
  unfold lattice_basis. fold ca cb cg. fold sg. fold (lattice_K ca cb cg). fold rK.
  f_equal. apply vec3_eq; [reflexivity | | reflexivity].
  field. lra.
Qed.

Lemma tri_normalize :
  mnormalize (lattice_basis a b c al be ga)
  = M3 (V3 1 0 0) (V3 cg sg 0) (V3 cb ((ca - cg * cb) / sg) rK).
Proof.
  destruct tri_pos as (Ha & Hb & Hc).
  destruct tri_sg as (Hsg & Hsg2). destruct tri_rK as (HrK & HrK2).
  unfold mnormalize, mmap, lattice_basis. fold ca cb cg.
  fold sg. fold (lattice_K ca cb cg). fold rK.
  cbn [row0 row1 row2]. f_equal.
  - rewrite (normalize_norm _ a).
    + unfold vdiv. cbn [vx vy vz]. apply vec3_eq; field; lra.
    + apply norm_eq; [lra |]. unfold sumsq. cbn [vx vy vz]. ring.
    + lra.
  - rewrite (normalize_norm _ b).
    + unfold vdiv. cbn [vx vy vz]. apply vec3_eq; field; lra.
    + apply norm_eq; [lra |]. unfold sumsq. cbn [vx vy vz].
      replace ((b * cg) ^ 2 + (b * sg) ^ 2 + 0 ^ 2)
        with (b ^ 2 * (cg ^ 2 + sg ^ 2)) by ring.
      rewrite Hsg2. ring.
    + lra.
  - rewrite (normalize_norm _ c).
    + unfold vdiv. cbn [vx vy vz]. apply vec3_eq; field; lra.
    + apply norm_eq; [lra |]. unfold sumsq. cbn [vx vy vz].
      replace ((c * cb) ^ 2 + (c * (ca - cg * cb) / sg) ^ 2 + (c * rK) ^ 2)
        with (c ^ 2 * (cb ^ 2 + (ca - cg * cb) ^ 2 / sg ^ 2 + rK ^ 2))
        by (field; lra).
      rewrite HrK2, Hsg2. unfold lattice_K. field.
      rewrite <- Hsg2. apply Rgt_not_eq, pow_lt. lra.
    + lra.
Qed.

(** Ingesting the basis matrix gives back the parameters that produced
    it. *)
Lemma tri_basis_params s :
  basis_params (lattice_basis a b c al be ga) s
  = geom_params a (b * sg) (c * rK) al be ga s.
Proof.
  destruct tri_angles as (Ha & Hb & Hg).
  destruct tri_sg as (Hsg & Hsg2).
  unfold basis_params. rewrite tri_normalize.
  unfold geom_params, basis_angle, dot.
  cbn [row0 row1 row2 vx vy vz].
  replace (cg * cb + sg * ((ca - cg * cb) / sg) + 0 * rK) with ca by (field; lra).
  replace (1 * cb + 0 * ((ca - cg * cb) / sg) + 0 * rK) with cb by ring.
  replace (1 * cg + 0 * sg + 0 * 0) with cg by ring.
  rewrite Ha, Hb, Hg.
  unfold lattice_basis. fold ca cb cg. fold sg. fold (lattice_K ca cb cg). fold rK.
  reflexivity.
Qed.

End Triclinic.

Lemma close_round9 x : close (round9 x) x.
Proof.
  unfold close. etransitivity; [apply round9_err |].
  apply Rmult_le_reg_r with (10 ^ 10); [apply pow10_pos |].
  replace (5 / 10 ^ 10 * 10 ^ 10) with 5 by (field; apply Rgt_not_eq, pow10_pos).
  replace (1 / 10 ^ 9 * 10 ^ 10) with 10 by (simpl; field).
  lra.
Qed.

Lemma typed_defaults : typed defaults = Some unit_box.
Proof. apply typed_Some. repeat split. Qed.

Lemma Rabs_le_inv a b : Rabs a <= b → - b <= a <= b.
Proof. unfold Rabs. destruct (Rcase_abs a); lra. Qed.

(** *** What [_input_basis] and [output] make of a lower-triangular basis *)

Lemma cos_acos_deg x : -1 <= x <= 1 → cos (acos x * rad2deg * deg2rad) = x.
Proof. intros H. rewrite deg_rad. now apply cos_acos. Qed.


Lemma div_bounds x n : 0 < n → x ^ 2 <= n ^ 2 → -1 <= x / n <= 1.
Proof.
  intros Hn Hx.
  assert (Hxn : - n <= x <= n).
  { split.
    - destruct (Rle_dec (- n) x) as [H | H]; [assumption |].
      apply Rnot_le_lt in H. exfalso.
      assert (0 < (- x - n) * (- x + n)) by (apply Rmult_lt_0_compat; lra).
      nra.
    - destruct (Rle_dec x n) as [H | H]; [assumption |].
      apply Rnot_le_lt in H. exfalso.
      assert (0 < (x - n) * (x + n)) by (apply Rmult_lt_0_compat; lra).
      nra. }
  split.
  - apply Rmult_le_reg_r with n; [assumption |].
    replace (x / n * n) with x by (field; lra). lra.
  - apply Rmult_le_reg_r with n; [assumption |].
    replace (x / n * n) with x by (field; lra). lra.
Qed.

(** *** Norms *)

Lemma norm_le p n : 0 <= n → sumsq p <= n ^ 2 → norm p <= n.
Proof.
  intros Hn H. unfold norm. rewrite <- (sqrt_sq n Hn). now apply sqrt_le_1_alt.
Qed.

Lemma le_of_sq x y : 0 <= y → x ^ 2 <= y ^ 2 → x <= y.
Proof.
  intros Hy H. apply Rsqr_incr_0_var; [| assumption].
  unfold Rsqr. lra.
Qed.

Lemma cauchy_schwarz p q : dot p q <= norm p * norm q.
Proof.
  apply le_of_sq.
  - apply Rmult_le_pos; apply norm_nonneg.
  - replace ((norm p * norm q) ^ 2) with (norm p ^ 2 * norm q ^ 2) by ring.
    rewrite !norm_sq.
    pose proof (sumsq_nonneg (np_cross p q)) as H.
    destruct p as [x y z], q as [x' y' z'].
    unfold sumsq, dot, np_cross in *. cbn [vx vy vz] in *.
    replace ((x ^ 2 + y ^ 2 + z ^ 2) * (x' ^ 2 + y' ^ 2 + z' ^ 2))
      with ((x * x' + y * y' + z * z') ^ 2
            + ((y * z' - z * y') ^ 2 + (z * x' - x * z') ^ 2
               + (x * y' - y * x') ^ 2)) by ring.
    lra.
Qed.

Lemma norm_triangle p q : norm (vadd p q) <= norm p + norm q.
Proof.
  apply le_of_sq.
  - pose proof (norm_nonneg p). pose proof (norm_nonneg q). lra.
  - replace ((norm p + norm q) ^ 2)
      with (norm p ^ 2 + norm q ^ 2 + 2 * (norm p * norm q)) by ring.
    rewrite !norm_sq. pose proof (cauchy_schwarz p q) as H.
    destruct p as [x y z], q as [x' y' z'].
    unfold sumsq, dot, vadd in *. cbn [vx vy vz] in *.
    replace ((x + x') ^ 2 + (y + y') ^ 2 + (z + z') ^ 2)
      with (x ^ 2 + y ^ 2 + z ^ 2 + (x' ^ 2 + y' ^ 2 + z' ^ 2)
            + 2 * (x * x' + y * y' + z * z')) by ring.
    lra.
Qed.

Lemma sq_le_of_abs x e : Rabs x <= e → x ^ 2 <= e ^ 2.
Proof.
  intros H. apply Rabs_le_inv in H.
  assert (0 <= (e - x) * (e + x)) by (apply Rmult_le_pos; lra).
  nra.
Qed.

(** Two vectors whose coordinates differ by at most [e] have norms that
    differ by at most [2 * e]. *)
Lemma norm_perturb p q e :
  Rabs (vx p - vx q) <= e → Rabs (vy p - vy q) <= e →
  Rabs (vz p - vz q) <= e →
  Rabs (norm p - norm q) <= 2 * e.
Proof.
  intros Hx Hy Hz.
  assert (He : 0 <= e) by (pose proof (Rabs_pos (vx p - vx q)); lra).
  assert (Hd : norm (vsub p q) <= 2 * e).
  { apply norm_le; [lra |].
    apply sq_le_of_abs in Hx, Hy, Hz.
    unfold sumsq, vsub. cbn [vx vy vz]. nra. }
  assert (Hd' : norm (vsub q p) <= 2 * e).
  { replace (norm (vsub q p)) with (norm (vsub p q)); [assumption |].
    unfold norm, sumsq, vsub. cbn [vx vy vz]. f_equal. ring. }
  pose proof (norm_triangle q (vsub p q)) as H1.
  pose proof (norm_triangle p (vsub q p)) as H2.
  replace (vadd q (vsub p q)) with p in H1
    by (destruct p, q; unfold vadd, vsub; cbn [vx vy vz]; apply vec3_eq; ring).
  replace (vadd p (vsub q p)) with q in H2
    by (destruct p, q; unfold vadd, vsub; cbn [vx vy vz]; apply vec3_eq; ring).
  apply Rabs_le. lra.
Qed.

Section Lower.

Variables a xy lb xz yz lc : R.
Hypothesis Ha : 0 < a.
Hypothesis Hlb : 0 < lb.
Hypothesis Hlc : 0 < lc.

Let v := M3 (V3 a 0 0) (V3 xy lb 0) (V3 xz yz lc).
Let n1 := norm (V3 xy lb 0).
Let n2 := norm (V3 xz yz lc).
Let cg := xy / n1.
Let cb := xz / n2.
Let ca := (xy * xz + lb * yz) / (n1 * n2).

Lemma low_n1 : 0 < n1 ∧ n1 ^ 2 = xy ^ 2 + lb ^ 2.
Proof.
  assert (H : n1 ^ 2 = xy ^ 2 + lb ^ 2).
  { unfold n1. rewrite norm_sq. unfold sumsq. cbn [vx vy vz]. ring. }
  split; [| exact H].
  pose proof (norm_nonneg (V3 xy lb 0)) as Hn. fold n1 in Hn.
  destruct (Req_dec_T n1 0) as [E | E]; [| lra].
  rewrite E in H. nra.
Qed.

Lemma low_n2 : 0 < n2 ∧ n2 ^ 2 = xz ^ 2 + yz ^ 2 + lc ^ 2.
Proof.
  assert (H : n2 ^ 2 = xz ^ 2 + yz ^ 2 + lc ^ 2).
  { unfold n2. rewrite norm_sq. unfold sumsq. cbn [vx vy vz]. ring. }
  split; [| exact H].
  pose proof (norm_nonneg (V3 xz yz lc)) as Hn. fold n2 in Hn.
  destruct (Req_dec_T n2 0) as [E | E]; [| lra].
  rewrite E in H. nra.
Qed.

Lemma low_normalize :
  mnormalize v = M3 (V3 1 0 0) (V3 (xy / n1) (lb / n1) 0)
                    (V3 (xz / n2) (yz / n2) (lc / n2)).
Proof.
  destruct low_n1 as [Hn1 _]. destruct low_n2 as [Hn2 _].
  unfold mnormalize, mmap, v. cbn [row0 row1 row2]. f_equal.
  - rewrite (normalize_norm _ a).
    + unfold vdiv. cbn [vx vy vz]. apply vec3_eq; field; lra.
    + apply norm_eq; [lra |]. unfold sumsq. cbn [vx vy vz]. ring.
    + lra.
  - rewrite (normalize_norm _ n1); [| reflexivity | lra].
    unfold vdiv. cbn [vx vy vz]. apply vec3_eq; try reflexivity. field. lra.
  - rewrite (normalize_norm _ n2); [| reflexivity | lra].
    reflexivity.
Qed.


(** The three cosines are cosines. *)
Lemma low_bounds : -1 <= cg <= 1 ∧ -1 <= cb <= 1 ∧ -1 <= ca <= 1.
Proof.
  destruct low_n1 as [Hn1 Hs1]. destruct low_n2 as [Hn2 Hs2].
  split; [| split].
  - apply div_bounds; [assumption |]. rewrite Hs1.
    pose proof (pow2_ge_0 lb). lra.
  - apply div_bounds; [assumption |]. rewrite Hs2.
    pose proof (pow2_ge_0 yz). pose proof (pow2_ge_0 lc). lra.
  - apply div_bounds; [now apply Rmult_lt_0_compat |].
    replace ((n1 * n2) ^ 2) with (n1 ^ 2 * n2 ^ 2) by ring.
    rewrite Hs1, Hs2.
    pose proof (pow2_ge_0 (xy * yz - lb * xz)) as H0.
    pose proof (pow2_ge_0 (xy * lc)) as H1.
    pose proof (pow2_ge_0 (lb * lc)) as H2.
    replace ((xy ^ 2 + lb ^ 2) * (xz ^ 2 + yz ^ 2 + lc ^ 2))
      with ((xy * xz + lb * yz) ^ 2 + (xy * yz - lb * xz) ^ 2
            + (xy * lc) ^ 2 + (lb * lc) ^ 2) by ring.
    lra.
Qed.

Lemma low_sin : 1 - cg ^ 2 = (lb / n1) ^ 2.
Proof.
  destruct low_n1 as [Hn1 Hs1]. unfold cg.
  replace (1 - (xy / n1) ^ 2) with ((n1 ^ 2 - xy ^ 2) / n1 ^ 2) by (field; lra).
  rewrite Hs1. rewrite <- Hs1 at 2. field. lra.
Qed.

Lemma low_K : lattice_K ca cb cg = (lc / n2) ^ 2.
Proof.
  destruct low_n1 as [Hn1 Hs1]. destruct low_n2 as [Hn2 Hs2].
  unfold lattice_K. rewrite low_sin.
  assert (Hd : ca - cg * cb = lb * yz / (n1 * n2)).
  { unfold ca, cg, cb. field. lra. }
  rewrite Hd.
  replace ((lb * yz / (n1 * n2)) ^ 2 / (lb / n1) ^ 2) with (yz ^ 2 / n2 ^ 2)
    by (field; lra).
  unfold cb.
  replace (1 - (xz / n2) ^ 2 - yz ^ 2 / n2 ^ 2)
    with ((n2 ^ 2 - xz ^ 2 - yz ^ 2) / n2 ^ 2) by (field; lra).
  rewrite Hs2. rewrite <- Hs2 at 2. field. lra.
Qed.


(** The parameters [_input_basis] reads off the matrix. *)
Lemma low_basis_params s :
  basis_params v s
  = geom_params a lb lc (acos ca * rad2deg) (acos cb * rad2deg)
      (acos cg * rad2deg) s.
Proof.
  destruct low_n1 as [Hn1 _]. destruct low_n2 as [Hn2 _].
  unfold basis_params. rewrite low_normalize.
  unfold geom_params, basis_angle, dot. cbn [row0 row1 row2 vx vy vz].
  replace (xy / n1 * (xz / n2) + lb / n1 * (yz / n2) + 0 * (lc / n2))
    with ca by (unfold ca; field; lra).
  replace (1 * (xz / n2) + 0 * (yz / n2) + 0 * (lc / n2)) with cb
    by (unfold cb; field; lra).
  replace (1 * (xy / n1) + 0 * (lb / n1) + 0 * 0) with cg
    by (unfold cg; field; lra).
  reflexivity.
Qed.

(** The geometry derived from those parameters: the edge lengths are the
    norms of the rows, and the basis is the matrix that was ingested. *)
Lemma low_derive s :
  lx s = a → ly s = lb → lz s = lc →
  alpha s = acos ca * rad2deg → beta s = acos cb * rad2deg →
  gamma s = acos cg * rad2deg →
  o_a (derive s) = a ∧ o_b (derive s) = n1 ∧ o_c (derive s) = n2
  ∧ o_xy (derive s) = xy ∧ o_xz (derive s) = xz ∧ o_yz (derive s) = yz
  ∧ o_v (derive s) = v.
Proof.
  intros Hlx Hly Hlz Hal Hbe Hga.
  destruct low_n1 as [Hn1 Hs1]. destruct low_n2 as [Hn2 Hs2].
  destruct low_bounds as (Bg & Bb & Ba).
  assert (Eg : cos (gamma s * deg2rad) = cg) by (rewrite Hga; now apply cos_acos_deg).
  assert (Eb : cos (beta s * deg2rad) = cb) by (rewrite Hbe; now apply cos_acos_deg).
  assert (Ea : cos (alpha s * deg2rad) = ca) by (rewrite Hal; now apply cos_acos_deg).
  assert (Hsg : sqrt (1 - cg ^ 2) = lb / n1).
  { rewrite low_sin. apply sqrt_sq. apply Rlt_le, Rdiv_lt_0_compat; lra. }
  assert (HrK : sqrt (1 - cb ^ 2 - (ca - cg * cb) ^ 2 / (1 - cg ^ 2)) = lc / n2).
  { fold (lattice_K ca cb cg). rewrite low_K. apply sqrt_sq.
    apply Rlt_le, Rdiv_lt_0_compat; lra. }
  assert (Fb : o_b (derive s) = n1).
  { unfold derive. cbn [o_b]. rewrite Hly, Eg, Hsg. field. lra. }
  assert (Fc : o_c (derive s) = n2).
  { unfold derive. cbn [o_c]. rewrite Hlz, Ea, Eb, Eg, HrK. field. lra. }
  assert (Fxy : o_xy (derive s) = xy).
  { change (o_xy (derive s)) with (o_b (derive s) * cos (gamma s * deg2rad)).
    rewrite Fb, Eg. unfold cg. field. lra. }
  assert (Fxz : o_xz (derive s) = xz).
  { change (o_xz (derive s)) with (o_c (derive s) * cos (beta s * deg2rad)).
    rewrite Fc, Eb. unfold cb. field. lra. }
  assert (Fyz : o_yz (derive s) = yz).
  { change (o_yz (derive s))
      with ((o_b (derive s) * o_c (derive s) * cos (alpha s * deg2rad)
             - o_xy (derive s) * o_xz (derive s)) / ly s).
    rewrite Fb, Fc, Ea, Fxy, Fxz, Hly. unfold ca. field. lra. }
  split; [exact Hlx |]. do 5 (split; [assumption |]).
  change (o_v (derive s))
    with (M3 (V3 (lx s) 0 0) (V3 (o_xy (derive s)) (ly s) 0)
             (V3 (o_xz (derive s)) (o_yz (derive s)) (lz s))).
  now rewrite Hlx, Hly, Hlz, Fxy, Fxz, Fyz.
Qed.

(** The parameters stored by [set_input(v, 'basis')], then [output]. *)
Lemma low_output s s2 :
  s2 = force_tilt (basis_params v s) →
  output_of s2 = inr (round_all (derive s2))
  ∧ o_a (derive s2) = a ∧ o_b (derive s2) = n1 ∧ o_c (derive s2) = n2
  ∧ o_xy (derive s2) = xy ∧ o_xz (derive s2) = xz ∧ o_yz (derive s2) = yz
  ∧ o_v (derive s2) = v.
Proof.
  intros ->. rewrite low_basis_params.
  destruct (force_tilt_lengths
              (geom_params a lb lc (acos ca * rad2deg) (acos cb * rad2deg)
                 (acos cg * rad2deg) s)) as (E1 & E2 & E3 & E4 & E5 & E6).
  cbn [geom_params lx ly lz alpha beta gamma] in E1, E2, E3, E4, E5, E6.
  split.
  - apply output_of_ok; [rewrite E1 | rewrite E2 | rewrite E3]; lra.
  - now apply low_derive.
Qed.

End Lower.

Lemma unit_pos : 0 < 1 / 10 ^ 9.
Proof. apply Rdiv_lt_0_compat; [lra | apply pow10_pos]. Qed.

Lemma round9_half x : Rabs (round9 x - x) <= / 2 * (1 / 10 ^ 9).
Proof.
  replace (/ 2 * (1 / 10 ^ 9)) with (5 / 10 ^ 10) by (simpl; field).
  apply round9_err.
Qed.

Lemma round9_pos x : 1 / 10 ^ 9 <= x → 0 < round9 x.
Proof.
  intros H. pose proof (round9_half x) as He. apply Rabs_le_inv in He.
  pose proof unit_pos. lra.
Qed.

(** *** The angle between two rows that move a little *)

Lemma normalize_sumsq p : 0 < norm p → sumsq (normalize p) = 1.
Proof.
  intros H. rewrite (normalize_norm p (norm p)) by lra.
  pose proof (norm_sq p) as Hs.
  destruct p as [x y z]. unfold vdiv, sumsq in *. cbn [vx vy vz] in *.
  set (n := norm (V3 x y z)) in *.
  replace ((x / n) ^ 2 + (y / n) ^ 2 + (z / n) ^ 2)
    with ((x ^ 2 + y ^ 2 + z ^ 2) / n ^ 2) by (field; lra).
  rewrite <- Hs. field. lra.
Qed.

Lemma norm_unit p : sumsq p = 1 → norm p = 1.
Proof. intros H. apply norm_eq; [lra |]. rewrite H. ring. Qed.

Lemma dot_unit_bounds p q : sumsq p = 1 → sumsq q = 1 → -1 <= dot p q <= 1.
Proof.
  intros Hp Hq.
  pose proof (cauchy_schwarz p q) as H1.
  pose proof (cauchy_schwarz (vneg p) q) as H2.
  assert (Hn : norm (vneg p) = 1).
  { apply norm_unit. rewrite <- Hp. unfold sumsq, vneg. cbn [vx vy vz]. ring. }
  rewrite (norm_unit p Hp), (norm_unit q Hq) in H1.
  rewrite Hn, (norm_unit q Hq) in H2.
  replace (dot (vneg p) q) with (- dot p q) in H2
    by (unfold dot, vneg; cbn [vx vy vz]; ring).
  lra.
Qed.

(** The determinant of the Gram matrix of three unit vectors is a
    square. *)
Lemma gram p q r :
  sumsq p = 1 → sumsq q = 1 → sumsq r = 1 →
  (dot p r - dot p q * dot q r) ^ 2
  <= (1 - dot p q ^ 2) * (1 - dot q r ^ 2).
Proof.
  intros Hp Hq Hr.
  pose proof (pow2_ge_0 (det (M3 p q r))) as H.
  assert (E : det (M3 p q r) ^ 2
              = sumsq p * sumsq q * sumsq r
                + 2 * (dot p q * dot q r * dot p r)
                - sumsq p * dot q r ^ 2 - sumsq q * dot p r ^ 2
                - sumsq r * dot p q ^ 2).
  { destruct p as [a b c], q as [d e f], r as [g h i].
    unfold det, dot, np_cross, sumsq. cbn [row0 row1 row2 vx vy vz]. ring. }
  rewrite E, Hp, Hq, Hr in H.
  replace ((1 - dot p q ^ 2) * (1 - dot q r ^ 2)
           - (dot p r - dot p q * dot q r) ^ 2)
    with (1 * 1 * 1 + 2 * (dot p q * dot q r * dot p r) - 1 * dot q r ^ 2
          - 1 * dot p r ^ 2 - 1 * dot p q ^ 2) in * by ring.
  lra.
Qed.

Lemma sqrt_pow2 x : 0 <= x → sqrt x ^ 2 = x.
Proof. intros H. replace (sqrt x ^ 2) with (sqrt x * sqrt x) by ring. now apply sqrt_sqrt. Qed.

(** The triangle inequality of the angle, on cosines. *)
Lemma acos_triangle x y z :
  -1 <= x <= 1 → -1 <= y <= 1 → -1 <= z <= 1 →
  (z - x * y) ^ 2 <= (1 - x ^ 2) * (1 - y ^ 2) →
  acos z <= acos x + acos y.
Proof.
  intros Hx Hy Hz Hg.
  pose proof (acos_bound x) as Bx. pose proof (acos_bound y) as By.
  pose proof (acos_bound z) as Bz.
  destruct (Rle_dec PI (acos x + acos y)) as [Hbig | Hsmall]; [lra |].
  apply Rnot_le_lt in Hsmall.
  apply cos_decr_0; try lra.
  rewrite cos_plus, !cos_acos, !sin_acos by assumption.
  unfold Rsqr.
  replace (x * x) with (x ^ 2) by ring. replace (y * y) with (y ^ 2) by ring.
  assert (H1 : 0 <= 1 - x ^ 2) by nra.
  assert (H2 : 0 <= 1 - y ^ 2) by nra.
  rewrite <- sqrt_mult by assumption.
  set (w := sqrt ((1 - x ^ 2) * (1 - y ^ 2))).
  assert (Hw : 0 <= w) by apply sqrt_pos.
  assert (Hw2 : w ^ 2 = (1 - x ^ 2) * (1 - y ^ 2)).
  { apply sqrt_pow2. now apply Rmult_le_pos. }
  rewrite <- Hw2 in Hg.
  assert (Hle : - (z - x * y) <= w).
  { apply le_of_sq; [assumption |].
    replace ((- (z - x * y)) ^ 2) with ((z - x * y) ^ 2) by ring. assumption. }
  lra.
Qed.


Lemma angle_sym p q : angle_between p q = angle_between q p.
Proof.
  unfold angle_between. f_equal. unfold dot. ring.
Qed.

Lemma angle_triangle p q r :
  0 < norm p → 0 < norm q → 0 < norm r →
  angle_between p r <= angle_between p q + angle_between q r.
Proof.
  intros Hp Hq Hr. unfold angle_between.
  pose proof (normalize_sumsq p Hp) as Up.
  pose proof (normalize_sumsq q Hq) as Uq.
  pose proof (normalize_sumsq r Hr) as Ur.
  apply acos_triangle; try (now apply dot_unit_bounds).
  now apply gram.
Qed.

(** Moving both vectors changes the angle by at most the two angles
    moved. *)
Lemma angle_moved p q p' q' :
  0 < norm p → 0 < norm q → 0 < norm p' → 0 < norm q' →
  Rabs (angle_between p' q' - angle_between p q)
  <= angle_between p p' + angle_between q q'.
Proof.
  intros Hp Hq Hp' Hq'.
  pose proof (angle_triangle p' p q' Hp' Hp Hq') as H1.
  pose proof (angle_triangle p q q' Hp Hq Hq') as H2.
  pose proof (angle_triangle p p' q Hp Hp' Hq) as H3.
  pose proof (angle_triangle p' q' q Hp' Hq' Hq) as H4.
  rewrite (angle_sym p' p) in H1. rewrite (angle_sym q' q) in H4.
  apply Rabs_le. lra.
Qed.

Lemma atan_le x : 0 <= x → atan x <= x.
Proof.
  intros [H | <-]; [| rewrite atan_0; lra].
  destruct (MVT_cor2 atan (λ c, / (1 + c ^ 2)) 0 x H) as (c & Hc & _).
  { intros c _. apply derivable_pt_lim_atan. }
  rewrite atan_0 in Hc.
  assert (H1 : / (1 + c ^ 2) <= 1).
  { rewrite <- Rinv_1 at 2. apply Rinv_le_contravar; [lra |].
    pose proof (pow2_ge_0 c). lra. }
  assert (H0 : 0 < / (1 + c ^ 2)).
  { apply Rinv_0_lt_compat. pose proof (pow2_ge_0 c). lra. }
  nra.
Qed.

(** A cosine close to 1 is the cosine of a small angle. *)
Lemma acos_small x t :
  0 < x → x <= 1 → 0 <= t → t <= 1 / 2 → 1 - x ^ 2 <= t ^ 2 →
  acos x <= 2 * t.
Proof.
  intros Hx Hx1 Ht Ht2 H.
  rewrite acos_atan by assumption. unfold Rsqr.
  replace (x * x) with (x ^ 2) by ring.
  assert (Hs : sqrt (1 - x ^ 2) <= t).
  { rewrite <- (sqrt_sq t Ht). now apply sqrt_le_1_alt. }
  assert (Hs0 : 0 <= sqrt (1 - x ^ 2)) by apply sqrt_pos.
  assert (Hhalf : 1 / 2 <= x).
  { apply le_of_sq; [lra |]. nra. }
  assert (Hq : sqrt (1 - x ^ 2) / x <= 2 * t).
  { apply Rmult_le_reg_r with x; [assumption |].
    replace (sqrt (1 - x ^ 2) / x * x) with (sqrt (1 - x ^ 2)) by (field; lra).
    nra. }
  etransitivity; [apply atan_le | exact Hq].
  apply Rmult_le_pos; [assumption |]. apply Rlt_le, Rinv_0_lt_compat. assumption.
Qed.


Lemma lagrange p q : sumsq p * sumsq q - dot p q ^ 2 = sumsq (np_cross p q).
Proof.
  destruct p as [a b c], q as [d e f].
  unfold sumsq, dot, np_cross. cbn [vx vy vz]. ring.
Qed.

Lemma norm_le_inv p e : norm p <= e → sumsq p <= e ^ 2.
Proof.
  intros H. rewrite <- norm_sq. pose proof (norm_nonneg p).
  apply pow_incr. lra.
Qed.

(** A vector moved by at most [e], with [e] at most half its length, turns
    by at most [2 * e / length] radians. *)
Lemma angle_perturb p d e :
  0 < norm p → norm d <= e → 2 * e <= norm p →
  0 < norm (vadd p d)
  ∧ angle_between p (vadd p d) <= 2 * (e / norm p).
Proof.
  intros Hn Hd He.
  set (p' := vadd p d). set (n := norm p) in *. set (n' := norm p').
  assert (He0 : 0 <= e) by (pose proof (norm_nonneg d); lra).
  assert (Hn' : 0 < n').
  { pose proof (norm_triangle p' (vneg d)) as H.
    replace (vadd p' (vneg d)) with p in H
      by (destruct p, d; unfold p', vadd, vneg; cbn [vx vy vz];
          apply vec3_eq; ring).
    replace (norm (vneg d)) with (norm d) in H
      by (unfold norm, sumsq, vneg; cbn [vx vy vz]; f_equal; ring).
    fold n n' in H. lra. }
  split; [exact Hn' |].
  unfold angle_between.
  rewrite (normalize_norm p n), (normalize_norm p' n') by (reflexivity || lra).
  set (D := dot p p').
  assert (Ex : dot (vdiv p n) (vdiv p' n') = D / (n * n')).
  { unfold D, dot, vdiv. cbn [vx vy vz]. field. lra. }
  rewrite Ex.
  assert (Sn : n ^ 2 = sumsq p) by apply norm_sq.
  assert (Sn' : n' ^ 2 = sumsq p') by apply norm_sq.
  assert (HD : n ^ 2 - n * e <= D).
  { pose proof (cauchy_schwarz (vneg p) d) as H.
    replace (norm (vneg p)) with n in H
      by (unfold n, norm, sumsq, vneg; cbn [vx vy vz]; f_equal; ring).
    assert (ED : D = sumsq p - dot (vneg p) d).
    { unfold D, p', dot, sumsq, vadd, vneg. cbn [vx vy vz]. ring. }
    rewrite ED, <- Sn.
    assert (n * norm d <= n * e) by (apply Rmult_le_compat_l; lra).
    lra. }
  assert (HDpos : 0 < D).
  { assert (0 < n * (n - e)) by (apply Rmult_lt_0_compat; lra). lra. }
  assert (Hnn : 0 < n * n') by now apply Rmult_lt_0_compat.
  assert (Hx0 : 0 < D / (n * n')) by now apply Rdiv_lt_0_compat.
  assert (Hx1 : D / (n * n') <= 1).
  { rewrite <- Ex, <- (normalize_norm p n), <- (normalize_norm p' n')
      by (reflexivity || lra).
    apply dot_unit_bounds; apply normalize_sumsq; assumption. }
  assert (HS : sumsq p * sumsq p' - D ^ 2 <= e ^ 2 * n' ^ 2).
  { unfold D. rewrite lagrange.
    replace (sumsq (np_cross p p')) with (sumsq (np_cross d p'))
      by (destruct p, d; unfold p', sumsq, np_cross, vadd; cbn [vx vy vz]; ring).
    rewrite <- lagrange.
    pose proof (pow2_ge_0 (dot d p')) as H0.
    pose proof (norm_le_inv d e Hd) as H1.
    rewrite Sn'.
    assert (sumsq d * sumsq p' <= e ^ 2 * sumsq p').
    { apply Rmult_le_compat_r; [apply sumsq_nonneg | assumption]. }
    lra. }
  apply acos_small; try assumption.
  - unfold Rdiv. apply Rmult_le_pos; [assumption |].
    apply Rlt_le, Rinv_0_lt_compat. assumption.
  - apply Rmult_le_reg_r with n; [assumption |].
    replace (e / n * n) with e by (field; lra). lra.
  - replace (1 - (D / (n * n')) ^ 2)
      with ((sumsq p * sumsq p' - D ^ 2) * / (n * n') ^ 2)
      by (rewrite <- Sn, <- Sn'; field; lra).
    replace ((e / n) ^ 2) with (e ^ 2 * n' ^ 2 * / (n * n') ^ 2)
      by (field; lra).
    apply Rmult_le_compat_r; [| assumption].
    apply Rlt_le, Rinv_0_lt_compat, pow_lt. assumption.
Qed.


Lemma row_angle_between p q : row_angle p q = angle_between p q * rad2deg.
Proof. reflexivity. Qed.

Lemma rad2deg_bound : 0 < rad2deg <= 60.
Proof.
  unfold rad2deg. pose proof PI2_3_2 as H. pose proof PI_RGT_0 as H0. split.
  - apply Rdiv_lt_0_compat; lra.
  - apply Rmult_le_reg_r with PI; [lra |].
    replace (180 / PI * PI) with 180 by (field; lra). lra.
Qed.

(** A row whose three coordinates are rounded to nine decimals moves by at
    most 1e-9. *)
Lemma round_row_error p : norm (vsub (vmap round9 p) p) <= 1 / 10 ^ 9.
Proof.
  pose proof unit_pos as Hu.
  apply norm_le; [lra |].
  pose proof (sq_le_of_abs _ _ (round9_half (vx p))) as Hx.
  pose proof (sq_le_of_abs _ _ (round9_half (vy p))) as Hy.
  pose proof (sq_le_of_abs _ _ (round9_half (vz p))) as Hz.
  unfold sumsq, vsub, vmap. cbn [vx vy vz].
  set (u := 1 / 10 ^ 9) in *. nra.
Qed.

Lemma round_row_split p : vmap round9 p = vadd p (vsub (vmap round9 p) p).
Proof.
  destruct p as [x y z]. unfold vadd, vsub, vmap. cbn [vx vy vz].
  apply vec3_eq; ring.
Qed.

(** The angle between two rows, in degrees and rounded, after the rows
    have been rounded. *)
Lemma rounded_rows_angle p q :
  2 / 10 ^ 9 <= norm p → 2 / 10 ^ 9 <= norm q →
  Rabs (round9 (row_angle (vmap round9 p) (vmap round9 q)) - row_angle p q)
  <= angle_tolerance (norm p) (norm q).
Proof.
  intros Hp Hq. pose proof unit_pos as Hu.
  set (u := 1 / 10 ^ 9) in *.
  assert (Hp' : 2 * u <= norm p) by (unfold u; lra).
  assert (Hq' : 2 * u <= norm q) by (unfold u; lra).
  assert (Pp : 0 < norm p) by lra.
  assert (Pq : 0 < norm q) by lra.
  destruct (angle_perturb p (vsub (vmap round9 p) p) u Pp
              (round_row_error p) Hp') as [Np Ap].
  destruct (angle_perturb q (vsub (vmap round9 q) q) u Pq
              (round_row_error q) Hq') as [Nq Aq].
  rewrite <- round_row_split in Np, Ap, Nq, Aq.
  pose proof (angle_moved p q (vmap round9 p) (vmap round9 q)
                Pp Pq Np Nq) as Hm.
  pose proof (round9_half (row_angle (vmap round9 p) (vmap round9 q))) as Hr.
  fold u in Hr.
  rewrite !row_angle_between in *.
  set (A' := angle_between (vmap round9 p) (vmap round9 q)) in *.
  set (A := angle_between p q) in *.
  destruct rad2deg_bound as [R0 R60].
  assert (Hd : Rabs (A' * rad2deg - A * rad2deg)
               <= 60 * (2 * (u / norm p) + 2 * (u / norm q))).
  { replace (A' * rad2deg - A * rad2deg) with ((A' - A) * rad2deg) by ring.
    rewrite Rabs_mult, (Rabs_pos_eq rad2deg) by lra.
    assert (H0 : 0 <= Rabs (A' - A)) by apply Rabs_pos.
    assert (H1 : 0 <= 2 * (u / norm p) + 2 * (u / norm q)).
    { assert (0 <= u / norm p) by (apply Rlt_le, Rdiv_lt_0_compat; lra).
      assert (0 <= u / norm q) by (apply Rlt_le, Rdiv_lt_0_compat; lra).
      lra. }
    assert (H2 : Rabs (A' - A) <= 2 * (u / norm p) + 2 * (u / norm q)) by lra.
    nra. }
  unfold angle_tolerance.
  replace (5 / 10 ^ 10) with (/ 2 * u) by (unfold u; simpl; field).
  replace (12 / 10 ^ 8 * (1 / norm p + 1 / norm q))
    with (60 * (2 * (u / norm p) + 2 * (u / norm q)))
    by (unfold u; simpl; field; lra).
  apply Rabs_le_inv in Hr, Hd. apply Rabs_le. lra.
Qed.

Lemma coord_le_norm p : vx p <= norm p ∧ vy p <= norm p ∧ vz p <= norm p.
Proof.
  pose proof (norm_nonneg p) as Hn. pose proof (norm_sq p) as Hs.
  unfold sumsq in Hs.
  pose proof (pow2_ge_0 (vx p)). pose proof (pow2_ge_0 (vy p)).
  pose proof (pow2_ge_0 (vz p)).
  repeat split; apply le_of_sq; try assumption; lra.
Qed.

(** *** The basis matrix as [output] rounds it *)

Section RoundedBasis.

Variables a b c al be ga : R.
Hypothesis Hvalid : valid_lattice a b c al be ga.

Let B := lattice_basis a b c al be ga.
Let V := round_mat B.

Hypothesis Hh0 : 2 / 10 ^ 9 <= vx (row0 B).
Hypothesis Hh1 : 2 / 10 ^ 9 <= vy (row1 B).
Hypothesis Hh2 : 2 / 10 ^ 9 <= vz (row2 B).

Lemma rb_shape :
  V = M3 (V3 (round9 a) 0 0)
         (V3 (round9 (vx (row1 B))) (round9 (vy (row1 B))) 0)
         (V3 (round9 (vx (row2 B))) (round9 (vy (row2 B)))
             (round9 (vz (row2 B)))).
Proof.
  unfold V, B, round_mat, mmap, vmap, lattice_basis.
  cbn [row0 row1 row2 vx vy vz]. now rewrite round9_0.
Qed.

Lemma rb_norm1 : norm (row1 B) = b.
Proof.
  destruct (tri_pos _ _ _ _ _ _ Hvalid) as (_ & Hb & _).
  destruct (tri_sg _ _ _ _ _ _ Hvalid) as (Hsg & Hsg2).
  unfold B, lattice_basis. cbn [row1].
  apply norm_eq; [lra |]. unfold sumsq. cbn [vx vy vz].
  set (cg := cos (ga * deg2rad)) in *.
  set (sg := sqrt (1 - cg ^ 2)) in *.
  replace ((b * cg) ^ 2 + (b * sg) ^ 2 + 0 ^ 2)
    with (b ^ 2 * (cg ^ 2 + sg ^ 2)) by ring.
  rewrite Hsg2. ring.
Qed.

Lemma rb_norm2 : norm (row2 B) = c.
Proof.
  destruct (tri_pos _ _ _ _ _ _ Hvalid) as (_ & _ & Hc).
  destruct (tri_sg _ _ _ _ _ _ Hvalid) as (Hsg & Hsg2).
  destruct (tri_rK _ _ _ _ _ _ Hvalid) as (HrK & HrK2).
  unfold B, lattice_basis. cbn [row2].
  apply norm_eq; [lra |]. unfold sumsq. cbn [vx vy vz].
  set (ca := cos (al * deg2rad)) in *.
  set (cb := cos (be * deg2rad)) in *.
  set (cg := cos (ga * deg2rad)) in *.
  set (sg := sqrt (1 - cg ^ 2)) in *.
  set (rK := sqrt (lattice_K ca cb cg)) in *.
  replace ((c * cb) ^ 2 + (c * (ca - cg * cb) / sg) ^ 2 + (c * rK) ^ 2)
    with (c ^ 2 * (cb ^ 2 + (ca - cg * cb) ^ 2 / sg ^ 2 + rK ^ 2))
    by (field; lra).
  rewrite HrK2, Hsg2. unfold lattice_K. field.
  rewrite <- Hsg2. apply Rgt_not_eq, pow_lt. lra.
Qed.

(** The rows of the rounded matrix are as long as the edges, to within
    1.5e-9 once rounded again. *)
Lemma rb_length1 : Rabs (round9 (norm (row1 V)) - b) <= 2 / 10 ^ 9.
Proof.
  pose proof (round9_half (norm (row1 V))) as H1.
  assert (H2 : Rabs (norm (row1 V) - norm (row1 B)) <= 2 * (/ 2 * (1 / 10 ^ 9))).
  { apply norm_perturb; unfold V, round_mat, mmap, vmap;
      cbn [row1 vx vy vz]; apply round9_half. }
  rewrite rb_norm1 in H2. pose proof unit_pos.
  apply Rabs_le_inv in H1, H2. apply Rabs_le. lra.
Qed.

Lemma rb_length2 : Rabs (round9 (norm (row2 V)) - c) <= 2 / 10 ^ 9.
Proof.
  pose proof (round9_half (norm (row2 V))) as H1.
  assert (H2 : Rabs (norm (row2 V) - norm (row2 B)) <= 2 * (/ 2 * (1 / 10 ^ 9))).
  { apply norm_perturb; unfold V, round_mat, mmap, vmap;
      cbn [row2 vx vy vz]; apply round9_half. }
  rewrite rb_norm2 in H2. pose proof unit_pos.
  apply Rabs_le_inv in H1, H2. apply Rabs_le. lra.
Qed.

(** The round trip returns the lattice parameters of the rounded matrix,
    rounded. *)
Lemma rb_run σ s :
  typed (dict σ) = Some s →
  ∃ σ', lattice_round_trip [a; b; c; al; be; ga] σ
        = (inr (map round9 (lattice_of_basis V)), σ').
Proof.
  intros Hs.
  destruct (tri_pos _ _ _ _ _ _ Hvalid) as (Ha & Hb & Hc).
  destruct (tri_sg _ _ _ _ _ _ Hvalid) as (Hsg & _).
  destruct (tri_rK _ _ _ _ _ _ Hvalid) as (HrK & _).
  set (sg := sqrt (1 - cos (ga * deg2rad) ^ 2)) in *.
  set (rK := sqrt (lattice_K (cos (al * deg2rad)) (cos (be * deg2rad))
                     (cos (ga * deg2rad)))) in *.
  assert (Hbs : 0 < b * sg) by now apply Rmult_lt_0_compat.
  assert (Hcr : 0 < c * rK) by now apply Rmult_lt_0_compat.
  pose proof (round_trip_run [a; b; c; al; be; ga] a (b * sg) (c * rK) al be ga
                σ s Hs) as Hrun.
  cbn zeta in Hrun.
  set (s1 := force_tilt (geom_params a (b * sg) (c * rK) al be ga s)) in *.
  destruct (force_tilt_lengths (geom_params a (b * sg) (c * rK) al be ga s))
    as (E1 & E2 & E3 & E4 & E5 & E6). fold s1 in E1, E2, E3, E4, E5, E6.
  cbn [geom_params lx ly lz alpha beta gamma] in E1, E2, E3, E4, E5, E6.
  destruct (tri_derive _ _ _ _ _ _ Hvalid s1 E1 E2 E3 E4 E5 E6)
    as (_ & _ & _ & Hv1).
  rewrite Hv1 in Hrun. fold B in Hrun. fold V in Hrun.
  pose proof unit_pos as Hu.
  assert (P0 : 0 < round9 a).
  { apply round9_pos. change a with (vx (row0 B)). lra. }
  assert (P1 : 0 < round9 (vy (row1 B))) by (apply round9_pos; lra).
  assert (P2 : 0 < round9 (vz (row2 B))) by (apply round9_pos; lra).
  set (s2 := force_tilt (basis_params V s1)) in *.
  destruct (low_output (round9 a) (round9 (vx (row1 B))) (round9 (vy (row1 B)))
              (round9 (vx (row2 B))) (round9 (vy (row2 B)))
              (round9 (vz (row2 B))) P0 P1 P2 s1 s2)
    as (_ & Fa & Fb & Fc & _).
  { unfold s2. now rewrite rb_shape. }
  destruct (force_tilt_lengths (basis_params V s1))
    as (_ & _ & _ & G4 & G5 & G6). fold s2 in G4, G5, G6.
  destruct Hrun as [σ' Hrun].
  - cbn; lia.
  - apply (tri_input_lattice _ _ _ _ _ _ Hvalid).
  - lra.
  - lra.
  - lra.
  - rewrite rb_shape. cbn [row0 vx]. lra.
  - rewrite rb_shape. cbn [row1 vy]. lra.
  - rewrite rb_shape. cbn [row2 vz]. lra.
  - exists σ'. rewrite Hrun. do 2 f_equal.
    cbn [round_all o_a o_b o_c i_alpha i_beta i_gamma].
    rewrite Fa, Fb, Fc.
    change (i_alpha (derive s2)) with (alpha s2).
    change (i_beta (derive s2)) with (beta s2).
    change (i_gamma (derive s2)) with (gamma s2).
    rewrite G4, G5, G6.
    unfold lattice_of_basis, row_angle. rewrite rb_shape.
    reflexivity.
Qed.

Lemma rb_norm0 : norm (row0 B) = a.
Proof.
  destruct (tri_pos _ _ _ _ _ _ Hvalid) as (Ha & _).
  unfold B, lattice_basis. cbn [row0].
  apply norm_eq; [lra |]. unfold sumsq. cbn [vx vy vz]. ring.
Qed.

(** The angles between the rows of the exact matrix are the angles
    given. *)
Lemma rb_angles :
  row_angle (row1 B) (row2 B) = al ∧ row_angle (row0 B) (row2 B) = be
  ∧ row_angle (row0 B) (row1 B) = ga.
Proof.
  pose proof (tri_basis_params _ _ _ _ _ _ Hvalid unit_box) as H.
  fold B in H. repeat split.
  - apply (f_equal alpha) in H. exact H.
  - apply (f_equal beta) in H. exact H.
  - apply (f_equal gamma) in H. exact H.
Qed.

Lemma rb_long : 2 / 10 ^ 9 <= a ∧ 2 / 10 ^ 9 <= b ∧ 2 / 10 ^ 9 <= c.
Proof.
  destruct (coord_le_norm (row1 B)) as (_ & H1 & _).
  destruct (coord_le_norm (row2 B)) as (_ & _ & H2).
  rewrite rb_norm1 in H1. rewrite rb_norm2 in H2.
  repeat split; [exact Hh0 | lra | lra].
Qed.

(** The angles returned are within the tolerance of the angles given. *)
Lemma rb_alpha :
  Rabs (round9 (row_angle (row1 V) (row2 V)) - al) <= angle_tolerance b c.
Proof.
  destruct rb_angles as (E & _ & _). destruct rb_long as (_ & Hb & Hc).
  rewrite <- E, <- rb_norm1, <- rb_norm2.
  apply (rounded_rows_angle (row1 B) (row2 B));
    [rewrite rb_norm1 | rewrite rb_norm2]; assumption.
Qed.

Lemma rb_beta :
  Rabs (round9 (row_angle (row0 V) (row2 V)) - be) <= angle_tolerance a c.
Proof.
  destruct rb_angles as (_ & E & _). destruct rb_long as (Ha & _ & Hc).
  rewrite <- E, <- rb_norm0, <- rb_norm2.
  apply (rounded_rows_angle (row0 B) (row2 B));
    [rewrite rb_norm0 | rewrite rb_norm2]; assumption.
Qed.

Lemma rb_gamma :
  Rabs (round9 (row_angle (row0 V) (row1 V)) - ga) <= angle_tolerance a b.
Proof.
  destruct rb_angles as (_ & _ & E). destruct rb_long as (Ha & Hb & _).
  rewrite <- E, <- rb_norm0, <- rb_norm1.
  apply (rounded_rows_angle (row0 B) (row1 B));
    [rewrite rb_norm0 | rewrite rb_norm1]; assumption.
Qed.

End RoundedBasis.

(** *** A box with three right angles *)

Lemma right_basis a b c : lattice_basis a b c 90 90 90 = diag a b c.
Proof.
  unfold lattice_basis, lattice_K. rewrite cos_90.
  replace (1 - 0 ^ 2) with 1 by ring. rewrite sqrt_1.
  replace (1 - (0 - 0 * 0) ^ 2 / 1) with 1 by field. rewrite sqrt_1.
  unfold diag. f_equal; apply vec3_eq; field.
Qed.

Lemma valid_right a b c : 0 < a → 0 < b → 0 < c → valid_lattice a b c 90 90 90.
Proof.
  intros Ha Hb Hc. unfold valid_lattice, lattice_K. rewrite cos_90.
  repeat split; lra.
Qed.

Lemma right_lattice_of_basis A B C :
  0 < A → 0 < B → 0 < C →
  lattice_of_basis (diag A B C) = [A; B; C; 90; 90; 90].
Proof.
  intros HA HB HC. unfold lattice_of_basis, row_angle, diag.
  cbn [row0 row1 row2 vx].
  assert (N0 : norm (V3 A 0 0) = A).
  { apply norm_eq; [lra |]. unfold sumsq. cbn [vx vy vz]. ring. }
  assert (N1 : norm (V3 0 B 0) = B).
  { apply norm_eq; [lra |]. unfold sumsq. cbn [vx vy vz]. ring. }
  assert (N2 : norm (V3 0 0 C) = C).
  { apply norm_eq; [lra |]. unfold sumsq. cbn [vx vy vz]. ring. }
  rewrite (normalize_norm _ A N0), (normalize_norm _ B N1),
    (normalize_norm _ C N2) by lra.
  rewrite N1, N2. unfold basis_angle, dot, vdiv. cbn [vx vy vz].
  replace (0 / B * (0 / C) + B / B * (0 / C) + 0 / B * (C / C)) with 0
    by (field; lra).
  replace (A / A * (0 / C) + 0 / A * (0 / C) + 0 / A * (C / C)) with 0
    by (field; lra).
  replace (A / A * (0 / B) + 0 / A * (B / B) + 0 / A * (0 / B)) with 0
    by (field; lra).
  now rewrite acos_0_deg.
Qed.

Lemma round_diag A B C :
  round_mat (diag A B C) = diag (round9 A) (round9 B) (round9 C).
Proof.
  unfold round_mat, mmap, vmap, diag. cbn [row0 row1 row2 vx vy vz].
  now rewrite round9_0.
Qed.



Lemma K_flat cg : cg ^ 2 < 1 → lattice_K 0 0 cg = 1.
Proof. intros H. unfold lattice_K. field. lra. Qed.

(** *** A cell that fails: the unit hexagonal cell *)

Lemma sqrt3_bounds : 1732050807 / 10 ^ 9 < sqrt 3 < 1732050809 / 10 ^ 9.
Proof.
  split.
  - rewrite <- (sqrt_sq (1732050807 / 10 ^ 9)) by lra.
    apply sqrt_lt_1; lra.
  - rewrite <- (sqrt_sq (1732050809 / 10 ^ 9)) by lra.
    apply sqrt_lt_1; lra.
Qed.

Lemma sqrt_3_4 : sqrt (1 - (1 / 2) ^ 2) = sqrt 3 / 2.
Proof.
  replace (1 - (1 / 2) ^ 2) with ((sqrt 3 / 2) ^ 2) by (rewrite sqrt3_sq; lra).
  apply sqrt_sq. pose proof sqrt3_pos. lra.
Qed.

(** The nine decimals of sqrt(3)/2. *)
Lemma round9_sqrt3_half : round9 (sqrt 3 / 2) = 866025404 / 10 ^ 9.
Proof.
  pose proof sqrt3_bounds as [Hlo Hhi].
  unfold round9, round_dec. rewrite (rint_near 866025404); [reflexivity |].
  lra.
Qed.

Lemma valid_hex : valid_lattice 1 1 1 90 90 60.
Proof.
  unfold valid_lattice. rewrite cos_90, cos_60.
  rewrite K_flat by lra. repeat split; lra.
Qed.

Lemma basis_hex :
  lattice_basis 1 1 1 90 90 60
  = M3 (V3 1 0 0) (V3 (1 / 2) (sqrt 3 / 2) 0) (V3 0 0 1).
Proof.
  pose proof sqrt3_pos as H3.
  unfold lattice_basis. rewrite cos_90, cos_60.
  rewrite K_flat by lra. rewrite sqrt_3_4, sqrt_1.
  f_equal; apply vec3_eq; field; lra.
Qed.

(** The basis matrix [output] hands back for it. *)
Lemma round_basis_hex :
  round_mat (lattice_basis 1 1 1 90 90 60)
  = M3 (V3 1 0 0) (V3 (1 / 2) (866025404 / 10 ^ 9) 0) (V3 0 0 1).
Proof.
  rewrite basis_hex. unfold round_mat, mmap, vmap.
  cbn [row0 row1 row2 vx vy vz].
  now rewrite round9_0, (round9_IZR 1), (round9_frac 1 2), round9_sqrt3_half.
Qed.

(** The length of its second row is above 1 by more than 1.8e-10. *)
Lemma hex_row1_norm :
  1 + 18 / 10 ^ 11 < norm (V3 (1 / 2) (866025404 / 10 ^ 9) 0).
Proof.
  unfold norm, sumsq. cbn [vx vy vz].
  rewrite <- (sqrt_sq (1 + 18 / 10 ^ 11)) by lra.
  apply sqrt_lt_1; lra.
Qed.

(** cos(60 degrees + 2e-9 degrees) is above 1/2 - 4e-11. *)
Lemma cos_just_above_60 :
  1 / 2 - 4 / 10 ^ 11 < cos ((60 + 2 / 10 ^ 9) * deg2rad).
Proof.
  pose proof PI_RGT_0 as Hpi. pose proof PI_4 as Hpi4.
  pose proof PI2_3_2 as Hpi3.
  pose proof sqrt3_bounds as [_ H3].
  set (e := 2 / 10 ^ 9 * deg2rad).
  assert (He : 0 < e <= 45 / 10 ^ 12).
  { unfold e, deg2rad. split.
    - apply Rmult_lt_0_compat; [lra | apply Rdiv_lt_0_compat; lra].
    - lra. }
  replace ((60 + 2 / 10 ^ 9) * deg2rad) with (PI / 3 + e)
    by (unfold e, deg2rad; field).
  rewrite cos_plus, cos_PI3, sin_PI3.
  assert (Hs : 0 <= sin e < e).
  { split; [apply sin_ge_0; lra | apply sin_lt_x; lra]. }
  assert (Hc : 1 - e ^ 2 < cos e).
  { pose proof (sin2_cos2 e) as H. unfold Rsqr in H.
    pose proof (COS_bound e) as [_ Hc1].
    assert (Hc0 : 0 <= cos e) by (apply cos_ge_0; lra).
    nra. }
  nra.
Qed.

(** The angle gamma that the second ingestion stores for it is above 60
    by more than 2e-9 degrees. *)
Lemma hex_gamma_drift :
  60 + 2 / 10 ^ 9
  < basis_angle (V3 1 0 0)
      (normalize (V3 (1 / 2) (866025404 / 10 ^ 9) 0)).
Proof.
  pose proof PI_RGT_0 as Hpi. pose proof PI_4 as Hpi4.
  pose proof PI2_3_2 as Hpi3.
  pose proof hex_row1_norm as Hn.
  set (n := norm (V3 (1 / 2) (866025404 / 10 ^ 9) 0)) in *.
  rewrite (normalize_norm _ n) by (subst n; reflexivity || lra).
  unfold basis_angle, dot, vdiv. cbn [vx vy vz].
  replace (1 * (1 / 2 / n) + 0 * (866025404 / 10 ^ 9 / n) + 0 * (0 / n))
    with (1 / 2 / n) by (field; lra).
  set (x := 1 / 2 / n).
  assert (Hx : 0 < x < 1 / 2 - 4 / 10 ^ 11).
  { unfold x. split.
    - apply Rdiv_lt_0_compat; lra.
    - apply Rmult_lt_reg_r with n; [lra |].
      replace (1 / 2 / n * n) with (1 / 2) by (field; lra). nra. }
  pose proof cos_just_above_60 as Hcos.
  destruct (acos_bound x) as [Ha0 Ha1].
  assert (Hlt : (60 + 2 / 10 ^ 9) * deg2rad < acos x).
  { apply Rnot_le_lt. intros Hle.
    assert (H : cos ((60 + 2 / 10 ^ 9) * deg2rad) <= cos (acos x)).
    { apply cos_decr_1; try lra. unfold deg2rad. lra. }
    rewrite cos_acos in H by lra. lra. }
  unfold rad2deg.
  replace (60 + 2 / 10 ^ 9)
    with ((60 + 2 / 10 ^ 9) * deg2rad * (180 / PI))
    by (unfold deg2rad; field; lra).
  apply Rmult_lt_compat_r; [apply Rdiv_lt_0_compat; lra | assumption].
Qed.

Lemma Forall2_sixth {A} (P : A → A → Prop) x1 x2 x3 x4 x5 x6 y1 y2 y3 y4 y5 y6 :
  Forall2 P [x1; x2; x3; x4; x5; x6] [y1; y2; y3; y4; y5; y6] → P x6 y6.
Proof.
  intros H.
  do 5 (inversion H as [| ? ? ? ? _ H']; subst; clear H; rename H' into H).
  now inversion H.
Qed.

Lemma not_close_above x y : y + 15 / 10 ^ 10 < x → ¬ close (round9 x) y.
Proof.
  intros Hx Hc. unfold close in Hc.
  pose proof (round9_err x) as He.
  apply Rabs_le_inv in Hc. apply Rabs_le_inv in He. lra.
Qed.


End RoundTripFacts.
